(** * rez-node network transports: WebSocket and TCP framing, hello handshake,
      peer registry and dial ledger.

    A shallow embedding of
    [src/legacy/src/runtime/node/network/transports/WebSocketTransport.js] and
    [src/legacy/src/runtime/node/network/transports/TcpTransport.js].

    Buffers are lists of integers in [0, 256); JavaScript numbers that hold
    lengths are integers in [Z]; the two [Map]s of a transport are [gmap]s
    keyed by strings; sockets and connection objects are compared by identity
    in the source ([===]) and are therefore natural-number handles here. *)

From Stdlib Require Import ZArith Lia.
From stdpp Require Import base tactics option list strings pretty gmap.

Open Scope Z_scope.

(** ** Node's [Buffer] *)

Module Buffer.

Definition is_byte (b : Z) : Prop := 0 ≤ b < 256.

(** [buffer.length] *)
Definition len (b : list Z) : Z := Z.of_nat (length b).

(** [buffer[i]] for an index inside the buffer (0 stands for [undefined]). *)
Definition get (b : list Z) (i : Z) : Z := default 0 (b !! Z.to_nat i).

(** [buffer.subarray(s, e)] and [buffer.subarray(s)]. *)
Definition subarray (b : list Z) (s e : Z) : list Z :=
  take (Z.to_nat (e - s)) (drop (Z.to_nat s) b).

Definition subarray_from (b : list Z) (s : Z) : list Z := drop (Z.to_nat s) b.

(** [buffer.readUInt16BE(off)], [buffer.readUInt32BE(off)]. *)
Definition readUInt16BE (b : list Z) (off : Z) : Z :=
  get b off * 2 ^ 8 + get b (off + 1).

Definition readUInt32BE (b : list Z) (off : Z) : Z :=
  get b off * 2 ^ 24 + get b (off + 1) * 2 ^ 16 + get b (off + 2) * 2 ^ 8
  + get b (off + 3).

(** The bytes [writeUInt16BE(v, 0)] / [writeUInt32BE(v, 0)] store: each
    element assignment keeps the low eight bits. *)
Definition writeUInt16BE (v : Z) : list Z :=
  [Z.land (Z.shiftr v 8) 255; Z.land v 255].

Definition writeUInt32BE (v : Z) : list Z :=
  [Z.land (Z.shiftr v 24) 255; Z.land (Z.shiftr v 16) 255;
   Z.land (Z.shiftr v 8) 255; Z.land v 255].

End Buffer.

(** [x >>> 0]: conversion to an unsigned 32-bit integer. *)
Definition toUint32 (x : Z) : Z := x mod 2 ^ 32.

(** ** The WebSocket frame codec *)

Module WsCodec.
Import Buffer.

(** The loop [for (i...) out[i] = body[i] ^ maskKey[i & 3]], used by both
    [buildFrame] and [tryParseFrame]; [out] is a byte buffer. *)
Definition xorMask (maskKey body : list Z) : list Z :=
  imap (λ i b, Z.land (Z.lxor b (get maskKey (Z.land (Z.of_nat i) 3))) 255) body.

(** [buildFrame({opcode, payload, mask})]. The four bytes drawn from
    [crypto.randomBytes(4)] when [mask] is set are the argument [randomBytes4]. *)
Definition buildFrame (opcode : Z) (payload : list Z) (mask : bool)
    (randomBytes4 : list Z) : list Z :=
  let finOpcode := Z.lor 0x80 (Z.land opcode 0x0f) in
  let len := toUint32 (Buffer.len payload) in
  let '(lenByte, extLen) :=
    if len <? 126 then (len, [])
    else if len <? 65536 then (126, writeUInt16BE len)
    else (127, writeUInt32BE 0 ++ writeUInt32BE len) in
  let '(maskKey, body) :=
    if mask then (randomBytes4, xorMask randomBytes4 payload)
    else ([], payload) in
  [finOpcode; Z.lor (if mask then 0x80 else 0) lenByte]
    ++ extLen ++ maskKey ++ body.

(** What [tryParseFrame] does: [return null], [throw new Error(msg)], or
    [return { frame: { opcode, payload }, rest }]. *)
Inductive parse_result :=
  | NeedMore
  | Throw (msg : string)
  | Parsed (opcode : Z) (payload rest : list Z).

Definition tryParseFrame (buffer : list Z) (expectMasked : bool)
    (maxPayloadBytes : Z) : parse_result :=
  if Buffer.len buffer <? 2 then NeedMore else
  let b0 := get buffer 0 in
  let b1 := get buffer 1 in
  let fin := negb (Z.land b0 0x80 =? 0) in
  let opcode := Z.land b0 0x0f in
  let masked := negb (Z.land b1 0x80 =? 0) in
  let len := Z.land b1 0x7f in
  let offset := 2 in
  if negb fin then Throw "Fragmented frames not supported" else
  if expectMasked && negb masked then Throw "Expected masked client frame" else
  if negb expectMasked && masked then Throw "Unexpected masked server frame" else
  (* the extended length: [inl] is an early exit of the function *)
  let ext : parse_result + (Z * Z) :=
    if len =? 126 then
      if Buffer.len buffer <? offset + 2 then inl NeedMore
      else inr (readUInt16BE buffer offset, offset + 2)
    else if len =? 127 then
      if Buffer.len buffer <? offset + 8 then inl NeedMore
      else
        let hi := readUInt32BE buffer offset in
        let lo := readUInt32BE buffer (offset + 4) in
        if negb (hi =? 0) then inl (Throw "Frame too large")
        else inr (lo, offset + 8)
    else inr (len, offset) in
  match ext with
  | inl r => r
  | inr (len, offset) =>
    if len >? maxPayloadBytes then Throw "WS payload too large" else
    if masked && (Buffer.len buffer <? offset + 4) then NeedMore else
    let maskKey := if masked then subarray buffer offset (offset + 4) else [] in
    let offset := if masked then offset + 4 else offset in
    if Buffer.len buffer <? offset + len then NeedMore else
    let payload := subarray buffer offset (offset + len) in
    let rest := subarray_from buffer (offset + len) in
    let payload := if masked then xorMask maskKey payload else payload in
    Parsed opcode payload rest
  end.

End WsCodec.

(** The length field of a frame header, as RFC 6455 and [buildFrame] lay it
    out: [ext_length l7 ext hi lo] says that the 7-bit indicator [l7] followed
    by the extension bytes [ext] declares the payload length [hi * 2^32 + lo]. *)
Section wire_format.
Import Buffer.

Variant ext_length : Z → list Z → Z → Z → Prop :=
  | ext_len7 l : 0 ≤ l < 126 → ext_length l [] 0 l
  | ext_len16 x y :
      is_byte x → is_byte y → ext_length 126 [x; y] 0 (x * 2 ^ 8 + y)
  | ext_len64 h3 h2 h1 h0 l3 l2 l1 l0 :
      Forall is_byte [h3; h2; h1; h0; l3; l2; l1; l0] →
      ext_length 127 [h3; h2; h1; h0; l3; l2; l1; l0]
        (readUInt32BE [h3; h2; h1; h0] 0) (readUInt32BE [l3; l2; l1; l0] 0).

End wire_format.

(** A payload of exactly 2^32 bytes (all zero), the shortest one whose length
    [>>> 0] wraps. It is only ever reasoned about, never evaluated. *)
Definition four_GiB : list Z := replicate (Z.to_nat (2 ^ 32)) 0.

(** ** Events, JSON values and the host platform *)

(** The four event kinds a transport emits, with the fields of their payload
    objects ([url] is set by the WebSocket backend only, [outbound] of a
    disconnection by the WebSocket backend only). *)
Inductive event :=
  | EvConnection (peerId : string) (outbound : bool) (url : option string)
  | EvDisconnection (peerId : string) (outbound : option bool)
  | EvFrame (from : string) (bytes : list Z)
  | EvError (message : string).

(** The values [JSON.parse] returns. An object is its list of own properties
    (keys distinct); a number is only ever tested for being zero. *)
#[local] Unset Elimination Schemes.
Inductive json :=
  | JNull
  | JBool (b : bool)
  | JNumber (n : Z)
  | JString (s : string)
  | JArray (items : list json)
  | JObject (fields : list (string * json)).
#[local] Set Elimination Schemes.

(** [!!v] *)
Definition truthy (v : json) : bool :=
  match v with
  | JNull => false
  | JBool b => b
  | JNumber n => negb (n =? 0)
  | JString s => negb (String.eqb s "")
  | JArray _ | JObject _ => true
  end.

(** [v.k] for [k] one of ["t"], ["peerId"]; [None] is [undefined]. *)
Fixpoint assoc (k : string) (fields : list (string * json)) : option json :=
  match fields with
  | [] => None
  | (k', v) :: fields => if String.eqb k' k then Some v else assoc k fields
  end.

Definition prop (v : json) (k : string) : option json :=
  match v with JObject fields => assoc k fields | _ => None end.

(** [!!s] for a variable holding [null] or a string. *)
Definition truthy_str (s : option string) : bool :=
  match s with Some s => negb (String.eqb s "") | None => false end.

(** The test both backends apply to a parsed hello:
    [!obj || obj.t !== "hello" || typeof obj.peerId !== "string" || !obj.peerId]. *)
Definition invalid_hello_fields (obj : json) : bool :=
  negb (truthy obj)
  || match prop obj "t" with
     | Some (JString t) => negb (String.eqb t "hello")
     | _ => true
     end
  || match prop obj "peerId" with
     | Some (JString p) => String.eqb p ""
     | _ => true
     end.

(** [obj.peerId] once the test above has passed. *)
Definition hello_peerId (obj : json) : string :=
  match prop obj "peerId" with Some (JString p) => p | _ => "" end.

(** Platform functions the transports call and that are not part of this
    repository: [new TextDecoder().decode], [new TextEncoder().encode],
    [JSON.parse] ([None] when it throws), [JSON.stringify] of a hello
    object [{ t: "hello", peerId }], and [new URL(s)] ([None] when it throws,
    else the [hostname] and [port] of the URL). *)
Class Host := {
  TextDecoder_decode : list Z → string;
  TextEncoder_encode : string → list Z;
  JSON_parse : string → option json;
  JSON_stringify_hello : string → string;
  URL_parse : string → option (string * string);
}.

(** How a call ends: [return] or [throw new Error(msg)]. *)
Inductive completion :=
  | Returned
  | Threw (msg : string).

(** A promise. *)
Inductive promise_state :=
  | Pending
  | Fulfilled
  | Rejected (err : string).

(** ** The WebSocket transport *)

Module Ws.
Import Buffer WsCodec.

(** The argument of a [buildFrame] call whose result is handed to the socket;
    the bytes on the wire are [buildFrame opcode payload mask key] for the
    key the random source yields. *)
Record out_frame := OutFrame {
  o_opcode : Z;
  o_payload : list Z;
  o_mask : bool;
}.

(** Calls made on a [net.Socket]: [write(buildFrame(..))],
    [end(buildFrame(..))], [destroy()]. *)
Inductive sock_call :=
  | SockWrite (f : out_frame)
  | SockEnd (f : out_frame)
  | SockDestroy.

(** [class WsConnection]: its options, its accumulation buffer and the calls
    made so far on the socket it owns. The three handlers are those that
    [_wireWsConn] installs (see [Wire]). *)
Record WsConnection := Conn {
  _maskOutgoing : bool;
  _expectMasked : bool;
  c_maxPayloadBytes : Z;
  _buf : list Z;
  _socket : list sock_call;
}.

(** The variables captured by the closures of one [_wireWsConn] call. *)
Record Wire := MkWire {
  outbound : bool;
  uplinkHref : option string;
  remotePeerId : option string;
  closed : bool;
}.

Inductive mode := Server | Client.

(** The fields of [class WebSocketTransport]. Connections are handles into
    [conns] below, so that [===] on connection objects is equality of handles. *)
Record Transport := MkTransport {
  _localId : string;
  _mode : option mode;
  _url : option string;
  _expectedPeerId : option string;
  _maxPayloadBytes : Z;
  _started : bool;
  _peers : gmap string nat;
  _uplink : option nat;
  _uplinkPeerId : option string;
  _httpServer : bool;
}.

(** Everything the transport's code can reach: the transport object, the
    connection objects and their wiring, the promise [waitHello] of a
    client-mode [start()] with its two listeners ([None] when they are not
    registered), and the events emitted so far. *)
Record World := MkWorld {
  tr : Transport;
  conns : gmap nat WsConnection;
  wires : gmap nat Wire;
  waitHello : option promise_state;
  emitted : list event;
}.

Definition set_tr (f : Transport → Transport) (w : World) : World :=
  MkWorld (f (tr w)) (conns w) (wires w) (waitHello w) (emitted w).
Definition set_conns (f : gmap nat WsConnection → gmap nat WsConnection)
    (w : World) : World :=
  MkWorld (tr w) (f (conns w)) (wires w) (waitHello w) (emitted w).
Definition set_wires (f : gmap nat Wire → gmap nat Wire) (w : World) : World :=
  MkWorld (tr w) (conns w) (f (wires w)) (waitHello w) (emitted w).
Definition set_waitHello (p : option promise_state) (w : World) : World :=
  MkWorld (tr w) (conns w) (wires w) p (emitted w).
Definition set_emitted (f : list event → list event) (w : World) : World :=
  MkWorld (tr w) (conns w) (wires w) (waitHello w) (f (emitted w)).

Definition set_started (b : bool) (t : Transport) : Transport :=
  MkTransport (_localId t) (_mode t) (_url t) (_expectedPeerId t)
    (_maxPayloadBytes t) b (_peers t) (_uplink t) (_uplinkPeerId t)
    (_httpServer t).
Definition set_peers (f : gmap string nat → gmap string nat) (t : Transport)
    : Transport :=
  MkTransport (_localId t) (_mode t) (_url t) (_expectedPeerId t)
    (_maxPayloadBytes t) (_started t) (f (_peers t)) (_uplink t)
    (_uplinkPeerId t) (_httpServer t).
Definition set_uplink (u : option nat) (t : Transport) : Transport :=
  MkTransport (_localId t) (_mode t) (_url t) (_expectedPeerId t)
    (_maxPayloadBytes t) (_started t) (_peers t) u (_uplinkPeerId t)
    (_httpServer t).
Definition set_uplinkPeerId (p : option string) (t : Transport) : Transport :=
  MkTransport (_localId t) (_mode t) (_url t) (_expectedPeerId t)
    (_maxPayloadBytes t) (_started t) (_peers t) (_uplink t) p (_httpServer t).
Definition set_httpServer (b : bool) (t : Transport) : Transport :=
  MkTransport (_localId t) (_mode t) (_url t) (_expectedPeerId t)
    (_maxPayloadBytes t) (_started t) (_peers t) (_uplink t) (_uplinkPeerId t) b.

Definition set_buf (b : list Z) (c : WsConnection) : WsConnection :=
  Conn (_maskOutgoing c) (_expectMasked c) (c_maxPayloadBytes c) b (_socket c).
Definition call_socket (k : sock_call) (c : WsConnection) : WsConnection :=
  Conn (_maskOutgoing c) (_expectMasked c) (c_maxPayloadBytes c) (_buf c)
    (_socket c ++ [k]).

Definition set_remotePeerId (p : option string) (x : Wire) : Wire :=
  MkWire (outbound x) (uplinkHref x) p (closed x).
Definition set_closed (b : bool) (x : Wire) : Wire :=
  MkWire (outbound x) (uplinkHref x) (remotePeerId x) b.

(** Modelled from the spec: the base class [Transport]
    (core/network/interfaces/Transport.js) with [emit], [on] and [off] is not
    under src/. [emit] delivers the event to the subscribers, recorded in
    [emitted], among them the two listeners [_startClient] registers while
    it waits for the hello:
    [onConn] (first outbound [connection]: store the peer id, resolve) and
    [onErr] (first [error]: reject); both unregister themselves. *)
Definition emit (e : event) (w : World) : World :=
  let w := set_emitted (λ l, l ++ [e]) w in
  match waitHello w, e with
  | Some Pending, EvConnection peerId true _ =>
      set_waitHello (Some Fulfilled) (set_tr (set_uplinkPeerId (Some peerId)) w)
  | Some Pending, EvError err => set_waitHello (Some (Rejected err)) w
  | _, _ => w
  end.

(** A call on the socket of connection [c]. *)
Definition socket_call (c : nat) (k : sock_call) (w : World) : World :=
  set_conns (alter (call_socket k) c) w.

Definition mask_of (c : nat) (w : World) : bool :=
  from_option _maskOutgoing false (conns w !! c).

Section host.
Context `{Host}.

Definition sendText (c : nat) (text : string) (w : World) : World :=
  socket_call c (SockWrite (OutFrame 1 (TextEncoder_encode text) (mask_of c w))) w.

Definition sendBinary (c : nat) (bytes : list Z) (w : World) : World :=
  socket_call c (SockWrite (OutFrame 2 bytes (mask_of c w))) w.

(** [close()]: [socket.end(buildFrame({opcode: 8, payload: empty, mask}))]
    (the [catch] branch, [socket.destroy()] when [end] throws, is left out). *)
Definition close (c : nat) (w : World) : World :=
  socket_call c (SockEnd (OutFrame 8 [] (mask_of c w))) w.

(** The [cleanup] closure of [_wireWsConn], installed as the connection's
    close handler (run on the socket's [close] and [end] events). *)
Definition cleanup (c : nat) (w : World) : World :=
  match wires w !! c with
  | None => w
  | Some x =>
    if closed x then w else
    let w := set_wires (<[c := set_closed true x]>) w in
    let w :=
      match remotePeerId x with
      | Some p =>
        if truthy_str (Some p) && bool_decide (_peers (tr w) !! p = Some c)
        then emit (EvDisconnection p (Some (outbound x)))
               (set_tr (set_peers (delete p)) w)
        else w
      | None => w
      end in
    if outbound x && bool_decide (_uplink (tr w) = Some c)
    then set_tr (λ t, set_uplinkPeerId None (set_uplink None t)) w
    else w
  end.

(** The error handler of [_wireWsConn] (run on the socket's [error] event). *)
Definition onError (c : nat) (err : string) (w : World) : World :=
  match wires w !! c with
  | None => w
  | Some _ => emit (EvError err) w
  end.

(** The message handler of [_wireWsConn]. [text] is [None] ([null]) for a
    binary message; the hello branch parses [text] only for opcode 1, where it
    is a string ([JSON.parse(null)] would parse the text "null"). *)
Definition onMessage (c : nat) (opcode : Z) (text : option string)
    (bytes : list Z) (w : World) : World :=
  match wires w !! c with
  | None => w
  | Some x =>
    if negb (truthy_str (remotePeerId x)) then
      if negb (opcode =? 1) then
        close c (emit (EvError "WebSocketTransport expected hello text frame") w)
      else
        match JSON_parse (default "null" text) with
        | None =>
          close c (emit (EvError "WebSocketTransport invalid hello JSON") w)
        | Some obj =>
          if invalid_hello_fields obj then
            close c (emit (EvError "WebSocketTransport invalid hello fields") w)
          else
            let p := hello_peerId obj in
            let w := set_wires (<[c := set_remotePeerId (Some p) x]>) w in
            if outbound x && truthy_str (_expectedPeerId (tr w))
               && negb (bool_decide (Some p = _expectedPeerId (tr w)))
            then close c (emit (EvError "WebSocketTransport peerId mismatch") w)
            else
              emit (EvConnection p (outbound x) (uplinkHref x))
                (set_tr (set_peers (<[p := c]>)) w)
        end
    else if negb (opcode =? 2) then w
    else emit (EvFrame (default "" (remotePeerId x)) bytes) w
  end.

(** [_wireWsConn(conn, { outbound, uplinkHref })]: install the three handlers
    with fresh closure variables, then send the local hello. *)
Definition _wireWsConn (c : nat) (out : bool) (href : option string)
    (w : World) : World :=
  let w := set_wires (<[c := MkWire out href None false]>) w in
  sendText c (JSON_stringify_hello (_localId (tr w))) w.

(** [WsConnection._onData(chunk)]. The loop body consumes at least two bytes
    of [_buf] per iteration, so [fuel] = the buffer length is never used up
    (see [onData_loop_fuel]). *)
Fixpoint onData_loop (fuel : nat) (c : nat) (w : World) : World * completion :=
  match conns w !! c with
  | None => (w, Returned)
  | Some conn =>
    match tryParseFrame (_buf conn) (_expectMasked conn) (c_maxPayloadBytes conn) with
    | NeedMore => (w, Returned)
    | Throw msg => (w, Threw msg)
    | Parsed opcode payload rest =>
      let w := set_conns (<[c := set_buf rest conn]>) w in
      if opcode =? 8 then (close c w, Returned)
      else
        match fuel with
        | O => (w, Returned)
        | S fuel =>
          if opcode =? 9 then
            onData_loop fuel c
              (socket_call c (SockWrite (OutFrame 10 payload (_maskOutgoing conn))) w)
          else if opcode =? 10 then onData_loop fuel c w
          else if opcode =? 1 then
            onData_loop fuel c
              (onMessage c opcode (Some (TextDecoder_decode payload)) payload w)
          else if opcode =? 2 then
            onData_loop fuel c (onMessage c opcode None payload w)
          else (w, Threw "Unsupported WS opcode")
        end
    end
  end.

Definition _onData (c : nat) (chunk : list Z) (w : World) : World * completion :=
  match conns w !! c with
  | None => (w, Returned)
  | Some conn =>
    let buf := _buf conn ++ chunk in
    onData_loop (length buf) c (set_conns (<[c := set_buf buf conn]>) w)
  end.

(** [stop()], up to its wait for the listening server to close. The loop
    over [_peers.values()] calls [close()] on every registered connection;
    calls on different sockets do not interfere, so the order is immaterial. *)
Definition stop (w : World) : World :=
  let w := set_tr (set_started false) w in
  let w := map_fold (λ _ c w, close c w) w (_peers (tr w)) in
  let w := set_tr (λ t, set_uplinkPeerId None (set_peers (λ _, ∅) t)) w in
  let w :=
    match _uplink (tr w) with
    | Some u => set_tr (set_uplink None) (close u w)
    | None => w
    end in
  set_tr (set_httpServer false) w.

(** The argument [bytes] of [send]: a [Uint8Array] or anything else. *)
Inductive send_arg :=
  | Uint8Array (bytes : list Z)
  | NotUint8Array.

(** [send(to, bytes)]; [to] is [String(to)]. [send] is an [async] function
    without [await]: [Threw] is the rejection of the promise it returns. *)
Definition send (to : string) (arg : send_arg) (w : World) : World * completion :=
  match arg with
  | NotUint8Array => (w, Threw "WebSocketTransport.send requires Uint8Array bytes")
  | Uint8Array bytes =>
    if negb (_started (tr w)) then (w, Threw "WebSocketTransport not started")
    else
      let target := to in
      match _mode (tr w) with
      | Some Server =>
        match _peers (tr w) !! target with
        | None => (w, Threw "Unknown peerId")
        | Some conn => (sendBinary conn bytes w, Returned)
        end
      | _ =>
        match _uplink (tr w) with
        | None => (w, Threw "Not connected")
        | Some u =>
          if negb (bool_decide (Some target = _url (tr w)))
             && negb (bool_decide (Some target = _uplinkPeerId (tr w)))
          then (w, Threw "Client WebSocketTransport can only send to its connected relay")
          else (sendBinary u bytes w, Returned)
        end
      end
  end.

(** The [upgrade] handler of [_startServer] once the HTTP response is
    written: a new connection that expects masked frames, wired inbound. *)
Definition accept (c : nat) (w : World) : World :=
  let w := set_conns (<[c := Conn false true (_maxPayloadBytes (tr w)) [] []]>) w in
  _wireWsConn c false None w.

(** [_startClient()] from the end of the wire handshake up to
    [await waitHello]: the connection object, [_uplink], the two listeners of
    [waitHello], the wiring. *)
Definition _startClient_connected (c : nat) (href : string) (w : World) : World :=
  let w := set_conns (<[c := Conn true false (_maxPayloadBytes (tr w)) [] []]>) w in
  let w := set_tr (set_uplink (Some c)) w in
  let w := set_waitHello (Some Pending) w in
  _wireWsConn c true (Some href) w.

(** The rest of a client-mode [start()] once [waitHello] has settled:
    [_started = true] and return, or [await this.stop(); throw err].
    [None] while [waitHello] is pending. *)
Definition start_resume (w : World) : World * option completion :=
  match waitHello w with
  | Some Fulfilled =>
      (set_waitHello None (set_tr (set_started true) w), Some Returned)
  | Some (Rejected err) => (stop (set_waitHello None w), Some (Threw err))
  | _ => (w, None)
  end.

End host.
End Ws.

Section ws_faults.
Import WsCodec Ws.

(** A decoding fault of the frame at the head of the accumulation buffer:
    [tryParseFrame] throws, or the opcode is none of those [_onData] handles. *)
Definition decode_fault (conn : WsConnection) (buf : list Z) : option string :=
  match tryParseFrame buf (_expectMasked conn) (c_maxPayloadBytes conn) with
  | Throw msg => Some msg
  | Parsed opcode _ _ =>
      if bool_decide (opcode ∈ [1; 2; 8; 9; 10]) then None
      else Some "Unsupported WS opcode"
  | NeedMore => None
  end.

(** The fields of a connection that the loop reads. *)
Definition same_codec (conn conn' : WsConnection) : Prop :=
  _buf conn' = _buf conn ∧ _expectMasked conn' = _expectMasked conn
  ∧ c_maxPayloadBytes conn' = c_maxPayloadBytes conn
  ∧ _maskOutgoing conn' = _maskOutgoing conn.


End ws_faults.

(** ** The TCP transport *)

Module Tcp.
Import Buffer.

(** [encodeFrame(payloadBytes)]: a buffer of [4 + len] bytes, the length
    prefix and as much of the payload as fits. *)
Definition encodeFrame (payloadBytes : list Z) : list Z :=
  let len := toUint32 (Buffer.len payloadBytes) in
  writeUInt32BE len ++ take (Z.to_nat len) payloadBytes.

(** *** [parseTcpTarget] *)

Definition is_digit (a : Ascii.ascii) : bool :=
  let n := Ascii.nat_of_ascii a in (48 <=? n)%nat && (n <=? 57)%nat.

Fixpoint all_digits (s : string) : bool :=
  match s with
  | EmptyString => true
  | String a s => is_digit a && all_digits s
  end.

(** [Number(digits)], exact as long as the value is a safe integer. *)
Fixpoint digits_value (acc : Z) (s : string) : Z :=
  match s with
  | EmptyString => acc
  | String a s => digits_value (acc * 10 + (Z.of_nat (Ascii.nat_of_ascii a) - 48)) s
  end.

(** The text before and after the first colon. *)
Fixpoint split_colon (s : string) : option (string * string) :=
  match s with
  | EmptyString => None
  | String a s =>
    if Ascii.eqb a (Ascii.ascii_of_nat 58) then Some (EmptyString, s)
    else match split_colon s with
         | Some (h, p) => Some (String a h, p)
         | None => None
         end
  end.

(** [/^[^:]+:\d+$/.test(s)] together with [s.split(":")]. *)
Definition match_host_port (s : string) : option (string * string) :=
  match split_colon s with
  | Some (h, p) =>
    if negb (String.eqb h "") && negb (String.eqb p "") && all_digits p
    then Some (h, p) else None
  | None => None
  end.

(** The key of the dial ledger, [`tcp://${host}:${port}`]. *)
Definition dial_key (host : string) (port : Z) : string :=
  "tcp://" +:+ host +:+ ":" +:+ pretty port.

Inductive target :=
  | TargetNull
  | TargetThrows (msg : string)
  | Target (host : string) (port : Z).

Section host.
Context `{Host}.

Definition parseTcpTarget (to : string) : target :=
  if String.eqb to "" then TargetNull else
  let s := to in
  if String.prefix "tcp://" s then
    match URL_parse s with
    | None => TargetThrows "Invalid URL"
    | Some (host, port) =>
      let port := if String.eqb port "" then 0 else digits_value 0 port in
      if String.eqb host "" || (port <=? 0)
      then TargetThrows "Invalid tcp:// target"
      else Target host port
    end
  else
    match match_host_port s with
    | Some (host, portStr) =>
      let port := digits_value 0 portStr in
      if String.eqb host "" || (port <=? 0)
      then TargetThrows "Invalid host:port target"
      else Target host port
    | None => TargetNull
    end.

(** *** State *)

(** Calls made on a [net.Socket]. *)
Inductive sock_call :=
  | SockWrite (bytes : list Z)
  | SockDestroy.

(** The variables captured by the closures of one [_handleSocket] call. *)
Record Handler := MkHandler {
  outbound : bool;
  buf : list Z;
  remotePeerId : option string;
  closed : bool;
}.

(** One [_dial] attempt: the promise stored in the ledger, with the variables
    of its executor. [d_done] is the executor's [done] flag (its three
    listeners are registered exactly while it is false); [d_promise] is the
    promise the executor settles; [d_finally] says whether the [finally]
    callback has run; [d_waiters] are the payloads of the [send] calls
    suspended at [await this._dial(..)]. The attempt is identified by its
    socket. *)
Record Dial := MkDial {
  d_socket : nat;
  d_key : string;
  d_expectedPeerId : option string;
  d_done : bool;
  d_promise : promise_state;
  d_finally : bool;
  d_waiters : list (list Z);
}.

(** The fields of [class TcpTransport]; sockets and ledger promises are
    socket handles. *)
Record Transport := MkTransport {
  _localId : string;
  _listenHost : option string;
  _listenPort : option Z;
  _maxFrameBytes : Z;
  _started : bool;
  _server : bool;
  _peers : gmap string nat;
  _dialing : gmap string nat;
}.

(** Everything the transport's code can reach: the transport object, the
    sockets created so far with the calls made on them, the closures of
    [_handleSocket] and of [_dial] (in creation order), the events emitted so
    far, and the handle the next socket will get. *)
Record World := MkWorld {
  tr : Transport;
  sockets : gmap nat (list sock_call);
  handlers : gmap nat Handler;
  dials : list Dial;
  emitted : list event;
  next : nat;
}.

Definition set_tr (f : Transport → Transport) (w : World) : World :=
  MkWorld (f (tr w)) (sockets w) (handlers w) (dials w) (emitted w) (next w).
Definition set_sockets
    (f : gmap nat (list sock_call) → gmap nat (list sock_call)) (w : World)
    : World :=
  MkWorld (tr w) (f (sockets w)) (handlers w) (dials w) (emitted w) (next w).
Definition set_handlers (f : gmap nat Handler → gmap nat Handler) (w : World)
    : World :=
  MkWorld (tr w) (sockets w) (f (handlers w)) (dials w) (emitted w) (next w).
Definition set_dials (f : list Dial → list Dial) (w : World) : World :=
  MkWorld (tr w) (sockets w) (handlers w) (f (dials w)) (emitted w) (next w).
Definition set_emitted (f : list event → list event) (w : World) : World :=
  MkWorld (tr w) (sockets w) (handlers w) (dials w) (f (emitted w)) (next w).
Definition set_next (n : nat) (w : World) : World :=
  MkWorld (tr w) (sockets w) (handlers w) (dials w) (emitted w) n.

Definition set_started (b : bool) (t : Transport) : Transport :=
  MkTransport (_localId t) (_listenHost t) (_listenPort t) (_maxFrameBytes t)
    b (_server t) (_peers t) (_dialing t).
Definition set_server (b : bool) (t : Transport) : Transport :=
  MkTransport (_localId t) (_listenHost t) (_listenPort t) (_maxFrameBytes t)
    (_started t) b (_peers t) (_dialing t).
Definition set_peers (f : gmap string nat → gmap string nat) (t : Transport)
    : Transport :=
  MkTransport (_localId t) (_listenHost t) (_listenPort t) (_maxFrameBytes t)
    (_started t) (_server t) (f (_peers t)) (_dialing t).
Definition set_dialing (f : gmap string nat → gmap string nat) (t : Transport)
    : Transport :=
  MkTransport (_localId t) (_listenHost t) (_listenPort t) (_maxFrameBytes t)
    (_started t) (_server t) (_peers t) (f (_dialing t)).

Definition set_buf (b : list Z) (h : Handler) : Handler :=
  MkHandler (outbound h) b (remotePeerId h) (closed h).
Definition set_remotePeerId (p : option string) (h : Handler) : Handler :=
  MkHandler (outbound h) (buf h) p (closed h).
Definition set_closed (b : bool) (h : Handler) : Handler :=
  MkHandler (outbound h) (buf h) (remotePeerId h) b.

Definition settle (p : promise_state) (d : Dial) : Dial :=
  MkDial (d_socket d) (d_key d) (d_expectedPeerId d) true p (d_finally d)
    (d_waiters d).
Definition add_waiter (bytes : list Z) (d : Dial) : Dial :=
  MkDial (d_socket d) (d_key d) (d_expectedPeerId d) (d_done d) (d_promise d)
    (d_finally d) (d_waiters d ++ [bytes]).
Definition finalize (d : Dial) : Dial :=
  MkDial (d_socket d) (d_key d) (d_expectedPeerId d) (d_done d) (d_promise d)
    true [].

Definition socket_call (s : nat) (k : sock_call) (w : World) : World :=
  set_sockets (alter (λ l, l ++ [k]) s) w.

(** [socket.destroyed] *)
Definition is_destroy (k : sock_call) : bool :=
  match k with SockDestroy => true | SockWrite _ => false end.

Definition destroyed (s : nat) (w : World) : bool :=
  existsb is_destroy (default [] (sockets w !! s)).

(** *** Events *)

(** The [onConn] listener of the attempt [d], run on a [connection] event
    for [peerId]. *)
Definition onConn (peerId : string) (d : Dial) (w : World) : World * Dial :=
  if d_done d then (w, d) else
  if negb (bool_decide (_peers (tr w) !! peerId = Some (d_socket d))) then (w, d) else
  if truthy_str (d_expectedPeerId d)
     && negb (bool_decide (Some peerId = d_expectedPeerId d))
  then (socket_call (d_socket d) SockDestroy w,
        settle (Rejected "TcpTransport peerId mismatch") d)
  else (w, settle Fulfilled d).

Fixpoint run_onConn (peerId : string) (ds : list Dial) (w : World)
    : World * list Dial :=
  match ds with
  | [] => (w, [])
  | d :: ds =>
    let '(w, d) := onConn peerId d w in
    let '(w, ds) := run_onConn peerId ds w in
    (w, d :: ds)
  end.

(** Modelled from the spec: the base class [Transport]
    (core/network/interfaces/Transport.js) with [emit], [on] and [off] is not
    under src/. [emit] delivers the event to the subscribers, recorded in
    [emitted], among them the [onConn] listeners of the attempts in flight,
    in the order they were registered. *)
Definition emit (e : event) (w : World) : World :=
  let w := set_emitted (λ l, l ++ [e]) w in
  match e with
  | EvConnection peerId _ _ =>
    let '(w, ds) := run_onConn peerId (dials w) w in
    set_dials (λ _, ds) w
  | _ => w
  end.

(** [_writeDataFrame(socket, bytes)] (its [catch] branch, an [error] event
    when [write] throws, is left out) and [_writeHello(socket)]. *)
Definition _writeDataFrame (s : nat) (bytes : list Z) (w : World) : World :=
  socket_call s (SockWrite (encodeFrame bytes)) w.

Definition _writeHello (s : nat) (w : World) : World :=
  socket_call s
    (SockWrite (encodeFrame (TextEncoder_encode (JSON_stringify_hello (_localId (tr w))))))
    w.

(** [_handleSocket(socket, { outbound })]: send the local hello and install
    the listeners with fresh closure variables. *)
Definition _handleSocket (s : nat) (out : bool) (w : World) : World :=
  let w := _writeHello s w in
  set_handlers (<[s := MkHandler out [] None false]>) w.

(** The [cleanup] closure of [_handleSocket] (the socket's [close] and [end]
    listener). *)
Definition cleanup (s : nat) (w : World) : World :=
  match handlers w !! s with
  | None => w
  | Some h =>
    if closed h then w else
    let w := set_handlers (<[s := set_closed true h]>) w in
    match remotePeerId h with
    | Some p =>
      if truthy_str (Some p) && bool_decide (_peers (tr w) !! p = Some s)
      then emit (EvDisconnection p None) (set_tr (set_peers (delete p)) w)
      else w
    | None => w
    end
  end.

(** The [data] listener of [_handleSocket]. Every iteration that goes on
    consumes at least four bytes of [buf], so [fuel] = the buffer length is
    never used up. *)
Fixpoint onData_loop (fuel : nat) (s : nat) (w : World) : World :=
  match handlers w !! s with
  | None => w
  | Some h =>
    if Buffer.len (buf h) <? 4 then w else
    let len := readUInt32BE (buf h) 0 in
    if len >? _maxFrameBytes (tr w) then
      socket_call s SockDestroy (emit (EvError "TcpTransport frame too large") w)
    else if Buffer.len (buf h) <? 4 + len then w
    else
      let payload := subarray (buf h) 4 (4 + len) in
      let h := set_buf (subarray_from (buf h) (4 + len)) h in
      let w := set_handlers (<[s := h]>) w in
      match fuel with
      | O => w
      | S fuel =>
        if negb (truthy_str (remotePeerId h)) then
          match JSON_parse (TextDecoder_decode payload) with
          | None =>
            socket_call s SockDestroy (emit (EvError "TcpTransport invalid hello") w)
          | Some obj =>
            if invalid_hello_fields obj then
              socket_call s SockDestroy
                (emit (EvError "TcpTransport invalid hello fields") w)
            else
              let p := hello_peerId obj in
              let w := set_handlers (<[s := set_remotePeerId (Some p) h]>) w in
              let w := set_tr (set_peers (<[p := s]>)) w in
              onData_loop fuel s (emit (EvConnection p (outbound h) None) w)
          end
        else
          onData_loop fuel s
            (emit (EvFrame (default "" (remotePeerId h)) payload) w)
      end
  end.

Definition onData (s : nat) (chunk : list Z) (w : World) : World :=
  match handlers w !! s with
  | None => w
  | Some h =>
    let b := buf h ++ chunk in
    onData_loop (length b) s (set_handlers (<[s := set_buf b h]>) w)
  end.

(** The [onErr] and [onClose] listeners of the attempt on socket [s]. *)
Definition dial_reject (s : nat) (err : string) (w : World) : World :=
  set_dials
    (fmap (λ d, if bool_decide (d_socket d = s) && negb (d_done d)
                then settle (Rejected err) d else d)) w.

(** The socket's [error] event: the attempt's [onErr], then the listener of
    [_handleSocket]. *)
Definition onError (s : nat) (err : string) (w : World) : World :=
  let w := dial_reject s err w in
  match handlers w !! s with
  | None => w
  | Some _ => emit (EvError err) w
  end.

(** The socket's [close] event: the attempt's [onClose], then [cleanup]. *)
Definition onClose (s : nat) (w : World) : World :=
  cleanup s (dial_reject s "TcpTransport connect closed" w).

(** *** Promise reactions *)

(** The reactions to a settled attempt: its [finally] callback
    ([_dialing.delete(key)]), then every suspended [send] resumes and writes
    its frame (when the attempt was rejected, the [send] is rejected instead). *)
Definition react (d : Dial) (w : World) : World * Dial :=
  match d_promise d with
  | Pending => (w, d)
  | _ =>
    if d_finally d then (w, d) else
    let w := set_tr (set_dialing (delete (d_key d))) w in
    let w :=
      match d_promise d with
      | Fulfilled => foldl (λ w bytes, _writeDataFrame (d_socket d) bytes w) w (d_waiters d)
      | _ => w
      end in
    (w, finalize d)
  end.

Fixpoint run_reactions (ds : list Dial) (w : World) : World * list Dial :=
  match ds with
  | [] => (w, [])
  | d :: ds =>
    let '(w, d) := react d w in
    let '(w, ds) := run_reactions ds w in
    (w, d :: ds)
  end.

(** The microtask checkpoint at the end of a callback. *)
Definition microtasks (w : World) : World :=
  let '(w, ds) := run_reactions (dials w) w in
  set_dials (λ _, ds) w.

(** *** The public methods *)

(** [start()] (binding the listener is assumed to succeed). *)
Definition start (w : World) : World :=
  if _started (tr w) then w else
  let w :=
    if bool_decide (_listenPort (tr w) ≠ None ∨ _listenHost (tr w) ≠ None)
    then set_tr (set_server true) w else w in
  set_tr (set_started true) w.

(** [stop()], up to its wait for the listening server to close. The loop
    over [_peers.values()] destroys every registered socket; calls on
    different sockets do not interfere, so the order is immaterial. *)
Definition stop (w : World) : World :=
  if negb (_started (tr w)) then w else
  let w := set_tr (set_started false) w in
  let w := map_fold (λ _ s w, socket_call s SockDestroy w) w (_peers (tr w)) in
  let w := set_tr (λ t, set_dialing (λ _, ∅) (set_peers (λ _, ∅) t)) w in
  set_tr (set_server false) w.

(** [_dial(host, port, { expectedPeerId })] up to its [await]; [bytes] is the
    payload of the [send] that will resume when the attempt settles. The
    result names the attempt awaited. *)
Definition _dial (host : string) (port : Z) (expectedPeerId : option string)
    (bytes : list Z) (w : World) : World * nat :=
  let key := dial_key host port in
  match _dialing (tr w) !! key with
  | Some s =>
    (set_dials (fmap (λ d, if bool_decide (d_socket d = s) then add_waiter bytes d else d)) w, s)
  | None =>
    let s := next w in
    let w := set_next (S s) (set_sockets (<[s := []]>) w) in
    let w := set_dials (λ ds, ds ++ [MkDial s key expectedPeerId false Pending false [bytes]]) w in
    (set_tr (set_dialing (<[key := s]>)) w, s)
  end.

(** How a [send] call leaves its synchronous part. *)
Inductive send_result :=
  | SendReturned
  | SendThrew (msg : string)
  | SendAwaits (attempt : nat).

(** The argument [bytes] of [send]: a [Uint8Array] or anything else. *)
Inductive send_arg :=
  | Uint8Array (bytes : list Z)
  | NotUint8Array.

Definition send (to : string) (arg : send_arg) (expectedPeerId : option string)
    (w : World) : World * send_result :=
  match arg with
  | NotUint8Array => (w, SendThrew "TcpTransport.send requires Uint8Array bytes")
  | Uint8Array bytes =>
    if negb (_started (tr w)) then (w, SendThrew "TcpTransport not started") else
    let peerId := to in
    match _peers (tr w) !! peerId with
    | Some existing => (_writeDataFrame existing bytes w, SendReturned)
    | None =>
      match parseTcpTarget to with
      | TargetThrows msg => (w, SendThrew msg)
      | TargetNull =>
        (w, SendThrew "TcpTransport.send unknown target (expected peerId or tcp://host:port)")
      | Target host port =>
        let '(w, s) := _dial host port expectedPeerId bytes w in
        (w, SendAwaits s)
      end
    end
  end.

(** *** Runs *)

(** What can happen to a transport: a call of a public method, the server's
    connection callback, a dialled socket's connect callback, and the events
    of a socket. *)
Inductive input :=
  | Start
  | Stop
  | Send (to : string) (bytes : list Z) (expectedPeerId : option string)
  | Accept
  | Connected (s : nat)
  | Data (s : nat) (chunk : list Z)
  | End (s : nat)
  | Close (s : nat)
  | Error (s : nat) (err : string).

(** One callback. A destroyed socket delivers no [data] and does not
    connect; the server accepts only while it listens. *)
Definition handle (i : input) (w : World) : World :=
  match i with
  | Start => start w
  | Stop => stop w
  | Send to bytes expected => (send to (Uint8Array bytes) expected w).1
  | Accept =>
    if _server (tr w) then
      let s := next w in
      _handleSocket s false (set_next (S s) (set_sockets (<[s := []]>) w))
    else w
  | Connected s =>
    if bool_decide (s ∈ d_socket <$> dials w) && negb (destroyed s w)
       && bool_decide (handlers w !! s = None)
    then _handleSocket s true w else w
  | Data s chunk => if destroyed s w then w else onData s chunk w
  | End s => cleanup s w
  | Close s => onClose s w
  | Error s err => onError s err w
  end.

(** A callback followed by the microtask checkpoint. *)
Definition step (w : World) (i : input) : World := microtasks (handle i w).

Definition run (w : World) (inputs : list input) : World := foldl step w inputs.

End host.
End Tcp.

(** ** The dial ledger and the attempts in flight *)

Section dial_invariant.
Import Tcp.

(** The attempt [d] is in flight: its [finally] callback has not run. *)
Definition in_flight (d : Dial) : Prop := d_finally d = false.

(** What holds of ledger and attempts between callbacks: attempts have
    distinct sockets, created before [next]; the ledger maps a key to a socket
    exactly when an attempt for that key on that socket is in flight; and an
    attempt is in flight exactly while its promise is pending. *)
Definition dial_invariant (w : World) : Prop :=
  NoDup (d_socket <$> dials w)
  ∧ (∀ d, d ∈ dials w → (d_socket d < next w)%nat)
  ∧ (∀ k s, _dialing (tr w) !! k = Some s ↔
       ∃ d, d ∈ dials w ∧ d_socket d = s ∧ d_key d = k ∧ in_flight d)
  ∧ (∀ d, d ∈ dials w → d_promise d = Pending ↔ in_flight d).

(** How a callback other than the creation of an attempt may change an
    attempt: socket, key and [finally] flag stay, and a settled promise stays
    settled. *)
Definition evolves (d d' : Dial) : Prop :=
  d_socket d' = d_socket d ∧ d_key d' = d_key d ∧ d_finally d' = d_finally d
  ∧ (d_promise d ≠ Pending → d_promise d' ≠ Pending).

(** A callback that creates no attempt: the attempts evolve, the ledger is
    untouched, no socket handle is given back. *)
Definition quiet (w w' : World) : Prop :=
  Forall2 evolves (dials w) (dials w')
  ∧ _dialing (tr w') = _dialing (tr w)
  ∧ (next w ≤ next w')%nat.

(** The pieces of [dial_invariant], as the proofs handle them. *)
Definition ledger_ok (L : gmap string nat) (ds : list Dial) : Prop :=
  ∀ k s, L !! k = Some s ↔
    ∃ d, d ∈ ds ∧ d_socket d = s ∧ d_key d = k ∧ d_finally d = false.

Definition settled_if_final (ds : list Dial) : Prop :=
  ∀ d, d ∈ ds → d_finally d = true → d_promise d ≠ Pending.

Definition pending_if_not_final (ds : list Dial) : Prop :=
  ∀ d, d ∈ ds → d_finally d = false → d_promise d = Pending.

Definition ledger_inv (w : World) : Prop :=
  NoDup (d_socket <$> dials w)
  ∧ (∀ d, d ∈ dials w → (d_socket d < next w)%nat)
  ∧ ledger_ok (_dialing (tr w)) (dials w).

(** A run in which [stop()] is never called while the ledger holds an
    attempt. *)
Fixpoint no_stop_in_flight `{Host} (w : World) (inputs : list input) : Prop :=
  match inputs with
  | [] => True
  | i :: inputs =>
    (i = Stop → _dialing (tr w) = ∅) ∧ no_stop_in_flight (step w i) inputs
  end.

(** The head of the buffer announces a unit longer than the ceiling. *)
Definition oversized (b : list Z) (max : Z) : Prop :=
  4 ≤ Buffer.len b ∧ Buffer.readUInt32BE b 0 > max.

End dial_invariant.

(** ** A host and two transports for the examples *)

Section examples.
Import Ws.

(** ASCII text as bytes and back; on ASCII input this is what the platform's
    UTF-8 encoder and decoder do. *)
Definition ascii_bytes (s : string) : list Z :=
  (λ a, Z.of_nat (Ascii.nat_of_ascii a)) <$> String.list_ascii_of_string s.

Definition ascii_text (b : list Z) : string :=
  String.string_of_list_ascii ((λ z, Ascii.ascii_of_nat (Z.to_nat z)) <$> b).

Definition dquote : string := String (Ascii.ascii_of_nat 34) EmptyString.

(** [JSON.stringify({ t: "hello", peerId })] for a peer id that needs no
    escaping. *)
Definition hello_text (peerId : string) : string :=
  "{" +:+ dquote +:+ "t" +:+ dquote +:+ ":" +:+ dquote +:+ "hello" +:+ dquote
  +:+ "," +:+ dquote +:+ "peerId" +:+ dquote +:+ ":" +:+ dquote +:+ peerId
  +:+ dquote +:+ "}".

Definition hello_object (peerId : string) : json :=
  JObject [("t", JString "hello"); ("peerId", JString peerId)].

Definition hello_prefix : string :=
  "{" +:+ dquote +:+ "t" +:+ dquote +:+ ":" +:+ dquote +:+ "hello" +:+ dquote
  +:+ "," +:+ dquote +:+ "peerId" +:+ dquote +:+ ":" +:+ dquote.

Definition hello_suffix : string := dquote +:+ "}".

(** A character that stands for itself inside a JSON string literal. *)
Definition plain_char (a : Ascii.ascii) : bool :=
  let n := Ascii.nat_of_ascii a in
  (32 <=? n)%nat && (n <? 127)%nat && negb (n =? 34)%nat && negb (n =? 92)%nat.

(** A [JSON.parse] for the texts the examples use: on a text of the shape
    [hello_text p] with [p] made of plain characters it returns the hello
    object, as [JSON.parse] does; the only other text of the examples, "x",
    is no JSON and makes [JSON.parse] throw. *)
Definition example_JSON_parse (s : string) : option json :=
  let n := String.length s in
  let np := String.length hello_prefix in
  let p := String.substring np (n - np - 2) s in
  if String.prefix hello_prefix s && (np + 2 <=? n)%nat
     && String.eqb (String.substring (n - 2) 2 s) hello_suffix
     && forallb plain_char (String.list_ascii_of_string p)
  then Some (hello_object p) else None.

(** A [new URL] for the one URL the examples use. *)
Definition example_URL_parse (s : string) : option (string * string) :=
  if String.eqb s "tcp://relay:9000" then Some ("relay", "9000") else None.

Definition example_host : Host := {|
  TextDecoder_decode := ascii_text;
  TextEncoder_encode := ascii_bytes;
  JSON_parse := example_JSON_parse;
  JSON_stringify_hello := hello_text;
  URL_parse := example_URL_parse;
|}.

(** A started server-mode transport with the default ceiling and no
    connection yet. *)
Definition ws_server (localId : string) : World :=
  MkWorld
    (MkTransport localId (Some Server) None None (1024 * 1024) true ∅ None None true)
    ∅ ∅ None [].

(** A client-mode transport after [init({ url, expectedPeerId })]. *)
Definition ws_client (localId url : string) (expected : option string) : World :=
  MkWorld
    (MkTransport localId (Some Client) (Some url) expected (1024 * 1024) false
       ∅ None None false)
    ∅ ∅ None [].

(** A TCP transport after [init({ localId, listenPort })]. *)
Definition tcp_node (localId : string) (listenPort : option Z) : Tcp.World :=
  Tcp.MkWorld
    (Tcp.MkTransport localId None listenPort (1024 * 1024) false false ∅ ∅)
    ∅ ∅ [] [] 0.

(** One chunk for a server-mode connection: a masked text frame "x", the
    masked hello of peer "B", a masked binary frame. *)
Definition bad_then_good_hello : list Z :=
  WsCodec.buildFrame 1 (ascii_bytes "x") true [1; 2; 3; 4]
  ++ WsCodec.buildFrame 1 (ascii_bytes (hello_text "B")) true [5; 6; 7; 8]
  ++ WsCodec.buildFrame 2 [1; 2; 3] true [9; 10; 11; 12].

End examples.


(** ** [stop()] as a whole *)

(** How a [stop()] call leaves its synchronous part: it returns, or it awaits
    the callback of [server.close()], which the platform runs once the server
    has stopped listening and every connection it accepted has ended. When
    the wait is over the transport's code does nothing more: [stop()]
    returns in the state the callbacks that ran meanwhile have left. *)
Inductive stop_result :=
  | StopReturned
  | StopAwaitsServerClose.

(** [WebSocketTransport.stop()]: the synchronous part [Ws.stop], then the
    wait if [_httpServer] was set. *)
Definition ws_stop_call (w : Ws.World) : Ws.World * stop_result :=
  (Ws.stop w,
   if Ws._httpServer (Ws.tr w) then StopAwaitsServerClose else StopReturned).

(** [TcpTransport.stop()]: nothing at all on a transport that is not
    started; else the synchronous part [Tcp.stop], then the wait if
    [_server] was set. *)
Definition tcp_stop_call (w : Tcp.World) : Tcp.World * stop_result :=
  if negb (Tcp._started (Tcp.tr w)) then (w, StopReturned)
  else (Tcp.stop w,
        if Tcp._server (Tcp.tr w) then StopAwaitsServerClose else StopReturned).
(** ** Streams of frames *)

Section ws_stream_defs.
Import Buffer WsCodec Ws.
Context `{Host}.


(** The payload of the hello message of a transport with the local id
    [localId], as [_wireWsConn] and [_writeHello] build it. *)
Definition hello_bytes (localId : string) : list Z :=
  TextEncoder_encode (JSON_stringify_hello localId).

(** The transport with the accumulation buffer of connection [c] replaced. *)
Definition with_buf (c : nat) (T : list Z) (w : World) : World :=
  set_conns (alter (set_buf T) c) w.

(** What one pass of the loop of [_onData] does with a frame that is not a
    close frame, once the frame is taken off the buffer: a ping is answered,
    a pong is dropped, a text or binary message goes to the message handler. *)
Definition on_frame (c : nat) (opcode : Z) (payload : list Z) (w : World) : World :=
  if opcode =? 9 then
    socket_call c (SockWrite (OutFrame 10 payload (mask_of c w))) w
  else if opcode =? 10 then w
  else if opcode =? 1 then
    onMessage c opcode (Some (TextDecoder_decode payload)) payload w
  else if opcode =? 2 then onMessage c opcode None payload w
  else w.

(** A frame to be sent: opcode, payload and the key drawn for it. *)
Record frame := Frame {
  f_opcode : Z;
  f_payload : list Z;
  f_key : list Z;
}.

(** A frame [buildFrame] takes and a parser with the ceiling [max] accepts. *)
Definition sendable (max : Z) (f : frame) : Prop :=
  Forall is_byte (f_payload f) ∧ Forall is_byte (f_key f)
  ∧ length (f_key f) = 4%nat
  ∧ len (f_payload f) ≤ max ∧ len (f_payload f) < 2 ^ 32.

(** The frames of a list, one behind the other, as they travel. *)
Definition frames_on_wire (mask : bool) (fs : list frame) : list Z :=
  concat ((λ f, buildFrame (f_opcode f) (f_payload f) mask (f_key f)) <$> fs).

(** The frames of a list handled one after the other. *)
Definition on_frames (c : nat) (fs : list frame) (w : World) : World :=
  foldl (λ w f, on_frame c (f_opcode f) (f_payload f) w) w fs.

(** The [frame] events an identified connection emits for a list of text and
    binary frames: one for each binary frame. *)
Definition frame_events (from : string) (fs : list frame) : list event :=
  omap (λ f, if f_opcode f =? 2 then Some (EvFrame from (f_payload f)) else None) fs.

End ws_stream_defs.

Section tcp_stream_defs.
Import Buffer Tcp.

(** The transport with the buffer of the data listener of socket [s]
    replaced. *)
Definition tcp_with_buf (s : nat) (T : list Z) (w : Tcp.World) : Tcp.World :=
  Tcp.set_handlers (alter (Tcp.set_buf T) s) w.

(** Length-prefixed units, one behind the other, as they travel. *)
Definition units_on_wire (Ps : list (list Z)) : list Z :=
  concat (encodeFrame <$> Ps).

(** A payload that [encodeFrame] takes whole and a listener with the
    ceiling [max] accepts. *)
Definition tcp_sendable (max : Z) (P : list Z) : Prop :=
  Forall is_byte P ∧ len P ≤ max ∧ len P < 2 ^ 32.

End tcp_stream_defs.

(** ** Generated ids and dial targets *)

Section ids.

(** The characters the two functions below name. *)
Definition char_plus : Ascii.ascii := Ascii.ascii_of_nat 43.
Definition char_minus : Ascii.ascii := Ascii.ascii_of_nat 45.
Definition char_slash : Ascii.ascii := Ascii.ascii_of_nat 47.
Definition char_colon : Ascii.ascii := Ascii.ascii_of_nat 58.
Definition char_equals : Ascii.ascii := Ascii.ascii_of_nat 61.
Definition char_underscore : Ascii.ascii := Ascii.ascii_of_nat 95.

(** [s.replaceAll(c, r)] for a pattern [c] of one character. *)
Fixpoint replaceAll (c : Ascii.ascii) (r : string) (s : string) : string :=
  match s with
  | EmptyString => EmptyString
  | String a s =>
    if Ascii.eqb a c then r +:+ replaceAll c r s else String a (replaceAll c r s)
  end.

(** [Buffer.from(bytes).toString("base64")] is the platform's. *)
Variable toString_base64 : list Z → string.

(** [base64Url(bytes)] of both transports. *)
Definition base64Url (bytes : list Z) : string :=
  replaceAll char_equals ""
    (replaceAll char_slash (String char_underscore EmptyString)
       (replaceAll char_plus (String char_minus EmptyString)
          (toString_base64 bytes))).

(** [randomId(prefix)]; the twelve bytes drawn from [crypto.randomBytes(12)]
    are the argument [randomBytes12]. *)
Definition randomId (prefix : string) (randomBytes12 : list Z) : string :=
  prefix +:+ ":" +:+ base64Url randomBytes12.

(** A text without a colon. *)
Fixpoint no_colon (s : string) : bool :=
  match s with
  | EmptyString => true
  | String a s => negb (Ascii.eqb a char_colon) && no_colon s
  end.

End ids.

(** ** The order of events *)

Section event_order_defs.
Import Tcp.

(** A [connection] event for the peer [p] is among the events [l]. *)
Definition announced (p : string) (l : list event) : Prop :=
  ∃ o u, EvConnection p o u ∈ l.

(** Every [frame] and every [disconnection] event comes after a
    [connection] event of the same peer. *)
Definition events_ordered (l : list event) : Prop :=
  ∀ pre e post, l = pre ++ e :: post →
    match e with
    | EvFrame p _ | EvDisconnection p _ => announced p pre
    | _ => True
    end.

(** What holds of registry, listeners and events between callbacks: the
    events are ordered; a socket whose listener has read a hello has had its
    peer announced; the registry maps a peer id, never the empty one, to
    a socket only if the listener of that socket has read the hello of that
    peer; and the sockets that have a listener or belong to a dial attempt
    were created before [next]. *)
Definition tcp_ordered (w : World) : Prop :=
  events_ordered (emitted w)
  ∧ (∀ s h p, handlers w !! s = Some h → remotePeerId h = Some p →
       announced p (emitted w))
  ∧ (∀ p s, _peers (tr w) !! p = Some s →
       p ≠ "" ∧ ∃ h, handlers w !! s = Some h ∧ remotePeerId h = Some p)
  ∧ (∀ s h, handlers w !! s = Some h → (s < next w)%nat)
  ∧ (∀ s, s ∈ d_socket <$> dials w → (s < next w)%nat).

End event_order_defs.

(** ** Transports for the examples of this part *)

Section stream_examples.
Import Ws.

(** A server-mode transport with one connection, which has completed the
    hello of peer "B". *)
Definition ws_identified : World :=
  MkWorld
    (MkTransport "A" (Some Server) None None (1024 * 1024) true
       {["B" := 0%nat]} None None true)
    {[0%nat := Conn false true (1024 * 1024) [] []]}
    {[0%nat := MkWire false None (Some "B") false]} None [].

(** A binary frame, a text frame and a ping. *)
Definition three_frames : list frame :=
  [Frame 2 [1; 2; 3] [9; 10; 11; 12]; Frame 1 [104; 105] [5; 6; 7; 8];
   Frame 9 [7] [1; 2; 3; 4]].

(** A started TCP transport with one accepted socket, which has completed
    the hello of peer "B". *)
Definition tcp_identified : Tcp.World :=
  Tcp.MkWorld
    (Tcp.MkTransport "A" None (Some 9000) (1024 * 1024) true true
       {["B" := 0%nat]} ∅)
    {[0%nat := []]} {[0%nat := Tcp.MkHandler false [] (Some "B") false]} [] [] 1.

End stream_examples.
(** ** Runs of the WebSocket transport *)

Section ws_run_defs.
Import Ws.
Context `{Host}.

(** [start()] on a server-mode transport: [_startServer()], then
    [_started = true] (binding the listener is assumed to succeed). *)
Definition ws_start_server (w : World) : World :=
  if _started (tr w) then w else
  match _mode (tr w) with
  | Some Server => set_tr (λ t, set_started true (set_httpServer true t)) w
  | _ => w
  end.

(** What the platform calls on a transport: the public methods and the
    callbacks the transport has registered. [WsUpgrade c] is an upgrade
    request that the handler of [_startServer] accepts, with [c] the new
    connection object, [WsUpgradeFailed] one on which that handler throws;
    [WsHandshake c href] is the end of the wire handshake of a client-mode
    [start()], [WsHello] the moment this [start()] resumes after
    [await waitHello]; [WsData], [WsClosed] (the socket's [close] and [end]
    events) and [WsError] are the events of the socket of connection [c]. *)
Inductive ws_input :=
  | WsStart
  | WsStop
  | WsSend (to : string) (arg : send_arg)
  | WsUpgrade (c : nat)
  | WsUpgradeFailed (err : string)
  | WsHandshake (c : nat) (href : string)
  | WsHello
  | WsData (c : nat) (chunk : list Z)
  | WsClosed (c : nat)
  | WsError (c : nat) (err : string).

(** One call. A connection object is new when it is made; the server takes
    upgrade requests only while it exists; an exception that escapes a
    callback is dropped here, and the run goes on. *)
Definition ws_handle (i : ws_input) (w : World) : World :=
  match i with
  | WsStart => ws_start_server w
  | WsStop => stop w
  | WsSend to arg => (send to arg w).1
  | WsUpgrade c =>
    if _httpServer (tr w) && bool_decide (conns w !! c = None)
    then accept c w else w
  | WsUpgradeFailed err =>
    if _httpServer (tr w) then emit (EvError err) w else w
  | WsHandshake c href =>
    match _mode (tr w) with
    | Some Client =>
      if bool_decide (conns w !! c = None)
      then _startClient_connected c href w else w
    | _ => w
    end
  | WsHello => (start_resume w).1
  | WsData c chunk => (_onData c chunk w).1
  | WsClosed c => cleanup c w
  | WsError c err => onError c err w
  end.

Definition ws_run (w : World) (inputs : list ws_input) : World :=
  foldl (λ w i, ws_handle i w) w inputs.

(** The runs of a transport that dials nobody. *)
Definition inbound_only (i : ws_input) : Prop :=
  match i with WsHandshake _ _ => False | _ => True end.

(** The [error] event of a hello that names another peer than expected. *)
Definition peerId_mismatch : event :=
  EvError "WebSocketTransport peerId mismatch".

(** Every [disconnection] event comes after a [connection] event of the same
    peer, and every [frame] event does so too or, unless [strict], comes
    after the [error] event of a mismatch. *)
Definition ws_events_ordered (strict : bool) (l : list event) : Prop :=
  ∀ pre e post, l = pre ++ e :: post →
    match e with
    | EvDisconnection p _ => announced p pre
    | EvFrame p _ => announced p pre ∨ (strict = false ∧ peerId_mismatch ∈ pre)
    | _ => True
    end.

(** What holds of registry, wiring and events between calls. *)
Definition ws_ordered (strict : bool) (w : World) : Prop :=
  ws_events_ordered strict (emitted w)
  ∧ (∀ p c, _peers (tr w) !! p = Some c → p ≠ "" ∧ announced p (emitted w))
  ∧ (∀ c x p, wires w !! c = Some x → remotePeerId x = Some p → p ≠ "" →
       announced p (emitted w) ∨ (strict = false ∧ peerId_mismatch ∈ emitted w))
  ∧ (strict = true → ∀ c x, wires w !! c = Some x → outbound x = false).

End ws_run_defs.
(** * Properties *)

Section codec_examples.
Import Buffer WsCodec.

Example buildFrame_small_unmasked :
  buildFrame 2 [1; 2; 3] false [] = [0x82; 3; 1; 2; 3].
Proof. reflexivity. Qed.

Example buildFrame_small_masked :
  buildFrame 2 [1; 2; 3] true [0xff; 0; 0xf0; 9] = [0x82; 0x83; 0xff; 0; 0xf0; 9; 0xfe; 2; 0xf3].
Proof. reflexivity. Qed.

Example tryParseFrame_small_masked :
  tryParseFrame [0x82; 0x83; 0xff; 0; 0xf0; 9; 0xfe; 2; 0xf3; 7] true 1048576
  = Parsed 2 [1; 2; 3] [7].
Proof. reflexivity. Qed.

Example tryParseFrame_partial :
  tryParseFrame [0x82; 0x83; 0xff; 0; 0xf0; 9; 0xfe] true 1048576 = NeedMore.
Proof. reflexivity. Qed.

End codec_examples.

(** ** Arithmetic of header bytes *)

(** Linear arithmetic with division and remainder by constants. *)
Ltac dlia := Z.div_mod_to_equations; lia.

Section bits.
Import Buffer.

Lemma land_255_mod (a : Z) : Z.land a 255 = a mod 256.
Proof. exact (Z.land_ones a 8 ltac:(lia)). Qed.

Lemma land_127_mod (a : Z) : Z.land a 127 = a mod 128.
Proof. exact (Z.land_ones a 7 ltac:(lia)). Qed.

Lemma land_3_mod (a : Z) : Z.land a 3 = a mod 4.
Proof. exact (Z.land_ones a 2 ltac:(lia)). Qed.

Lemma land_128_small (l : Z) : 0 ≤ l < 128 → Z.land l 128 = 0.
Proof.
  intros Hl. rewrite <- (Z.mod_small l 128) by lia.
  rewrite <- land_127_mod, <- Z.land_assoc.
  change (Z.land 127 128) with 0. apply Z.land_0_r.
Qed.

Lemma lor_128_small (l : Z) : 0 ≤ l < 128 → Z.lor 128 l = 128 + l.
Proof.
  intros Hl. rewrite <- Z.lxor_lor, <- Z.add_nocarry_lxor; try reflexivity;
    rewrite Z.land_comm; by apply land_128_small.
Qed.

Lemma is_byte_land_255 (b : Z) : is_byte b → Z.land b 255 = b.
Proof. intros Hb. rewrite land_255_mod. apply Z.mod_small, Hb. Qed.

Lemma readUInt16BE_writeUInt16BE (v : Z) (tail : list Z) :
  0 ≤ v < 65536 → readUInt16BE (writeUInt16BE v ++ tail) 0 = v.
Proof.
  intros Hv. unfold readUInt16BE, writeUInt16BE, get. simpl.
  rewrite !land_255_mod, Z.shiftr_div_pow2 by lia.
  change (2 ^ 8) with 256. dlia.
Qed.

Lemma readUInt32BE_writeUInt32BE (v : Z) (tail : list Z) :
  0 ≤ v < 2 ^ 32 → readUInt32BE (writeUInt32BE v ++ tail) 0 = v.
Proof.
  intros Hv. unfold readUInt32BE, writeUInt32BE, get. simpl.
  rewrite !land_255_mod, !Z.shiftr_div_pow2 by lia.
  change (2 ^ 8) with 256. change (2 ^ 16) with 65536.
  change (2 ^ 24) with 16777216. change (2 ^ 32) with 4294967296 in Hv. dlia.
Qed.

End bits.

Section codec.
Import Buffer WsCodec.

Lemma len_app (a b : list Z) : len (a ++ b) = len a + len b.
Proof. unfold len. rewrite length_app. lia. Qed.

Lemma len_cons (a : Z) (b : list Z) : len (a :: b) = 1 + len b.
Proof. unfold len. simpl length. lia. Qed.

Lemma len_nil : len [] = 0.
Proof. reflexivity. Qed.

Lemma len_nonneg (a : list Z) : 0 ≤ len a.
Proof. unfold len. lia. Qed.

Lemma subarray_app_mid (pre mid post : list Z) (s e : Z) :
  s = len pre → e = s + len mid → subarray (pre ++ mid ++ post) s e = mid.
Proof.
  intros -> ->. unfold subarray, len.
  rewrite Nat2Z.id, drop_app_length.
  replace (Z.to_nat _) with (length mid) by lia.
  by rewrite take_app_length.
Qed.

Lemma subarray_from_app (pre post : list Z) (s : Z) :
  s = len pre → subarray_from (pre ++ post) s = post.
Proof.
  intros ->. unfold subarray_from, len. by rewrite Nat2Z.id, drop_app_length.
Qed.

Ltac len_simpl := rewrite ?len_app, ?len_cons, ?len_nil in *.

(** The shape of a complete frame, as [tryParseFrame] reads it. *)
Lemma tryParseFrame_complete (b0 b1 : Z) (ext key body tail : list Z)
    (expectMasked : bool) (maxPayloadBytes l7 hi L : Z) :
  Z.land b0 0x80 ≠ 0 →
  negb (Z.land b1 0x80 =? 0) = expectMasked →
  Z.land b1 0x7f = l7 →
  ext_length l7 ext hi L → hi = 0 →
  L ≤ maxPayloadBytes →
  len key = (if expectMasked then 4 else 0) →
  len body = L →
  tryParseFrame ([b0; b1] ++ ext ++ key ++ body ++ tail) expectMasked maxPayloadBytes
  = Parsed (Z.land b0 0x0f)
      (if expectMasked then xorMask key body else body) tail.
Proof.
  intros Hfin Hmask Hl7 Hext Hhi HL Hkey Hbody.
  unfold tryParseFrame.
  assert (Hlen : len ([b0; b1] ++ ext ++ key ++ body ++ tail)
                 = 2 + len ext + len key + len body + len tail).
  { len_simpl. lia. }
  pose proof (len_nonneg ext). pose proof (len_nonneg tail).
  pose proof (len_nonneg body). pose proof (len_nonneg key).
  rewrite Hlen.
  change (get ([b0; b1] ++ ext ++ key ++ body ++ tail) 0) with b0.
  change (get ([b0; b1] ++ ext ++ key ++ body ++ tail) 1) with b1.
  rewrite Hmask, Hl7. cbv zeta.
  rewrite (proj2 (Z.ltb_ge _ 2)) by lia.
  rewrite (proj2 (Z.eqb_neq _ 0) Hfin). simpl negb. cbv iota.
  replace (expectMasked && negb expectMasked) with false by by destruct expectMasked.
  replace (negb expectMasked && expectMasked) with false by by destruct expectMasked.
  assert (Hkeysub : ∀ pre, expectMasked = true →
    subarray (pre ++ key ++ body ++ tail) (len pre) (len pre + 4) = key).
  { intros pre ->. apply subarray_app_mid; lia. }
  assert (Hbodysub : ∀ pre,
    subarray (pre ++ key ++ body ++ tail) (len pre + len key)
      (len pre + len key + L) = body).
  { intros pre. rewrite (app_assoc pre key). apply subarray_app_mid; len_simpl; lia. }
  assert (Hrest : ∀ pre,
    subarray_from (pre ++ key ++ body ++ tail) (len pre + len key + L) = tail).
  { intros pre. rewrite (app_assoc pre key), (app_assoc _ body).
    apply subarray_from_app; len_simpl; lia. }
  destruct Hext as [l Hl|x y Hx Hy|h3 h2 h1 h0 l3 l2 l1 l0 Hb].
  - rewrite (proj2 (Z.eqb_neq _ 126)), (proj2 (Z.eqb_neq _ 127)) by lia.
    rewrite Z.gtb_ltb, (proj2 (Z.ltb_ge _ _)) by lia.
    specialize (Hkeysub [b0; b1]). specialize (Hbodysub [b0; b1]).
    specialize (Hrest [b0; b1]).
    change (len [b0; b1]) with 2 in *. rewrite len_nil in *. simpl app in *.
    destruct expectMasked; simpl andb; cbv iota; rewrite Hkey in *;
      rewrite !(proj2 (Z.ltb_ge _ _)) by lia.
    + rewrite Hkeysub, Hbodysub, Hrest; done.
    + rewrite Z.add_0_r in *. rewrite Hbodysub, Hrest; done.
  - change (126 =? 126) with true. cbv iota.
    change (len [x; y]) with 2 in *.
    change (readUInt16BE _ 2) with (x * 2 ^ 8 + y).
    specialize (Hkeysub [b0; b1; x; y]). specialize (Hbodysub [b0; b1; x; y]).
    specialize (Hrest [b0; b1; x; y]).
    change (len [b0; b1; x; y]) with 4 in *. simpl app in *.
    change (2 + 2) with 4.
    rewrite (proj2 (Z.ltb_ge _ 4)) by lia. cbv iota beta.
    rewrite Z.gtb_ltb, (proj2 (Z.ltb_ge _ _)) by lia.
    destruct expectMasked; simpl andb; cbv iota; rewrite Hkey in *;
      rewrite !(proj2 (Z.ltb_ge _ _)) by lia.
    + rewrite Hkeysub, Hbodysub, Hrest; done.
    + rewrite Z.add_0_r in *. rewrite Hbodysub, Hrest; done.
  - change (127 =? 126) with false. change (127 =? 127) with true. cbv iota.
    change (len [h3; h2; h1; h0; l3; l2; l1; l0]) with 8 in *.
    change (readUInt32BE _ 2) with (readUInt32BE [h3; h2; h1; h0] 0).
    change (readUInt32BE _ (2 + 4)) with (readUInt32BE [l3; l2; l1; l0] 0).
    rewrite Hhi. change (negb (0 =? 0)) with false. cbv iota.
    specialize (Hkeysub [b0; b1; h3; h2; h1; h0; l3; l2; l1; l0]).
    specialize (Hbodysub [b0; b1; h3; h2; h1; h0; l3; l2; l1; l0]).
    specialize (Hrest [b0; b1; h3; h2; h1; h0; l3; l2; l1; l0]).
    change (len [b0; b1; h3; h2; h1; h0; l3; l2; l1; l0]) with 10 in *.
    simpl app in *. change (2 + 8) with 10.
    rewrite (proj2 (Z.ltb_ge _ 10)) by lia. cbv iota beta.
    rewrite Z.gtb_ltb, (proj2 (Z.ltb_ge _ _)) by lia.
    destruct expectMasked; simpl andb; cbv iota; rewrite Hkey in *;
      rewrite !(proj2 (Z.ltb_ge _ _)) by lia.
    + rewrite Hkeysub, Hbodysub, Hrest; done.
    + rewrite Z.add_0_r in *. rewrite Hbodysub, Hrest; done.
Qed.

Lemma tryParseFrame_oversize (b0 b1 : Z) (ext tail : list Z)
    (expectMasked : bool) (maxPayloadBytes l7 hi lo : Z) :
  Z.land b1 0x7f = l7 →
  ext_length l7 ext hi lo →
  hi ≠ 0 ∨ lo > maxPayloadBytes →
  tryParseFrame ([b0; b1] ++ ext ++ tail) expectMasked maxPayloadBytes
  = if Z.land b0 0x80 =? 0 then Throw "Fragmented frames not supported"
    else if expectMasked && (Z.land b1 0x80 =? 0)
      then Throw "Expected masked client frame"
    else if negb expectMasked && negb (Z.land b1 0x80 =? 0)
      then Throw "Unexpected masked server frame"
    else if negb (hi =? 0) then Throw "Frame too large"
    else Throw "WS payload too large".
Proof.
  intros Hl7 Hext Hbig. unfold tryParseFrame.
  assert (Hlen : len ([b0; b1] ++ ext ++ tail) = 2 + len ext + len tail).
  { len_simpl. lia. }
  pose proof (len_nonneg ext). pose proof (len_nonneg tail).
  rewrite Hlen.
  change (get ([b0; b1] ++ ext ++ tail) 0) with b0.
  change (get ([b0; b1] ++ ext ++ tail) 1) with b1.
  rewrite Hl7. cbv zeta.
  rewrite (proj2 (Z.ltb_ge _ 2)) by lia.
  destruct (Z.land b0 128 =? 0); simpl negb; cbv iota; [done|].
  rewrite negb_involutive.
  destruct (expectMasked && (Z.land b1 128 =? 0)); [done|].
  destruct (negb expectMasked && negb (Z.land b1 128 =? 0)); [done|].
  destruct Hext as [l Hl|x y Hx Hy|h3 h2 h1 h0 l3 l2 l1 l0 Hb].
  - rewrite (proj2 (Z.eqb_neq _ 126)), (proj2 (Z.eqb_neq _ 127)) by lia.
    change (negb (0 =? 0)) with false. cbv iota.
    destruct Hbig as [|Hbig]; [done|].
    by rewrite Z.gtb_ltb, (proj2 (Z.ltb_lt _ _)) by lia.
  - change (126 =? 126) with true. cbv iota.
    change (len [x; y]) with 2 in *.
    change (readUInt16BE _ 2) with (x * 2 ^ 8 + y).
    rewrite (proj2 (Z.ltb_ge _ (2 + 2))) by lia.
    change (negb (0 =? 0)) with false. cbv iota.
    destruct Hbig as [|Hbig]; [done|].
    by rewrite Z.gtb_ltb, (proj2 (Z.ltb_lt _ _)) by lia.
  - change (127 =? 126) with false. change (127 =? 127) with true. cbv iota.
    change (len [h3; h2; h1; h0; l3; l2; l1; l0]) with 8 in *.
    change (readUInt32BE _ 2) with (readUInt32BE [h3; h2; h1; h0] 0).
    change (readUInt32BE _ (2 + 4)) with (readUInt32BE [l3; l2; l1; l0] 0).
    rewrite (proj2 (Z.ltb_ge _ (2 + 8))) by lia.
    destruct (negb (readUInt32BE [h3; h2; h1; h0] 0 =? 0)) eqn:Hhi; [done|].
    destruct Hbig as [Hbig|Hbig].
    + apply negb_false_iff, Z.eqb_eq in Hhi. done.
    + by rewrite Z.gtb_ltb, (proj2 (Z.ltb_lt _ _)) by lia.
Qed.

End codec.

Section roundtrip.
Import Buffer WsCodec.

Lemma xorMask_length (key body : list Z) : length (xorMask key body) = length body.
Proof. apply length_imap. Qed.

Lemma xor_byte_twice (b k : Z) :
  is_byte b → Z.land (Z.lxor (Z.land (Z.lxor b k) 255) k) 255 = b.
Proof.
  intros Hb. transitivity (Z.land b 255); [|by apply is_byte_land_255].
  apply Z.bits_inj'. intros n _.
  rewrite !Z.land_spec, !Z.lxor_spec, Z.land_spec, Z.lxor_spec.
  by destruct (Z.testbit b n), (Z.testbit k n), (Z.testbit 255 n).
Qed.

Lemma xorMask_involutive (key body : list Z) :
  Forall is_byte body → xorMask key (xorMask key body) = body.
Proof.
  intros Hbody. apply list_eq. intros i. unfold xorMask.
  rewrite !list_lookup_imap.
  destruct (body !! i) as [b|] eqn:Hi; simpl; [|done].
  f_equal. apply xor_byte_twice.
  by eapply Forall_lookup_1.
Qed.

Lemma ext_length_writeUInt16BE (L : Z) :
  126 ≤ L < 65536 → ext_length 126 (writeUInt16BE L) 0 L.
Proof.
  intros HL.
  pose proof (readUInt16BE_writeUInt16BE L [] ltac:(lia)) as Hrd.
  unfold readUInt16BE, writeUInt16BE, get in Hrd. simpl in Hrd.
  unfold writeUInt16BE.
  set (x := Z.land (Z.shiftr L 8) 255) in *. set (y := Z.land L 255) in *.
  assert (Hx : is_byte x) by (unfold is_byte, x; rewrite land_255_mod; dlia).
  assert (Hy : is_byte y) by (unfold is_byte, y; rewrite land_255_mod; dlia).
  clearbody x y. subst L. by constructor.
Qed.

Lemma ext_length_writeUInt32BE (L : Z) :
  0 ≤ L < 2 ^ 32 → ext_length 127 (writeUInt32BE 0 ++ writeUInt32BE L) 0 L.
Proof.
  intros HL.
  pose proof (readUInt32BE_writeUInt32BE L [] HL) as Hrd.
  rewrite app_nil_r in Hrd. unfold writeUInt32BE in *. simpl app.
  set (l3 := Z.land (Z.shiftr L 24) 255) in *.
  set (l2 := Z.land (Z.shiftr L 16) 255) in *.
  set (l1 := Z.land (Z.shiftr L 8) 255) in *.
  set (l0 := Z.land L 255) in *.
  assert (Hb : Forall is_byte [0; 0; 0; 0; l3; l2; l1; l0]).
  { repeat constructor; unfold is_byte, l3, l2, l1, l0;
      rewrite ?land_255_mod; try dlia; lia. }
  clearbody l3 l2 l1 l0. subst L.
  exact (ext_len64 0 0 0 0 l3 l2 l1 l0 Hb).
Qed.

Lemma header_byte0 (opcode : Z) :
  0 ≤ opcode < 16 →
  let b0 := Z.lor 0x80 (Z.land opcode 0x0f) in
  Z.land b0 0x80 ≠ 0 ∧ Z.land b0 0x0f = opcode.
Proof.
  intros Hop b0. unfold b0.
  assert (Ho : Z.land opcode 15 = opcode).
  { change 15 with (Z.ones 4). rewrite Z.land_ones by lia. apply Z.mod_small. lia. }
  rewrite Ho, !Z.land_lor_distr_l, (land_128_small opcode) by lia.
  change (Z.land 128 128) with 128. change (Z.land 128 15) with 0.
  rewrite Ho. split; [by rewrite Z.lor_0_r | by rewrite Z.lor_0_l].
Qed.

Lemma header_byte1 (mask : bool) (l : Z) :
  0 ≤ l < 128 →
  let b1 := Z.lor (if mask then 0x80 else 0) l in
  negb (Z.land b1 0x80 =? 0) = mask ∧ Z.land b1 0x7f = l.
Proof.
  intros Hl b1. unfold b1.
  assert (Hl7 : Z.land l 127 = l) by (rewrite land_127_mod; by apply Z.mod_small).
  rewrite !Z.land_lor_distr_l, (land_128_small l), Hl7 by lia.
  destruct mask.
  - change (Z.land 128 128) with 128. change (Z.land 128 127) with 0.
    by rewrite Z.lor_0_r, Z.lor_0_l.
  - change (Z.land 0 128) with 0. change (Z.land 0 127) with 0.
    by rewrite Z.lor_0_l.
Qed.

Lemma buildFrame_parse (opcode : Z) (P key : list Z) (mask : bool) (max : Z) :
  0 ≤ opcode < 16 →
  Forall is_byte P → length key = 4%nat →
  len P ≤ max → len P < 2 ^ 32 →
  tryParseFrame (buildFrame opcode P mask key) mask max = Parsed opcode P [].
Proof.
  intros Hop HP Hkey Hmax H32. unfold buildFrame.
  pose proof (len_nonneg P) as H0.
  unfold toUint32. rewrite (Z.mod_small (len P)) by lia.
  destruct (header_byte0 opcode Hop) as [Hfin Hopc].
  set (b0 := Z.lor 128 (Z.land opcode 15)) in *.
  assert (Hgen : ∀ l7 ext, 0 ≤ l7 < 128 → ext_length l7 ext 0 (len P) →
    tryParseFrame
      (let '(maskKey, body) := if mask then (key, xorMask key P) else ([], P) in
       [b0; Z.lor (if mask then 128 else 0) l7] ++ ext ++ maskKey ++ body)
      mask max = Parsed opcode P []).
  { intros l7 ext Hl7 Hext.
    destruct (header_byte1 mask l7 Hl7) as [Hm Hl].
    clearbody b0. subst opcode.
    destruct mask.
    - pose proof (tryParseFrame_complete b0 _ ext key (xorMask key P) [] true
        max l7 0 (len P) Hfin Hm Hl Hext eq_refl Hmax) as Hparse.
      rewrite app_nil_r, xorMask_involutive in Hparse by done.
      apply Hparse; unfold len; rewrite ?xorMask_length, ?Hkey; done.
    - pose proof (tryParseFrame_complete b0 _ ext [] P [] false
        max l7 0 (len P) Hfin Hm Hl Hext eq_refl Hmax) as Hparse.
      rewrite app_nil_r in Hparse. by apply Hparse. }
  destruct (Z.ltb_spec (len P) 126).
  - apply Hgen; [lia|]. constructor; lia.
  - destruct (Z.ltb_spec (len P) 65536).
    + apply Hgen; [lia|]. apply ext_length_writeUInt16BE; lia.
    + apply Hgen; [lia|]. apply ext_length_writeUInt32BE; lia.
Qed.

(** When [payload.length >>> 0] wraps to 0 the header declares an empty
    payload and the whole body is left in [rest]. *)
Lemma buildFrame_parse_wrapped (opcode : Z) (P key : list Z) (max : Z) :
  0 ≤ opcode < 16 → toUint32 (len P) = 0 → 0 ≤ max →
  tryParseFrame (buildFrame opcode P false key) false max = Parsed opcode [] P.
Proof.
  intros Hop Hwrap Hmax. unfold buildFrame. rewrite Hwrap.
  destruct (header_byte0 opcode Hop) as [Hfin Hopc].
  set (b0 := Z.lor 128 (Z.land opcode 15)) in *. clearbody b0. subst opcode.
  change (0 <? 126) with true. cbv iota beta.
  exact (tryParseFrame_complete b0 0 [] [] [] P false max 0 0 0 Hfin eq_refl
           eq_refl (ext_len7 0 ltac:(lia)) eq_refl Hmax eq_refl eq_refl).
Qed.

End roundtrip.

Section frame_roundtrip.
Import Buffer WsCodec.

Lemma four_GiB_len : len four_GiB = 2 ^ 32.
Proof. unfold four_GiB, len. rewrite length_replicate. apply Z2Nat.id. lia. Qed.

(** C1, amended: for every payload [P] of at most [maxPayloadBytes] and
    fewer than 2^32 bytes, the binary frame [buildFrame] makes of [P], with
    or without masking, is parsed by [tryParseFrame] under the matching mask
    expectation into opcode 2, the payload [P] and an empty rest. *)
Theorem buildFrame_tryParseFrame_roundtrip (P key : list Z) (mask : bool)
    (maxPayloadBytes : Z) :
  Forall is_byte P → length key = 4%nat →
  len P ≤ maxPayloadBytes → len P < 2 ^ 32 →
  tryParseFrame (buildFrame 2 P mask key) mask maxPayloadBytes = Parsed 2 P [].
Proof. intros. by apply buildFrame_parse. Qed.

Lemma buildFrame_tryParseFrame_roundtrip_witness :
  tryParseFrame (buildFrame 2 [1; 2; 3] true [0xff; 0; 0xf0; 9]) true (1024 * 1024)
  = Parsed 2 [1; 2; 3] [].
Proof.
  apply (buildFrame_tryParseFrame_roundtrip [1; 2; 3] [0xff; 0; 0xf0; 9] true).
  - repeat constructor; unfold is_byte; lia.
  - reflexivity.
  - vm_compute. discriminate.
  - vm_compute. reflexivity.
Defined.

(** C1 as stated fails for a payload of 2^32 bytes under a ceiling of 2^32:
    the length written into the header is [payload.length >>> 0] = 0, and
    the frame parses to an empty payload with the whole body left over. *)
Lemma roundtrip_fails_at_four_GiB :
  Forall is_byte four_GiB ∧ len four_GiB ≤ 2 ^ 32 ∧
  tryParseFrame (buildFrame 2 four_GiB false [0; 0; 0; 0]) false (2 ^ 32)
    = Parsed 2 [] four_GiB ∧
  Parsed 2 [] four_GiB ≠ Parsed 2 four_GiB [].
Proof.
  split; [|split; [|split]].
  - apply Forall_replicate. unfold is_byte. lia.
  - rewrite four_GiB_len. lia.
  - apply buildFrame_parse_wrapped; [lia| |lia].
    unfold toUint32. rewrite four_GiB_len. apply Z.mod_same. lia.
  - intros Heq.
    apply (f_equal (λ r, match r with Parsed _ p _ => len p | _ => 0 end)) in Heq.
    rewrite four_GiB_len in Heq. unfold len in Heq.
    change (Z.of_nat (length [])) with 0 in Heq. lia.
Qed.

(** C3: a buffer that holds a complete frame header (the two fixed bytes
    and the extended length field, nothing more) declaring a length over the
    ceiling, or a 64-bit length with a non-zero upper half, is rejected by
    [tryParseFrame] with an error, and so is every buffer that extends it:
    the outcome does not depend on bytes after the length field, of which
    none needs to be present. When the frame is final and its masking is the
    expected one, the error is the one about its size. *)
Theorem tryParseFrame_rejects_oversize (b0 b1 : Z) (ext : list Z)
    (expectMasked : bool) (maxPayloadBytes hi lo : Z) :
  ext_length (Z.land b1 0x7f) ext hi lo →
  hi ≠ 0 ∨ lo > maxPayloadBytes →
  ∃ msg,
    (∀ tail, tryParseFrame ([b0; b1] ++ ext ++ tail) expectMasked maxPayloadBytes
             = Throw msg)
    ∧ (Z.land b0 0x80 ≠ 0 → negb (Z.land b1 0x80 =? 0) = expectMasked →
       msg = if negb (hi =? 0) then "Frame too large" else "WS payload too large").
Proof.
  intros Hext Hbig.
  exists (if Z.land b0 0x80 =? 0 then "Fragmented frames not supported"
          else if expectMasked && (Z.land b1 0x80 =? 0)
            then "Expected masked client frame"
          else if negb expectMasked && negb (Z.land b1 0x80 =? 0)
            then "Unexpected masked server frame"
          else if negb (hi =? 0) then "Frame too large"
          else "WS payload too large").
  split.
  - intros tail.
    rewrite (tryParseFrame_oversize b0 b1 ext tail expectMasked
      maxPayloadBytes _ hi lo eq_refl Hext Hbig).
    by repeat match goal with |- context [if ?c then _ else _] => destruct c end.
  - intros Hfin Hmask. rewrite (proj2 (Z.eqb_neq _ _) Hfin).
    destruct (Z.land b1 128 =? 0), expectMasked; simpl in *; congruence.
Qed.

Lemma tryParseFrame_rejects_oversize_witness :
  ∃ msg,
    (∀ tail, tryParseFrame ([0x82; 0x7e] ++ [0xff; 0xff] ++ tail) false 1000
             = Throw msg)
    ∧ (Z.land 0x82 0x80 ≠ 0 → negb (Z.land 0x7e 0x80 =? 0) = false →
       msg = if negb (0 =? 0) then "Frame too large" else "WS payload too large").
Proof.
  apply (tryParseFrame_rejects_oversize 0x82 0x7e [0xff; 0xff] false 1000 0
    (0xff * 2 ^ 8 + 0xff)).
  - apply (ext_len16 0xff 0xff); unfold is_byte; lia.
  - right. vm_compute. reflexivity.
Defined.

End frame_roundtrip.

(** ** The WebSocket connection loop *)

Section ws_loop.
Import Buffer WsCodec Ws.
Context `{Host}.

Lemma tryParseFrame_Parsed_len (b : list Z) (e : bool) (m op : Z) (p r : list Z) :
  tryParseFrame b e m = Parsed op p r → 2 ≤ len b.
Proof.
  unfold tryParseFrame. destruct (Z.ltb_spec (len b) 2); [done|lia].
Qed.

Lemma onData_fault (c : nat) (conn : WsConnection) (chunk : list Z)
    (w : World) (msg : string) :
  conns w !! c = Some conn →
  decode_fault conn (_buf conn ++ chunk) = Some msg →
  ∃ buf', _onData c chunk w = (set_conns (<[c := set_buf buf' conn]>) w, Threw msg).
Proof.
  intros Hc Hfault. unfold _onData. rewrite Hc. cbv zeta.
  unfold decode_fault in Hfault.
  destruct (tryParseFrame _ _ _) as [|m|op p r] eqn:Hparse; [done| |].
  - injection Hfault as ->. exists (_buf conn ++ chunk).
    destruct (length _); simpl; rewrite lookup_insert_eq; simpl; by rewrite Hparse.
  - case_bool_decide as Hop; [done|]. injection Hfault as <-.
    exists r. apply tryParseFrame_Parsed_len in Hparse as Hlen.
    unfold len in Hlen.
    destruct (length (_buf conn ++ chunk)) as [|fuel] eqn:Hfuel; [lia|].
    simpl. rewrite lookup_insert_eq. simpl. rewrite Hparse.
    assert (Hne : ∀ k, k ∈ [1; 2; 8; 9; 10] → (op =? k) = false).
    { intros k Hk. apply Z.eqb_neq. by intros ->. }
    rewrite !Hne by set_solver.
    unfold set_conns. simpl. by rewrite insert_insert_eq.
Qed.

(** C2 (the code departs from the claim): a decoding fault at the head of a
    connection's buffer (a fragmented frame, a masking mismatch, a length
    over the ceiling or an unknown opcode) makes [_onData] throw out of the
    socket's data listener. No [error] event is emitted, nothing is called on
    the socket (neither [end] nor [destroy]), and the registry and the wiring
    are left as they were. *)
Theorem ws_decode_fault_escapes_onData (c : nat) (conn : WsConnection)
    (chunk : list Z) (w : World) (msg : string) :
  conns w !! c = Some conn →
  decode_fault conn (_buf conn ++ chunk) = Some msg →
  ∃ w', _onData c chunk w = (w', Threw msg)
    ∧ emitted w' = emitted w
    ∧ tr w' = tr w
    ∧ wires w' = wires w
    ∧ ∀ c', _socket <$> conns w' !! c' = _socket <$> conns w !! c'.
Proof.
  intros Hc Hfault.
  destruct (onData_fault c conn chunk w msg Hc Hfault) as [buf' ->].
  eexists; split; [done|]. repeat split.
  intros c'. simpl. destruct (decide (c = c')) as [<-|Hne].
  - by rewrite lookup_insert_eq, Hc.
  - by rewrite lookup_insert_ne.
Qed.

End ws_loop.

Section ws_hello_examples.
Import Buffer WsCodec Ws.
#[local] Existing Instance example_host.

(** A server-mode connection receives the two bytes of a header with the
    fin bit clear. *)
Lemma ws_decode_fault_escapes_onData_witness :
  ∃ w', _onData 0 [0x02; 0x80] (accept 0 (ws_server "A"))
        = (w', Threw "Fragmented frames not supported")
    ∧ emitted w' = []
    ∧ _socket <$> conns w' !! 0%nat
      = Some [SockWrite (OutFrame 1 (ascii_bytes (hello_text "A")) false)].
Proof.
  pose (conn := Conn false true (1024 * 1024) []
    [SockWrite (OutFrame 1 (ascii_bytes (hello_text "A")) false)]).
  assert (Hconn : conns (accept 0 (ws_server "A")) !! 0%nat = Some conn)
    by (vm_compute; reflexivity).
  assert (Hfault : decode_fault conn (_buf conn ++ [0x02; 0x80])
                   = Some "Fragmented frames not supported")
    by (vm_compute; reflexivity).
  destruct (ws_decode_fault_escapes_onData 0 conn [0x02; 0x80]
    (accept 0 (ws_server "A")) "Fragmented frames not supported" Hconn Hfault)
    as (w' & Hrun & Hem & _ & _ & Hsock).
  exists w'. split; [exact Hrun|]. split; [exact Hem|].
  rewrite (Hsock 0%nat), Hconn. reflexivity.
Defined.

(** C5 (the code departs from the claim on the WebSocket backend): a server
    accepts connection 0 and receives, in one chunk, a text frame that is no
    JSON, then a valid hello of peer "B", then a binary frame. The first
    frame is answered with an [error] event and [close()], but the loop of
    [_onData] goes on: the second frame registers the connection under "B"
    and emits [connection], the third is emitted as a [frame] event. *)
Theorem ws_invalid_hello_does_not_end_the_connection :
  let w := (_onData 0 bad_then_good_hello (accept 0 (ws_server "A"))).1 in
  emitted w = [EvError "WebSocketTransport invalid hello JSON";
               EvConnection "B" false None; EvFrame "B" [1; 2; 3]]
  ∧ _peers (tr w) !! "B" = Some 0%nat
  ∧ _socket <$> conns w !! 0%nat =
      Some [SockWrite (OutFrame 1 (ascii_bytes (hello_text "A")) false);
            SockEnd (OutFrame 8 [] false)].
Proof. vm_compute. done. Qed.

(** A session on a server-mode connection: hello, a ping (answered by a pong
    with the same payload), a binary frame split over two chunks, a close
    frame; then the socket's close signal, twice. *)
Example ws_session :
  let frame := buildFrame 2 [7; 8; 9] true [1; 1; 1; 1] in
  let w1 := (_onData 0
    (buildFrame 1 (ascii_bytes (hello_text "B")) true [5; 6; 7; 8]
     ++ buildFrame 9 [4; 2] true [0; 0; 0; 0] ++ take 5 frame)
    (accept 0 (ws_server "A"))).1 in
  let w2 := (_onData 0 (drop 5 frame ++ buildFrame 8 [] true [3; 3; 3; 3]) w1).1 in
  let w3 := cleanup 0 (cleanup 0 w2) in
  emitted w1 = [EvConnection "B" false None]
  ∧ emitted w2 = [EvConnection "B" false None; EvFrame "B" [7; 8; 9]]
  ∧ _socket <$> conns w2 !! 0%nat
    = Some [SockWrite (OutFrame 1 (ascii_bytes (hello_text "A")) false);
            SockWrite (OutFrame 10 [4; 2] false); SockEnd (OutFrame 8 [] false)]
  ∧ emitted w3 = emitted w2 ++ [EvDisconnection "B" (Some false)]
  ∧ _peers (tr w3) = ∅.
Proof. vm_compute. done. Qed.

End ws_hello_examples.

Section example_host_checks.

Example example_JSON_parse_hello :
  example_JSON_parse (hello_text "relay:9000") = Some (hello_object "relay:9000").
Proof. reflexivity. Qed.

Example example_JSON_parse_x : example_JSON_parse "x" = None.
Proof. reflexivity. Qed.

Example hello_text_B :
  ascii_bytes (hello_text "B")
  = [123; 34; 116; 34; 58; 34; 104; 101; 108; 108; 111; 34; 44; 34; 112; 101;
     101; 114; 73; 100; 34; 58; 34; 66; 34; 125].
Proof. reflexivity. Qed.

End example_host_checks.
(** ** Client-mode [send] *)

Section ws_send.
Import Ws.
Context `{Host}.

(** What [sendBinary] does to the world: one call on the socket of the
    connection, the write of a binary frame with the payload. *)
Lemma sendBinary_spec (u : nat) (conn : WsConnection) (bytes : list Z) (w : World) :
  conns w !! u = Some conn →
  sendBinary u bytes w
  = set_conns
      (<[u := call_socket (SockWrite (OutFrame 2 bytes (_maskOutgoing conn))) conn]>) w.
Proof.
  intros Hu. unfold sendBinary, socket_call, mask_of, set_conns. rewrite Hu. simpl.
  f_equal. apply map_eq. intros c. destruct (decide (c = u)) as [->|Hne].
  - by rewrite lookup_alter_eq, lookup_insert_eq, Hu.
  - by rewrite lookup_alter_ne, lookup_insert_ne.
Qed.

(** C10: on a started client-mode transport with a connected uplink,
    [send(to, bytes)] succeeds exactly when [to] is the configured URL or the
    uplink's peer id: it then returns after one call on the uplink's socket,
    the write of the binary frame that carries [bytes] (masked as the uplink
    masks what it sends), and changes nothing else; for any other target it
    throws and changes nothing at all. The outcome is the same whatever the
    peer registry holds, which [send] does not read in client mode. *)
Theorem ws_client_send_targets (to : string) (bytes : list Z) (u : nat)
    (conn : WsConnection) (w : World) :
  _mode (tr w) = Some Client →
  _started (tr w) = true →
  _uplink (tr w) = Some u →
  conns w !! u = Some conn →
  (if bool_decide (Some to = _url (tr w) ∨ Some to = _uplinkPeerId (tr w))
   then
     (send to (Uint8Array bytes) w).2 = Returned
     ∧ conns (send to (Uint8Array bytes) w).1
       = <[u := Conn (_maskOutgoing conn) (_expectMasked conn)
                  (c_maxPayloadBytes conn) (_buf conn)
                  (_socket conn
                   ++ [SockWrite (OutFrame 2 bytes (_maskOutgoing conn))])]>
           (conns w)
     ∧ tr (send to (Uint8Array bytes) w).1 = tr w
     ∧ wires (send to (Uint8Array bytes) w).1 = wires w
     ∧ waitHello (send to (Uint8Array bytes) w).1 = waitHello w
     ∧ emitted (send to (Uint8Array bytes) w).1 = emitted w
   else
     send to (Uint8Array bytes) w
     = (w, Threw "Client WebSocketTransport can only send to its connected relay"))
  ∧ (∀ peers' : gmap string nat,
       let forget := set_tr (set_peers (λ _, peers')) in
       send to (Uint8Array bytes) (forget w)
       = (forget (send to (Uint8Array bytes) w).1, (send to (Uint8Array bytes) w).2)).
Proof.
  intros Hmode Hstarted Huplink Hconn.
  assert (Hsend : ∀ w', _mode (tr w') = Some Client → _started (tr w') = true →
    _uplink (tr w') = Some u →
    send to (Uint8Array bytes) w' =
      if bool_decide (Some to = _url (tr w') ∨ Some to = _uplinkPeerId (tr w'))
      then (sendBinary u bytes w', Returned)
      else (w', Threw "Client WebSocketTransport can only send to its connected relay")).
  { intros w' Hm Hs Hu. unfold send. rewrite Hm, Hs, Hu. simpl.
    destruct (decide (Some to = _url (tr w'))) as [Hurl|Hurl];
      destruct (decide (Some to = _uplinkPeerId (tr w'))) as [Hup|Hup];
      rewrite ?(bool_decide_eq_true_2 _ Hurl), ?(bool_decide_eq_false_2 _ Hurl),
        ?(bool_decide_eq_true_2 _ Hup), ?(bool_decide_eq_false_2 _ Hup); simpl;
      [rewrite bool_decide_eq_true_2 by tauto..
      |rewrite bool_decide_eq_false_2 by tauto]; done. }
  split.
  - rewrite (Hsend w) by done. case_bool_decide; [|done].
    rewrite (sendBinary_spec u conn bytes w Hconn). done.
  - intros peers' forget. rewrite (Hsend w), (Hsend (forget w)) by done.
    simpl. by case_bool_decide.
Qed.

End ws_send.

Section ws_send_witness.
Import Ws.
#[local] Existing Instance example_host.

Lemma ws_client_send_targets_witness :
  let w := MkWorld
    (MkTransport "B" (Some Client) (Some "ws://relay:80/") None 1048576 true
       {["C" := 0%nat]} (Some 0%nat) (Some "A") false)
    {[0%nat := Conn true false 1048576 [] []]} ∅ None [] in
  ((send "A" (Uint8Array [1; 2]) w).2 = Returned
   ∧ conns (send "A" (Uint8Array [1; 2]) w).1
     = {[0%nat := Conn true false 1048576 [] [SockWrite (OutFrame 2 [1; 2] true)]]})
  ∧ send "C" (Uint8Array [1; 2]) w
    = (w, Threw "Client WebSocketTransport can only send to its connected relay").
Proof.
  intros w. split.
  - pose proof (ws_client_send_targets "A" [1; 2] 0%nat (Conn true false 1048576 [] [])
      w eq_refl eq_refl eq_refl eq_refl) as [Hsend _].
    rewrite bool_decide_eq_true_2 in Hsend by (right; reflexivity).
    destruct Hsend as (Hret & Hconns & _). split; [exact Hret|].
    rewrite Hconns. reflexivity.
  - pose proof (ws_client_send_targets "C" [1; 2] 0%nat (Conn true false 1048576 [] [])
      w eq_refl eq_refl eq_refl eq_refl) as [Hsend _].
    rewrite bool_decide_eq_false_2 in Hsend by (intros [[=]|[=]]).
    exact Hsend.
Defined.

End ws_send_witness.

(** ** The peer registry of the WebSocket transport *)

Section ws_registry.
Import Ws.
Context `{Host}.

Lemma emit_conns (e : event) (w : World) : conns (emit e w) = conns w.
Proof. unfold emit. by destruct (waitHello _) as [[]|], e as [? []| | |]. Qed.

Lemma emit_wires (e : event) (w : World) : wires (emit e w) = wires w.
Proof. unfold emit. by destruct (waitHello _) as [[]|], e as [? []| | |]. Qed.

Lemma emit_peers (e : event) (w : World) : _peers (tr (emit e w)) = _peers (tr w).
Proof. unfold emit. by destruct (waitHello _) as [[]|], e as [? []| | |]. Qed.

Lemma emit_uplink (e : event) (w : World) : _uplink (tr (emit e w)) = _uplink (tr w).
Proof. unfold emit. by destruct (waitHello _) as [[]|], e as [? []| | |]. Qed.

Lemma emit_started (e : event) (w : World) : _started (tr (emit e w)) = _started (tr w).
Proof. unfold emit. by destruct (waitHello _) as [[]|], e as [? []| | |]. Qed.

Lemma emit_emitted (e : event) (w : World) : emitted (emit e w) = emitted w ++ [e].
Proof. unfold emit. by destruct (waitHello _) as [[]|], e as [? []| | |]. Qed.

(** A valid hello on a connection that is not yet identified registers the
    connection under the peer id it announces. *)
Lemma onMessage_hello (c : nat) (x : Wire) (text : string) (bytes : list Z)
    (obj : json) (w : World) :
  wires w !! c = Some x →
  truthy_str (remotePeerId x) = false →
  JSON_parse text = Some obj →
  invalid_hello_fields obj = false →
  (outbound x && truthy_str (_expectedPeerId (tr w))
   && negb (bool_decide (Some (hello_peerId obj) = _expectedPeerId (tr w)))) = false →
  onMessage c 1 (Some text) bytes w
  = emit (EvConnection (hello_peerId obj) (outbound x) (uplinkHref x))
      (set_tr (set_peers (<[hello_peerId obj := c]>))
         (set_wires (<[c := set_remotePeerId (Some (hello_peerId obj)) x]>) w)).
Proof.
  intros Hx Hid Hparse Hvalid Hexp. unfold onMessage.
  rewrite Hx, Hid. simpl. rewrite Hparse, Hvalid. by rewrite Hexp.
Qed.

Lemma emit_disconnection (p : string) (o : option bool) (w : World) :
  emit (EvDisconnection p o) w = set_emitted (λ l, l ++ [EvDisconnection p o]) w.
Proof. unfold emit. by destruct (waitHello _) as [[]|]. Qed.

(** The cases of [cleanup] on a wired connection that is not yet closed. *)
Ltac cleanup_cases x :=
  destruct (remotePeerId x) as [?p|] eqn:?; cbv zeta;
  rewrite ?emit_disconnection;
  [match goal with
   | |- context [truthy_str (Some ?p)] => destruct (truthy_str (Some p)) eqn:?
   end|];
  destruct (outbound x) eqn:?; simpl;
  repeat (case_bool_decide; simpl).

Lemma cleanup_closed (c : nat) (x : Wire) (w : World) :
  wires w !! c = Some x →
  ∃ x', wires (cleanup c w) !! c = Some x' ∧ closed x' = true.
Proof.
  intros Hx. unfold cleanup. rewrite Hx.
  destruct (closed x) eqn:Hclosed; [by exists x|].
  exists (set_closed true x).
  cleanup_cases x; by rewrite lookup_insert_eq.
Qed.

Lemma cleanup_idempotent (c : nat) (w : World) :
  cleanup c (cleanup c w) = cleanup c w.
Proof.
  destruct (wires w !! c) as [x|] eqn:Hx.
  - destruct (cleanup_closed c x w Hx) as (x' & Hx' & Hc).
    unfold cleanup at 1. by rewrite Hx', Hc.
  - unfold cleanup. by rewrite !Hx.
Qed.

(** [cleanup] of connection [c] leaves every registry entry of another
    connection in place. *)
Lemma cleanup_keeps_others (c c' : nat) (q : string) (w : World) :
  _peers (tr w) !! q = Some c' → c' ≠ c →
  _peers (tr (cleanup c w)) !! q = Some c'.
Proof.
  intros Hq Hne. unfold cleanup.
  destruct (wires w !! c) as [x|]; [|done].
  destruct (closed x); [done|].
  cleanup_cases x; try done;
    (rewrite lookup_delete_ne; [done|]); intros ->; congruence.
Qed.

(** When the registry entry of [c]'s peer id is not [c], [cleanup] changes
    neither the registry nor the events. *)
Lemma cleanup_superseded (c : nat) (x : Wire) (w : World) :
  wires w !! c = Some x →
  (∀ p, remotePeerId x = Some p → _peers (tr w) !! p ≠ Some c) →
  _peers (tr (cleanup c w)) = _peers (tr w)
  ∧ emitted (cleanup c w) = emitted w.
Proof.
  intros Hx Hp. unfold cleanup. rewrite Hx.
  destruct (closed x); [done|].
  cleanup_cases x; try done; by destruct (Hp _ eq_refl).
Qed.

End ws_registry.

(** ** Client-mode [start()] *)

Section ws_start.
Import Ws.
Context `{Host}.









(** *** Through the connection loop *)








End ws_start.

Section ws_start_witness.
Import Ws.
#[local] Existing Instance example_host.


(** The same through [_onData]: the hello frame of "C" arrives, [start()]
    throws, nothing is registered, the uplink is gone. A hello of "A" instead
    lets [start()] return with the uplink identified. *)
Example ws_client_start_runs :
  let w := _startClient_connected 0 "ws://relay:80/"
             (ws_client "B" "ws://relay:80/" (Some "A")) in
  let bad := start_resume
    (_onData 0 (WsCodec.buildFrame 1 (ascii_bytes (hello_text "C")) false []) w).1 in
  let good := start_resume
    (_onData 0 (WsCodec.buildFrame 1 (ascii_bytes (hello_text "A")) false []) w).1 in
  (start_resume w).2 = None
  ∧ bad.2 = Some (Threw "WebSocketTransport peerId mismatch")
  ∧ emitted bad.1 = [EvError "WebSocketTransport peerId mismatch"]
  ∧ _uplink (tr bad.1) = None
  ∧ good.2 = Some Returned
  ∧ emitted good.1 = [EvConnection "A" true (Some "ws://relay:80/")]
  ∧ _uplinkPeerId (tr good.1) = Some "A"
  ∧ _started (tr good.1) = true.
Proof. vm_compute. done. Qed.

End ws_start_witness.

(** ** The fuel of the WebSocket connection loop is never used up *)

Section ws_fuel.
Import Buffer WsCodec Ws.
Context `{Host}.

Lemma get_nonneg (b : list Z) (i : Z) : Forall is_byte b → 0 ≤ get b i.
Proof.
  intros Hb. unfold get. destruct (b !! Z.to_nat i) as [x|] eqn:Hx; simpl; [|lia].
  by destruct (Forall_lookup_1 _ _ _ _ Hb Hx).
Qed.

Lemma readUInt16BE_nonneg (b : list Z) (off : Z) :
  Forall is_byte b → 0 ≤ readUInt16BE b off.
Proof.
  intros Hb. unfold readUInt16BE.
  pose proof (get_nonneg b off Hb). pose proof (get_nonneg b (off + 1) Hb). lia.
Qed.

Lemma readUInt32BE_nonneg (b : list Z) (off : Z) :
  Forall is_byte b → 0 ≤ readUInt32BE b off.
Proof.
  intros Hb. unfold readUInt32BE.
  pose proof (get_nonneg b off Hb). pose proof (get_nonneg b (off + 1) Hb).
  pose proof (get_nonneg b (off + 2) Hb). pose proof (get_nonneg b (off + 3) Hb).
  lia.
Qed.

(** A parsed frame takes at least its two header bytes off the buffer. *)
Lemma tryParseFrame_rest (b : list Z) (e : bool) (m op : Z) (p r : list Z) :
  Forall is_byte b →
  tryParseFrame b e m = Parsed op p r →
  (length r + 2 ≤ length b)%nat ∧ Forall is_byte r.
Proof.
  intros Hb. unfold tryParseFrame.
  assert (Hdrop : ∀ off l, 2 ≤ off → 0 ≤ l → (len b <? off + l) = false →
    (length (subarray_from b (off + l)) + 2 ≤ length b)%nat
    ∧ Forall is_byte (subarray_from b (off + l))).
  { intros off l Hoff Hl Hlt. apply Z.ltb_ge in Hlt. unfold len in Hlt.
    unfold subarray_from. split; [|by apply Forall_drop].
    rewrite length_drop. lia. }
  pose proof (readUInt16BE_nonneg b 2 Hb) as H16.
  pose proof (readUInt32BE_nonneg b (2 + 4) Hb) as H32.
  assert (H7 : 0 ≤ Z.land (get b 1) 127) by (apply Z.land_nonneg; lia).
  destruct (len b <? 2); [done|]. cbv zeta.
  destruct (negb (negb _)); [done|].
  destruct (e && _); [done|]. destruct (negb e && _); [done|].
  assert (Hfin : ∀ l off, 2 ≤ off → 0 ≤ l →
    (if l >? m then Throw "WS payload too large"
     else if negb (Z.land (get b 1) 128 =? 0) && (len b <? off + 4) then NeedMore
     else if len b <? (if negb (Z.land (get b 1) 128 =? 0) then off + 4 else off) + l
       then NeedMore
     else Parsed (Z.land (get b 0) 15)
       (if negb (Z.land (get b 1) 128 =? 0)
        then xorMask
          (if negb (Z.land (get b 1) 128 =? 0) then subarray b off (off + 4) else [])
          (subarray b (if negb (Z.land (get b 1) 128 =? 0) then off + 4 else off)
             ((if negb (Z.land (get b 1) 128 =? 0) then off + 4 else off) + l))
        else subarray b (if negb (Z.land (get b 1) 128 =? 0) then off + 4 else off)
             ((if negb (Z.land (get b 1) 128 =? 0) then off + 4 else off) + l))
       (subarray_from b
          ((if negb (Z.land (get b 1) 128 =? 0) then off + 4 else off) + l)))
    = Parsed op p r →
    (length r + 2 ≤ length b)%nat ∧ Forall is_byte r).
  { intros l off Hoff Hl. destruct (l >? m); [done|].
    destruct (negb (Z.land (get b 1) 128 =? 0)); simpl.
    - destruct (len b <? off + 4); [done|].
      destruct (len b <? off + 4 + l) eqn:Hlt; [done|].
      intros [= _ _ <-]. apply Hdrop; [lia|done|done].
    - destruct (len b <? off + l) eqn:Hlt; [done|].
      intros [= _ _ <-]. by apply Hdrop. }
  destruct (Z.land (get b 1) 127 =? 126).
  - destruct (len b <? 2 + 2); [done|]. apply Hfin; lia.
  - destruct (Z.land (get b 1) 127 =? 127).
    + destruct (len b <? 2 + 8); [done|].
      destruct (negb (readUInt32BE b 2 =? 0)); [done|]. apply Hfin; lia.
    + apply Hfin; lia.
Qed.

Lemma socket_call_codec (c : nat) (k : sock_call) (conn : WsConnection) (w : World) :
  conns w !! c = Some conn →
  ∃ conn', conns (socket_call c k w) !! c = Some conn' ∧ same_codec conn conn'.
Proof.
  intros Hc. unfold socket_call. simpl. rewrite lookup_alter_eq, Hc. simpl.
  eexists. split; [done|]. done.
Qed.

Lemma onMessage_codec (c : nat) (opcode : Z) (text : option string)
    (bytes : list Z) (conn : WsConnection) (w : World) :
  conns w !! c = Some conn →
  ∃ conn', conns (onMessage c opcode text bytes w) !! c = Some conn'
    ∧ same_codec conn conn'.
Proof.
  intros Hc.
  assert (Hclose : ∀ w1, conns w1 = conns w →
    ∃ conn', conns (close c w1) !! c = Some conn' ∧ same_codec conn conn').
  { intros w1 Hw1. apply socket_call_codec. by rewrite Hw1. }
  assert (Hsame : ∀ w1, conns w1 = conns w →
    ∃ conn', conns w1 !! c = Some conn' ∧ same_codec conn conn').
  { intros w1 ->. by exists conn. }
  unfold onMessage. destruct (wires w !! c) as [x|]; [|by apply Hsame].
  destruct (negb (truthy_str _)).
  - destruct (negb (opcode =? 1)); [apply Hclose; by rewrite emit_conns|].
    destruct (JSON_parse _) as [obj|]; [|apply Hclose; by rewrite emit_conns].
    destruct (invalid_hello_fields obj); [apply Hclose; by rewrite emit_conns|].
    cbv zeta. destruct (_ && _); [apply Hclose|apply Hsame]; by rewrite emit_conns.
  - destruct (negb _); apply Hsame; [done|by rewrite emit_conns].
Qed.

Lemma onData_loop_fuel (n m c : nat) (conn : WsConnection) (w : World) :
  conns w !! c = Some conn →
  Forall is_byte (_buf conn) →
  (length (_buf conn) ≤ n)%nat → (length (_buf conn) ≤ m)%nat →
  onData_loop n c w = onData_loop m c w.
Proof.
  revert m conn w. induction n as [|n IH]; intros m conn w Hc Hb Hn Hm.
  - destruct (_buf conn) eqn:Hbuf; [|simpl in Hn; lia].
    destruct m; simpl; rewrite Hc, Hbuf; done.
  - destruct m as [|m].
    { destruct (_buf conn) eqn:Hbuf; [|simpl in Hm; lia].
      simpl; rewrite Hc, Hbuf; done. }
    simpl. rewrite Hc.
    destruct (tryParseFrame _ _ _) as [|msg|op p r] eqn:Hparse; [done|done|].
    destruct (tryParseFrame_rest _ _ _ _ _ _ Hb Hparse) as [Hlen Hr].
    set (w1 := set_conns (<[c := set_buf r conn]>) w).
    assert (Hc1 : conns w1 !! c = Some (set_buf r conn)).
    { unfold w1. simpl. by rewrite lookup_insert_eq. }
    assert (Hgo : ∀ w2 conn2, conns w2 !! c = Some conn2 →
      same_codec (set_buf r conn) conn2 → onData_loop n c w2 = onData_loop m c w2).
    { intros w2 conn2 Hc2 (Hbuf2 & _). apply (IH m conn2 w2 Hc2).
      - by rewrite Hbuf2.
      - rewrite Hbuf2. simpl. lia.
      - rewrite Hbuf2. simpl. lia. }
    destruct (op =? 8); [done|].
    destruct (op =? 9).
    { destruct (socket_call_codec c
        (SockWrite (OutFrame 10 p (_maskOutgoing conn))) _ w1 Hc1) as (conn2 & Hc2 & Hs).
      by apply (Hgo _ conn2). }
    destruct (op =? 10); [by apply (Hgo _ (set_buf r conn))|].
    destruct (op =? 1).
    { destruct (onMessage_codec c op (Some (TextDecoder_decode p)) p _ w1 Hc1)
        as (conn2 & Hc2 & Hs). by apply (Hgo _ conn2). }
    destruct (op =? 2); [|done].
    destruct (onMessage_codec c op None p _ w1 Hc1) as (conn2 & Hc2 & Hs).
    by apply (Hgo _ conn2).
Qed.

(** [_onData] on a connection whose buffer and chunk are bytes gives the
    same result with any larger amount of fuel: the fuel it passes is enough. *)
Lemma _onData_fuel (extra c : nat) (conn : WsConnection) (chunk : list Z) (w : World) :
  conns w !! c = Some conn →
  Forall is_byte (_buf conn) → Forall is_byte chunk →
  _onData c chunk w
  = onData_loop (length (_buf conn ++ chunk) + extra) c
      (set_conns (<[c := set_buf (_buf conn ++ chunk) conn]>) w).
Proof.
  intros Hc Hb Hchunk. unfold _onData. rewrite Hc. cbv zeta.
  apply (onData_loop_fuel _ _ c (set_buf (_buf conn ++ chunk) conn)).
  - simpl. by rewrite lookup_insert_eq.
  - simpl. by apply Forall_app.
  - simpl. lia.
  - simpl. lia.
Qed.

End ws_fuel.

(** ** The TCP data listener *)

Section tcp_data.
Import Buffer Tcp.
Context `{Host}.

Lemma tcp_emit_error (msg : string) (w : World) :
  emit (EvError msg) w = set_emitted (λ l, l ++ [EvError msg]) w.
Proof. done. Qed.

Lemma tcp_emit_frame (p : string) (b : list Z) (w : World) :
  emit (EvFrame p b) w = set_emitted (λ l, l ++ [EvFrame p b]) w.
Proof. done. Qed.

Lemma tcp_emit_disconnection (p : string) (o : option bool) (w : World) :
  emit (EvDisconnection p o) w = set_emitted (λ l, l ++ [EvDisconnection p o]) w.
Proof. done. Qed.

Lemma readUInt32BE_app (b c : list Z) :
  4 ≤ len b → readUInt32BE (b ++ c) 0 = readUInt32BE b 0.
Proof.
  intros Hb. unfold len in Hb.
  destruct b as [|b0 [|b1 [|b2 [|b3 b]]]]; simpl in Hb; try lia. done.
Qed.

Lemma oversized_app (b c : list Z) (max : Z) :
  oversized b max → oversized (b ++ c) max.
Proof.
  intros [Hlen Hbig]. split.
  - rewrite len_app. pose proof (len_nonneg c). lia.
  - by rewrite readUInt32BE_app.
Qed.

Lemma onData_loop_oversized (fuel s : nat) (h : Handler) (w : World) :
  handlers w !! s = Some h →
  oversized (buf h) (_maxFrameBytes (tr w)) →
  onData_loop fuel s w
  = socket_call s SockDestroy (emit (EvError "TcpTransport frame too large") w).
Proof.
  intros Hh [Hlen Hbig].
  destruct fuel; simpl; rewrite Hh;
    rewrite (proj2 (Z.ltb_ge _ 4)) by lia;
    rewrite Z.gtb_ltb, (proj2 (Z.ltb_lt _ _)) by lia; done.
Qed.

Lemma onData_oversized (s : nat) (h : Handler) (chunk : list Z) (w : World) :
  handlers w !! s = Some h →
  oversized (buf h ++ chunk) (_maxFrameBytes (tr w)) →
  onData s chunk w
  = socket_call s SockDestroy
      (emit (EvError "TcpTransport frame too large")
         (set_handlers (<[s := set_buf (buf h ++ chunk) h]>) w)).
Proof.
  intros Hh Hbig. unfold onData. rewrite Hh. cbv zeta.
  apply (onData_loop_oversized _ s (set_buf (buf h ++ chunk) h)); [|done].
  simpl. by rewrite lookup_insert_eq.
Qed.

(** Once the head of a socket's buffer is oversized, every later chunk only
    repeats the error. *)
Lemma onData_oversized_forever (s : nat) (chunks : list (list Z)) (h : Handler)
    (w : World) :
  handlers w !! s = Some h →
  oversized (buf h) (_maxFrameBytes (tr w)) →
  emitted (foldl (λ w chunk, onData s chunk w) w chunks)
  = emitted w ++ replicate (length chunks) (EvError "TcpTransport frame too large").
Proof.
  revert h w. induction chunks as [|chunk chunks IH]; intros h w Hh Hbig; simpl.
  - by rewrite app_nil_r.
  - rewrite (onData_oversized s h chunk w Hh) by by apply oversized_app.
    rewrite (IH (set_buf (buf h ++ chunk) h)).
    + simpl. by rewrite <- app_assoc.
    + simpl. by rewrite lookup_insert_eq.
    + simpl. by apply oversized_app.
Qed.

(** C4: when the unit at the head of a socket's buffer declares a length
    over the ceiling, the data listener emits an [error] event, destroys the
    socket and returns; neither for that unit nor for any bytes that arrive
    later on the socket is a [frame] (or [connection]) event emitted: all the
    listener ever does again is repeat the error. *)
Theorem tcp_oversized_unit_is_fatal (fuel s : nat) (h : Handler) (w : World)
    (later : list (list Z)) :
  handlers w !! s = Some h →
  oversized (buf h) (_maxFrameBytes (tr w)) →
  let w' := onData_loop fuel s w in
  w' = socket_call s SockDestroy (emit (EvError "TcpTransport frame too large") w)
  ∧ emitted w' = emitted w ++ [EvError "TcpTransport frame too large"]
  ∧ sockets w' !! s = (λ l, l ++ [SockDestroy]) <$> sockets w !! s
  ∧ emitted (foldl (λ w chunk, onData s chunk w) w' later)
    = emitted w' ++ replicate (length later) (EvError "TcpTransport frame too large").
Proof.
  intros Hh Hbig w'. unfold w'.
  rewrite (onData_loop_oversized fuel s h w Hh Hbig).
  split; [done|]. split; [done|]. split.
  - simpl. by rewrite lookup_alter_eq.
  - by apply (onData_oversized_forever s later h).
Qed.

End tcp_data.

Section tcp_data_witness.
Import Buffer Tcp.
#[local] Existing Instance example_host.

(** An accepted socket whose buffer starts with the prefix 00 20 00 00
    (2 MiB) under the default ceiling of 1 MiB; two more chunks follow. *)
Lemma tcp_oversized_unit_is_fatal_witness :
  let w := set_handlers (<[0%nat := MkHandler false [0; 0x20; 0; 0; 1] None false]>)
             (run (tcp_node "A" (Some 0)) [Start; Accept]) in
  let w' := onData_loop 5 0 w in
  emitted w' = emitted w ++ [EvError "TcpTransport frame too large"]
  ∧ emitted (foldl (λ w chunk, onData 0 chunk w) w' [[1; 2]; encodeFrame [7]])
    = emitted w' ++ replicate 2 (EvError "TcpTransport frame too large").
Proof.
  intros w w'.
  assert (Hh : handlers w !! 0%nat = Some (MkHandler false [0; 0x20; 0; 0; 1] None false))
    by (vm_compute; reflexivity).
  assert (Hbig : oversized [0; 0x20; 0; 0; 1] (_maxFrameBytes (tr w))).
  { split; vm_compute; [discriminate|reflexivity]. }
  destruct (tcp_oversized_unit_is_fatal 5 0 _ w [[1; 2]; encodeFrame [7]] Hh Hbig)
    as (_ & He & _ & Hlater).
  split; [exact He|exact Hlater].
Defined.

(** The TCP backend on the input on which the WebSocket backend goes on after
    an invalid hello: three units in one chunk, "x", the hello of "B", and a
    data unit. The first unit is answered with an [error] event and
    [destroy()], and the listener returns: nothing is registered, nothing
    else emitted, and the destroyed socket delivers nothing more. *)
Example tcp_invalid_hello_ends_the_connection :
  let chunk := encodeFrame (ascii_bytes "x")
               ++ encodeFrame (ascii_bytes (hello_text "B")) ++ encodeFrame [1; 2; 3] in
  let w := run (tcp_node "A" (Some 0)) [Start; Accept; Data 0 chunk] in
  emitted w = [EvError "TcpTransport invalid hello"]
  ∧ _peers (tr w) = ∅
  ∧ destroyed 0 w = true
  ∧ step w (Data 0 (encodeFrame (ascii_bytes (hello_text "B")))) = w.
Proof. vm_compute. done. Qed.

(** A session: hello, two data units split over three chunks, then the end
    of the connection, signalled twice. *)
Example tcp_session :
  let hello := encodeFrame (ascii_bytes (hello_text "B")) in
  let w := run (tcp_node "A" (Some 0))
    [Start; Accept; Data 0 (hello ++ [0; 0]); Data 0 [0; 2; 7; 8; 0; 0; 0];
     Data 0 [1; 9]; End 0; Close 0] in
  emitted w = [EvConnection "B" false None; EvFrame "B" [7; 8]; EvFrame "B" [9];
               EvDisconnection "B" None]
  ∧ _peers (tr w) = ∅.
Proof. vm_compute. done. Qed.

End tcp_data_witness.

(** ** The peer registry of the TCP transport *)

Section tcp_registry.
Import Buffer Tcp.
Context `{Host}.

Lemma onConn_frame (p : string) (d : Dial) (w : World) :
  let w' := (onConn p d w).1 in
  tr w' = tr w ∧ handlers w' = handlers w ∧ emitted w' = emitted w
  ∧ next w' = next w ∧ dials w' = dials w
  ∧ ∀ s', _peers (tr w) !! p ≠ Some s' → sockets w' !! s' = sockets w !! s'.
Proof.
  unfold onConn. destruct (d_done d); [done|].
  case_bool_decide as Hp; simpl; [|done].
  destruct (_ && _); simpl; [|done].
  repeat split. intros s' Hs'. apply lookup_alter_ne. congruence.
Qed.

Lemma run_onConn_frame (p : string) (ds : list Dial) (w : World) :
  let w' := (run_onConn p ds w).1 in
  tr w' = tr w ∧ handlers w' = handlers w ∧ emitted w' = emitted w
  ∧ next w' = next w ∧ dials w' = dials w
  ∧ ∀ s', _peers (tr w) !! p ≠ Some s' → sockets w' !! s' = sockets w !! s'.
Proof.
  revert w. induction ds as [|d ds IH]; intros w; simpl; [done|].
  pose proof (onConn_frame p d w) as Hd.
  destruct (onConn p d w) as [w1 d1]. simpl in Hd.
  specialize (IH w1). destruct (run_onConn p ds w1) as [w2 ds2]. simpl in *.
  destruct Hd as (Ht & Hh & He & Hn & Hds & Hs).
  destruct IH as (Ht' & Hh' & He' & Hn' & Hds' & Hs').
  rewrite Ht in Hs'.
  repeat split; try congruence.
  intros s' Hs''. rewrite Hs', Hs; done.
Qed.

Lemma emit_connection_frame (p : string) (o : bool) (u : option string) (w : World) :
  let w' := emit (EvConnection p o u) w in
  tr w' = tr w ∧ handlers w' = handlers w
  ∧ emitted w' = emitted w ++ [EvConnection p o u]
  ∧ next w' = next w
  ∧ ∀ s', _peers (tr w) !! p ≠ Some s' → sockets w' !! s' = sockets w !! s'.
Proof.
  unfold emit.
  pose proof (run_onConn_frame p (dials (set_emitted (λ l, l ++ [EvConnection p o u]) w))
    (set_emitted (λ l, l ++ [EvConnection p o u]) w)) as Hr.
  destruct (run_onConn _ _ _) as [w1 ds1]. simpl in *.
  destruct Hr as (Ht & Hh & He & Hn & _ & Hs). done.
Qed.

Lemma len_writeUInt32BE (v : Z) : len (writeUInt32BE v) = 4.
Proof. done. Qed.

Lemma encodeFrame_eq (payload : list Z) :
  len payload < 2 ^ 32 → encodeFrame payload = writeUInt32BE (len payload) ++ payload.
Proof.
  intros Hlen. unfold encodeFrame, toUint32.
  pose proof (len_nonneg payload).
  rewrite Z.mod_small by lia. unfold len. rewrite Nat2Z.id.
  by rewrite firstn_all.
Qed.

(** A valid hello as the first unit of a socket registers the socket under
    the announced peer id; no other socket is touched. *)
Lemma onData_hello (s : nat) (h : Handler) (payload : list Z) (obj : json)
    (w : World) :
  handlers w !! s = Some h →
  buf h = [] →
  truthy_str (remotePeerId h) = false →
  len payload ≤ _maxFrameBytes (tr w) →
  len payload < 2 ^ 32 →
  JSON_parse (TextDecoder_decode payload) = Some obj →
  invalid_hello_fields obj = false →
  let p := hello_peerId obj in
  let w' := onData s (encodeFrame payload) w in
  _peers (tr w') = <[p := s]> (_peers (tr w))
  ∧ emitted w' = emitted w ++ [EvConnection p (outbound h) None]
  ∧ handlers w' = <[s := MkHandler (outbound h) [] (Some p) (closed h)]> (handlers w)
  ∧ ∀ s', s' ≠ s → sockets w' !! s' = sockets w !! s'.
Proof.
  intros Hh Hbuf Hid Hmax H32 Hparse Hvalid p w'.
  unfold w', onData. rewrite Hh, Hbuf. cbv zeta. simpl app.
  rewrite encodeFrame_eq by done.
  pose proof (len_nonneg payload) as Hnn.
  assert (Hfuel : ∃ fuel, length (writeUInt32BE (len payload) ++ payload) = S (S fuel)).
  { simpl. eauto. }
  destruct Hfuel as [fuel ->].
  set (b := writeUInt32BE (len payload) ++ payload).
  assert (Hlenb : len b = 4 + len payload) by (unfold b; by rewrite len_app).
  assert (Hrd : readUInt32BE b 0 = len payload).
  { apply readUInt32BE_writeUInt32BE. lia. }
  assert (Hpay : subarray b 4 (4 + len payload) = payload).
  { pose proof (subarray_app_mid (writeUInt32BE (len payload)) payload [] 4
      (4 + len payload) eq_refl eq_refl) as Hs. by rewrite app_nil_r in Hs. }
  assert (Hrest : subarray_from b (4 + len payload) = []).
  { unfold subarray_from. apply drop_ge. unfold len in *. lia. }
  cbn [onData_loop]. cbn [handlers tr set_handlers]. rewrite lookup_insert_eq.
  cbn [buf set_buf].
  rewrite Hlenb, Hrd.
  rewrite (proj2 (Z.ltb_ge _ 4)) by lia.
  rewrite Z.gtb_ltb, (proj2 (Z.ltb_ge _ _)) by lia.
  rewrite (proj2 (Z.ltb_ge _ _)) by lia.
  rewrite Hpay, Hrest. simpl remotePeerId. rewrite Hid. simpl negb. cbv iota.
  rewrite Hparse, Hvalid. fold p.
  match goal with |- context [emit (EvConnection ?p' ?o ?u) ?w0] =>
    pose proof (emit_connection_frame p' o u w0) as He;
    cbv zeta in He; set (w1 := emit (EvConnection p' o u) w0) in *
  end.
  destruct He as (Ht & Hhd & He & Hn & Hs). clearbody w1.
  cbn [tr handlers emitted sockets set_tr set_handlers] in Ht, Hhd, He, Hs.
  assert (Hh1 : handlers w1 !! s = Some (MkHandler (outbound h) [] (Some p) (closed h))).
  { rewrite Hhd. by rewrite lookup_insert_eq. }
  destruct fuel; simpl; rewrite Hh1; simpl;
    (split; [by rewrite Ht|]); (split; [done|]);
    (split; [rewrite Hhd; by rewrite !insert_insert_eq|]);
    intros s' Hs'; apply Hs; simpl; rewrite lookup_insert_eq; congruence.
Qed.

Lemma tcp_cleanup_closed (s : nat) (h : Handler) (w : World) :
  handlers w !! s = Some h →
  ∃ h', handlers (cleanup s w) !! s = Some h' ∧ closed h' = true.
Proof.
  intros Hh. unfold cleanup. rewrite Hh.
  destruct (closed h) eqn:Hclosed; [by exists h|].
  exists (set_closed true h).
  destruct (remotePeerId h) as [p|]; simpl; [|by rewrite lookup_insert_eq].
  destruct (_ && _); simpl; by rewrite lookup_insert_eq.
Qed.

Lemma tcp_cleanup_idempotent (s : nat) (w : World) :
  cleanup s (cleanup s w) = cleanup s w.
Proof.
  destruct (handlers w !! s) as [h|] eqn:Hh.
  - destruct (tcp_cleanup_closed s h w Hh) as (h' & Hh' & Hc).
    unfold cleanup at 1. by rewrite Hh', Hc.
  - unfold cleanup. by rewrite !Hh.
Qed.

Lemma tcp_cleanup_keeps_others (s s' : nat) (q : string) (w : World) :
  _peers (tr w) !! q = Some s' → s' ≠ s →
  _peers (tr (cleanup s w)) !! q = Some s'.
Proof.
  intros Hq Hne. unfold cleanup.
  destruct (handlers w !! s) as [h|]; [|done].
  destruct (closed h); [done|].
  destruct (remotePeerId h) as [p|]; simpl; [|done].
  destruct (negb _); simpl; [|done].
  case_bool_decide as Hp; simpl; [|done].
  rewrite lookup_delete_ne; [done|]. intros ->. congruence.
Qed.

Lemma tcp_cleanup_superseded (s : nat) (h : Handler) (w : World) :
  handlers w !! s = Some h →
  (∀ p, remotePeerId h = Some p → _peers (tr w) !! p ≠ Some s) →
  _peers (tr (cleanup s w)) = _peers (tr w)
  ∧ emitted (cleanup s w) = emitted w
  ∧ sockets (cleanup s w) = sockets w.
Proof.
  intros Hh Hp. unfold cleanup. rewrite Hh.
  destruct (closed h); [done|].
  destruct (remotePeerId h) as [p|]; simpl; [|done].
  rewrite (bool_decide_eq_false_2 _ (Hp p eq_refl)), andb_false_r. done.
Qed.

End tcp_registry.

(** ** The fuel of the TCP data listener is never used up *)

Section tcp_fuel.
Import Buffer Tcp.
Context `{Host}.

Lemma tcp_onData_loop_fuel (n m s : nat) (h : Handler) (w : World) :
  handlers w !! s = Some h →
  Forall is_byte (buf h) →
  (length (buf h) ≤ n)%nat → (length (buf h) ≤ m)%nat →
  onData_loop n s w = onData_loop m s w.
Proof.
  revert m h w. induction n as [|n IH]; intros m h w Hh Hb Hn Hm.
  - destruct (buf h) eqn:Hbuf; [|simpl in Hn; lia].
    destruct m; simpl; rewrite Hh, Hbuf; done.
  - destruct m as [|m].
    { destruct (buf h) eqn:Hbuf; [|simpl in Hm; lia].
      simpl; rewrite Hh, Hbuf; done. }
    cbn [onData_loop]. rewrite Hh.
    destruct (len (buf h) <? 4); [done|].
    pose proof (readUInt32BE_nonneg (buf h) 0 Hb) as Hlen.
    set (L := readUInt32BE (buf h) 0) in *.
    destruct (L >? _); [done|].
    destruct (len (buf h) <? 4 + L) eqn:Hlt; [done|].
    apply Z.ltb_ge in Hlt. unfold len in Hlt.
    set (rest := subarray_from (buf h) (4 + L)).
    assert (Hrest : (length rest + 4 ≤ length (buf h))%nat ∧ Forall is_byte rest).
    { unfold rest, subarray_from. split; [|by apply Forall_drop].
      rewrite length_drop. lia. }
    destruct Hrest as [Hrl Hrb].
    assert (Hgo : ∀ w2 h2, handlers w2 !! s = Some h2 → buf h2 = rest →
      onData_loop n s w2 = onData_loop m s w2).
    { intros w2 h2 Hh2 Hbuf2. apply (IH m h2 w2 Hh2); rewrite Hbuf2; [done|lia|lia]. }
    cbn [remotePeerId set_buf].
    destruct (negb (truthy_str (remotePeerId h))).
    + destruct (JSON_parse _) as [obj|]; [|done].
      destruct (invalid_hello_fields obj); [done|]. cbv zeta.
      match goal with |- context [emit (EvConnection ?p ?o ?u) ?w0] =>
        pose proof (emit_connection_frame p o u w0) as He; cbv zeta in He;
        destruct He as (_ & Hhd & _)
      end.
      eapply Hgo.
      * rewrite Hhd. cbn [handlers set_tr set_handlers]. apply lookup_insert_eq.
      * done.
    + eapply Hgo.
      * rewrite tcp_emit_frame. cbn [handlers set_emitted set_handlers].
        apply lookup_insert_eq.
      * done.
Qed.

(** [onData] on a socket whose buffer and chunk are bytes gives the same
    result with any larger amount of fuel: the fuel it passes is enough. *)
Lemma tcp_onData_fuel (extra s : nat) (h : Handler) (chunk : list Z) (w : World) :
  handlers w !! s = Some h →
  Forall is_byte (buf h) → Forall is_byte chunk →
  onData s chunk w
  = onData_loop (length (buf h ++ chunk) + extra) s
      (set_handlers (<[s := set_buf (buf h ++ chunk) h]>) w).
Proof.
  intros Hh Hb Hchunk. unfold onData. rewrite Hh. cbv zeta.
  apply (tcp_onData_loop_fuel _ _ s (set_buf (buf h ++ chunk) h)).
  - simpl. by rewrite lookup_insert_eq.
  - simpl. by apply Forall_app.
  - simpl. lia.
  - simpl. lia.
Qed.

End tcp_fuel.

(** ** The peer registry on both backends *)

Section registry.
Context `{Host}.

(** C8: the registry is a map from peer ids to connections, so it holds at
    most one connection per peer id. On both backends, a valid hello on a
    new connection under a peer id that is already registered puts the new
    connection in the entry, and nothing is called on the superseded
    connection's socket (it is neither ended nor destroyed); [cleanup] run a
    second time changes nothing; and [cleanup] of a connection never removes
    an entry that maps to another connection, nor emits anything when its own
    peer id is registered to another connection. *)
Theorem registry_replace_and_cleanup :
  (* WebSocket: replacement without closing *)
  (∀ (c c_old : nat) (x : Ws.Wire) (text : string) (bytes : list Z) (obj : json)
     (w : Ws.World),
     Ws.wires w !! c = Some x →
     truthy_str (Ws.remotePeerId x) = false →
     JSON_parse text = Some obj →
     invalid_hello_fields obj = false →
     (Ws.outbound x && truthy_str (Ws._expectedPeerId (Ws.tr w))
      && negb (bool_decide (Some (hello_peerId obj) = Ws._expectedPeerId (Ws.tr w))))
       = false →
     Ws._peers (Ws.tr w) !! hello_peerId obj = Some c_old →
     let w' := Ws.onMessage c 1 (Some text) bytes w in
     Ws._peers (Ws.tr w') = <[hello_peerId obj := c]> (Ws._peers (Ws.tr w))
     ∧ Ws.conns w' = Ws.conns w
     ∧ Ws.emitted w'
       = Ws.emitted w ++ [EvConnection (hello_peerId obj) (Ws.outbound x) (Ws.uplinkHref x)])
  (* WebSocket: cleanup *)
  ∧ (∀ (c : nat) (w : Ws.World), Ws.cleanup c (Ws.cleanup c w) = Ws.cleanup c w)
  ∧ (∀ (c c' : nat) (q : string) (w : Ws.World),
       Ws._peers (Ws.tr w) !! q = Some c' → c' ≠ c →
       Ws._peers (Ws.tr (Ws.cleanup c w)) !! q = Some c')
  ∧ (∀ (c : nat) (x : Ws.Wire) (w : Ws.World),
       Ws.wires w !! c = Some x →
       (∀ p, Ws.remotePeerId x = Some p → Ws._peers (Ws.tr w) !! p ≠ Some c) →
       Ws._peers (Ws.tr (Ws.cleanup c w)) = Ws._peers (Ws.tr w)
       ∧ Ws.emitted (Ws.cleanup c w) = Ws.emitted w)
  (* TCP: replacement without closing *)
  ∧ (∀ (s s_old : nat) (h : Tcp.Handler) (payload : list Z) (obj : json)
       (w : Tcp.World),
       Tcp.handlers w !! s = Some h →
       Tcp.buf h = [] →
       truthy_str (Tcp.remotePeerId h) = false →
       Buffer.len payload ≤ Tcp._maxFrameBytes (Tcp.tr w) →
       Buffer.len payload < 2 ^ 32 →
       JSON_parse (TextDecoder_decode payload) = Some obj →
       invalid_hello_fields obj = false →
       Tcp._peers (Tcp.tr w) !! hello_peerId obj = Some s_old →
       s_old ≠ s →
       let w' := Tcp.onData s (Tcp.encodeFrame payload) w in
       Tcp._peers (Tcp.tr w') = <[hello_peerId obj := s]> (Tcp._peers (Tcp.tr w))
       ∧ Tcp.sockets w' !! s_old = Tcp.sockets w !! s_old
       ∧ Tcp.emitted w'
         = Tcp.emitted w ++ [EvConnection (hello_peerId obj) (Tcp.outbound h) None])
  (* TCP: cleanup *)
  ∧ (∀ (s : nat) (w : Tcp.World), Tcp.cleanup s (Tcp.cleanup s w) = Tcp.cleanup s w)
  ∧ (∀ (s s' : nat) (q : string) (w : Tcp.World),
       Tcp._peers (Tcp.tr w) !! q = Some s' → s' ≠ s →
       Tcp._peers (Tcp.tr (Tcp.cleanup s w)) !! q = Some s')
  ∧ (∀ (s : nat) (h : Tcp.Handler) (w : Tcp.World),
       Tcp.handlers w !! s = Some h →
       (∀ p, Tcp.remotePeerId h = Some p → Tcp._peers (Tcp.tr w) !! p ≠ Some s) →
       Tcp._peers (Tcp.tr (Tcp.cleanup s w)) = Tcp._peers (Tcp.tr w)
       ∧ Tcp.emitted (Tcp.cleanup s w) = Tcp.emitted w).
Proof.
  split; [|split; [|split; [|split; [|split; [|split; [|split]]]]]].
  - intros c c_old x text bytes obj w Hx Hid Hparse Hvalid Hexp Hold w'.
    unfold w'. rewrite (onMessage_hello c x text bytes obj w) by done.
    rewrite emit_peers, emit_conns, emit_emitted. done.
  - apply cleanup_idempotent.
  - apply cleanup_keeps_others.
  - apply cleanup_superseded.
  - intros s s_old h payload obj w Hh Hbuf Hid Hmax H32 Hparse Hvalid Hold Hne w'.
    destruct (onData_hello s h payload obj w Hh Hbuf Hid Hmax H32 Hparse Hvalid)
      as (Hp & He & _ & Hs).
    split; [done|]. split; [by apply Hs|done].
  - apply tcp_cleanup_idempotent.
  - apply tcp_cleanup_keeps_others.
  - intros s h w Hh Hp.
    destruct (tcp_cleanup_superseded s h w Hh Hp) as (? & ? & _). done.
Qed.

End registry.

Section registry_witness.
#[local] Existing Instance example_host.

(** A server with connection 0 registered as "B" and connection 1 accepted
    but not yet identified; the hello of a peer "B" arrives on connection 1. *)
Lemma registry_replace_and_cleanup_witness :
  let w := Ws.accept 1
    (Ws._onData 0 (WsCodec.buildFrame 1 (ascii_bytes (hello_text "B")) true [1; 2; 3; 4])
       (Ws.accept 0 (ws_server "A"))).1 in
  let w' := Ws.onMessage 1 1 (Some (hello_text "B")) (ascii_bytes (hello_text "B")) w in
  Ws._peers (Ws.tr w) !! "B" = Some 0%nat
  ∧ Ws._peers (Ws.tr w') = <["B" := 1%nat]> (Ws._peers (Ws.tr w))
  ∧ Ws.conns w' = Ws.conns w.
Proof.
  intros w w'. split; [by vm_compute|].
  destruct (@registry_replace_and_cleanup example_host) as (Hws & _).
  destruct (Hws 1%nat 0%nat (Ws.MkWire false None None false) (hello_text "B")
    (ascii_bytes (hello_text "B")) (hello_object "B") w) as (Hp & Hc & _);
    try reflexivity.
  split; [exact Hp|exact Hc].
Defined.

End registry_witness.

(** ** [stop()] *)

Section stop.
Context `{Host}.

Lemma ws_cleanup_empty_registry (c : nat) (w : Ws.World) :
  Ws._peers (Ws.tr w) = ∅ → Ws.emitted (Ws.cleanup c w) = Ws.emitted w.
Proof.
  intros Hp. destruct (Ws.wires w !! c) as [x|] eqn:Hx.
  - apply (cleanup_superseded c x w Hx). intros p _. by rewrite Hp, lookup_empty.
  - unfold Ws.cleanup. by rewrite Hx.
Qed.

Lemma tcp_cleanup_empty_registry (s : nat) (w : Tcp.World) :
  Tcp._peers (Tcp.tr w) = ∅ → Tcp.emitted (Tcp.cleanup s w) = Tcp.emitted w.
Proof.
  intros Hp. destruct (Tcp.handlers w !! s) as [h|] eqn:Hh.
  - apply (tcp_cleanup_superseded s h w Hh). intros p _. by rewrite Hp, lookup_empty.
  - unfold Tcp.cleanup. by rewrite Hh.
Qed.

(** What the loop of [stop()] over the registry does on the WebSocket
    backend: every registered connection gets [close()] called. *)
Lemma ws_close_all (w : Ws.World) (m : gmap string nat) :
  let r := map_fold (λ _ c w, Ws.close c w) w m in
  Ws.tr r = Ws.tr w ∧ Ws.wires r = Ws.wires w ∧ Ws.emitted r = Ws.emitted w
  ∧ Ws.waitHello r = Ws.waitHello w
  ∧ ∀ c conn, Ws.conns w !! c = Some conn →
      ∃ conn', Ws.conns r !! c = Some conn'
        ∧ Ws._maskOutgoing conn' = Ws._maskOutgoing conn
        ∧ ∀ p, m !! p = Some c →
            Ws.SockEnd (Ws.OutFrame 8 [] (Ws._maskOutgoing conn)) ∈ Ws._socket conn'.
Proof.
  apply (map_fold_weak_ind (λ r m,
    Ws.tr r = Ws.tr w ∧ Ws.wires r = Ws.wires w ∧ Ws.emitted r = Ws.emitted w
    ∧ Ws.waitHello r = Ws.waitHello w
    ∧ ∀ c conn, Ws.conns w !! c = Some conn →
        ∃ conn', Ws.conns r !! c = Some conn'
          ∧ Ws._maskOutgoing conn' = Ws._maskOutgoing conn
          ∧ ∀ p, m !! p = Some c →
              Ws.SockEnd (Ws.OutFrame 8 [] (Ws._maskOutgoing conn)) ∈ Ws._socket conn')).
  - split_and!; try done.
    all: intros c conn Hc; exists conn; split_and!; try done.
    all: intros p Hp; by rewrite lookup_empty in Hp.
  - intros p c m' r Hfresh (Ht & Hw & He & Hwh & Hconns).
    split_and!; try done.
    intros c' conn Hc'. destruct (Hconns c' conn Hc') as (conn' & Hc'' & Hmask & Hend).
    unfold Ws.close, Ws.socket_call, Ws.mask_of. simpl.
    destruct (decide (c = c')) as [->|Hne].
    + rewrite lookup_alter_eq, Hc''. simpl. eexists. split; [done|]. split; [done|].
      intros p' _. simpl. rewrite Hmask. set_solver.
    + rewrite lookup_alter_ne by done. exists conn'. split_and!; try done.
      intros p' Hp'. apply (Hend p'). rewrite lookup_insert_ne in Hp'; [done|].
      intros ->. rewrite lookup_insert_eq in Hp'. congruence.
Qed.

Lemma ws_stop_spec (w : Ws.World) :
  let w' := Ws.stop w in
  Ws._peers (Ws.tr w') = ∅
  ∧ Ws._uplink (Ws.tr w') = None ∧ Ws._uplinkPeerId (Ws.tr w') = None
  ∧ Ws._started (Ws.tr w') = false
  ∧ Ws.emitted w' = Ws.emitted w
  ∧ ∀ p c conn, Ws._peers (Ws.tr w) !! p = Some c → Ws.conns w !! c = Some conn →
      ∃ conn', Ws.conns w' !! c = Some conn'
        ∧ Ws.SockEnd (Ws.OutFrame 8 [] (Ws._maskOutgoing conn)) ∈ Ws._socket conn'.
Proof.
  unfold Ws.stop. cbv zeta.
  pose proof (ws_close_all (Ws.set_tr (Ws.set_started false) w)
    (Ws._peers (Ws.tr (Ws.set_tr (Ws.set_started false) w)))) as Hall.
  cbv zeta in Hall.
  set (r := map_fold _ _ _) in *. clearbody r.
  destruct Hall as (Ht & Hw & He & Hwh & Hconns).
  destruct r as [t cs ws wh em]. simpl in *. subst.
  destruct (Ws._uplink (Ws.tr w)) as [u|] eqn:Hu; simpl; rewrite ?Hu; simpl;
    (split_and!; try done);
    intros p c conn Hp Hc; destruct (Hconns c conn Hc) as (conn' & Hc' & Hm & Hend).
  - unfold Ws.mask_of. simpl. destruct (decide (u = c)) as [->|Hne].
    + rewrite lookup_alter_eq, Hc'. simpl. eexists. split; [done|].
      simpl. specialize (Hend p Hp). set_solver.
    + rewrite lookup_alter_ne by done. eauto.
  - eauto.
Qed.

(** The same loop on the TCP backend: every registered socket is destroyed. *)
Lemma tcp_destroy_all (w : Tcp.World) (m : gmap string nat) :
  let r := map_fold (λ _ s w, Tcp.socket_call s Tcp.SockDestroy w) w m in
  Tcp.tr r = Tcp.tr w ∧ Tcp.handlers r = Tcp.handlers w
  ∧ Tcp.emitted r = Tcp.emitted w ∧ Tcp.dials r = Tcp.dials w
  ∧ Tcp.next r = Tcp.next w
  ∧ ∀ s l, Tcp.sockets w !! s = Some l →
      ∃ l', Tcp.sockets r !! s = Some l'
        ∧ ∀ p, m !! p = Some s → existsb Tcp.is_destroy l' = true.
Proof.
  apply (map_fold_weak_ind (λ r m,
    Tcp.tr r = Tcp.tr w ∧ Tcp.handlers r = Tcp.handlers w
    ∧ Tcp.emitted r = Tcp.emitted w ∧ Tcp.dials r = Tcp.dials w
    ∧ Tcp.next r = Tcp.next w
    ∧ ∀ s l, Tcp.sockets w !! s = Some l →
        ∃ l', Tcp.sockets r !! s = Some l'
          ∧ ∀ p, m !! p = Some s → existsb Tcp.is_destroy l' = true)).
  - split_and!; try done.
    all: intros s l Hs; exists l; split; [done|].
    all: intros p Hp; by rewrite lookup_empty in Hp.
  - intros p s m' r Hfresh (Ht & Hh & He & Hd & Hn & Hsocks).
    split_and!; try done.
    intros s' l Hs'. destruct (Hsocks s' l Hs') as (l' & Hl' & Hdes).
    unfold Tcp.socket_call. simpl.
    destruct (decide (s = s')) as [->|Hne].
    + rewrite lookup_alter_eq, Hl'. simpl. eexists. split; [done|].
      intros _ _. rewrite existsb_app. simpl. by rewrite orb_true_r.
    + rewrite lookup_alter_ne by done. exists l'. split; [done|].
      intros p' Hp'. apply (Hdes p'). rewrite lookup_insert_ne in Hp'; [done|].
      intros ->. rewrite lookup_insert_eq in Hp'. congruence.
Qed.

Lemma tcp_stop_spec (w : Tcp.World) :
  Tcp._started (Tcp.tr w) = true →
  let w' := Tcp.stop w in
  Tcp._peers (Tcp.tr w') = ∅ ∧ Tcp._dialing (Tcp.tr w') = ∅
  ∧ Tcp._started (Tcp.tr w') = false
  ∧ Tcp.emitted w' = Tcp.emitted w
  ∧ ∀ p s, Tcp._peers (Tcp.tr w) !! p = Some s → is_Some (Tcp.sockets w !! s) →
      Tcp.destroyed s w' = true.
Proof.
  intros Hstarted. unfold Tcp.stop. rewrite Hstarted. cbv zeta. simpl negb. cbv iota.
  pose proof (tcp_destroy_all (Tcp.set_tr (Tcp.set_started false) w)
    (Tcp._peers (Tcp.tr (Tcp.set_tr (Tcp.set_started false) w)))) as Hall.
  cbv zeta in Hall.
  set (r := map_fold _ _ _) in *. clearbody r.
  destruct Hall as (Ht & Hh & He & Hd & Hn & Hsocks).
  destruct r as [t ss hs ds em nx]. simpl in *. subst.
  split_and!; try done.
  intros p s Hp [l Hl]. destruct (Hsocks s l Hl) as (l' & Hl' & Hdes).
  unfold Tcp.destroyed. simpl. rewrite Hl'. simpl. by apply (Hdes p).
Qed.

End stop.

Section stop_theorem.
Context `{Host}.

(** C7, amended: when [stop()] has run its synchronous part (on the TCP
    backend: of a [stop()] called while started; one called while not started
    returns at once and changes nothing), the peer registry is empty, the dial
    ledger is empty, nothing has been emitted, every connection that was
    registered has been closed (WebSocket: [close()], which ends the socket
    after a close frame; TCP: [destroy()], after which the socket delivers no
    data), and the close signal of any connection then emits no
    [disconnection]. This is the state in which [stop()] returns exactly when
    no server was listening; with a listening server [stop()] then awaits the
    server's close callback. Events as such are not switched off by
    [stop()]. *)
Theorem stop_empties_registry_and_ledger :
  (∀ w : Ws.World,
     let w' := (ws_stop_call w).1 in
     ((ws_stop_call w).2 = StopReturned ↔ Ws._httpServer (Ws.tr w) = false)
     ∧ Ws._peers (Ws.tr w') = ∅
     ∧ Ws._uplink (Ws.tr w') = None ∧ Ws._uplinkPeerId (Ws.tr w') = None
     ∧ Ws._started (Ws.tr w') = false
     ∧ Ws.emitted w' = Ws.emitted w
     ∧ (∀ p c conn,
          Ws._peers (Ws.tr w) !! p = Some c → Ws.conns w !! c = Some conn →
          ∃ conn', Ws.conns w' !! c = Some conn'
            ∧ Ws.SockEnd (Ws.OutFrame 8 [] (Ws._maskOutgoing conn)) ∈ Ws._socket conn')
     ∧ (∀ c, Ws.emitted (Ws.cleanup c w') = Ws.emitted w'))
  ∧ (∀ w : Tcp.World,
       Tcp._started (Tcp.tr w) = true →
       let w' := (tcp_stop_call w).1 in
       ((tcp_stop_call w).2 = StopReturned ↔ Tcp._server (Tcp.tr w) = false)
       ∧ Tcp._peers (Tcp.tr w') = ∅ ∧ Tcp._dialing (Tcp.tr w') = ∅
       ∧ Tcp._started (Tcp.tr w') = false
       ∧ Tcp.emitted w' = Tcp.emitted w
       ∧ (∀ p s chunk,
            Tcp._peers (Tcp.tr w) !! p = Some s → is_Some (Tcp.sockets w !! s) →
            Tcp.destroyed s w' = true ∧ Tcp.handle (Tcp.Data s chunk) w' = w')
       ∧ (∀ s, Tcp.emitted (Tcp.handle (Tcp.End s) w') = Tcp.emitted w'
               ∧ Tcp.emitted (Tcp.handle (Tcp.Close s) w') = Tcp.emitted w'))
  ∧ (∀ w : Tcp.World,
       Tcp._started (Tcp.tr w) = false → tcp_stop_call w = (w, StopReturned)).
Proof.
  split_and!.
  - intros w w'. destruct (ws_stop_spec w) as (Hp & Hu & Hup & Hs & He & Hc).
    unfold w', ws_stop_call. cbn [fst snd].
    split_and!; try done.
    + by destruct (Ws._httpServer (Ws.tr w)).
    + intros c. by apply ws_cleanup_empty_registry.
  - intros w Hstarted w'.
    destruct (tcp_stop_spec w Hstarted) as (Hp & Hd & Hs & He & Hdes).
    unfold w', tcp_stop_call. rewrite Hstarted. cbn [negb fst snd].
    split_and!; try done.
    + by destruct (Tcp._server (Tcp.tr w)).
    + intros p s chunk Hps Hsock. specialize (Hdes p s Hps Hsock).
      split; [done|]. unfold Tcp.handle. by rewrite Hdes.
    + intros s. split; simpl.
      * by apply tcp_cleanup_empty_registry.
      * unfold Tcp.onClose. by rewrite tcp_cleanup_empty_registry.
  - intros w Hstarted. unfold tcp_stop_call. by rewrite Hstarted.
Qed.

End stop_theorem.

Section stop_examples.
Import WsCodec.
#[local] Existing Instance example_host.

(** Events after [stop()] has returned, on transports without a listening
    server, where [stop()] returns at the end of its synchronous part.
    WebSocket: a client whose uplink has completed the wire handshake but
    has not yet received the hello; [stop()] calls [close()] on the uplink,
    which ends the write side only, and the hello that arrives afterwards
    registers the peer and emits [connection], and a binary frame behind it
    is emitted as [frame].
    TCP: a started transport with a dial attempt whose socket has connected
    but not yet received the hello; that socket is not in the registry, so
    [stop()] does not destroy it, and its hello afterwards registers the
    peer, emits [connection] and lets the waiting [send] write its payload. *)
Lemma events_fire_after_stop :
  (let w1 := Ws._startClient_connected 0 "ws://relay:80/"
       (ws_client "A" "ws://relay:80/" None) in
   let w2 := (ws_stop_call w1).1 in
   let w3 := (Ws._onData 0
       (buildFrame 1 (ascii_bytes (hello_text "B")) false []) w2).1 in
   let w4 := (Ws._onData 0 (buildFrame 2 [1; 2; 3] false []) w3).1 in
   (ws_stop_call w1).2 = StopReturned
   ∧ Ws._peers (Ws.tr w2) = ∅
   ∧ Ws.emitted w2 = []
   ∧ (Ws._socket <$> Ws.conns w2 !! 0%nat)
     = Some [Ws.SockWrite (Ws.OutFrame 1 (ascii_bytes (hello_text "A")) true);
             Ws.SockEnd (Ws.OutFrame 8 [] true)]
   ∧ Ws.emitted w3 = [EvConnection "B" true (Some "ws://relay:80/")]
   ∧ Ws._peers (Ws.tr w3) !! "B" = Some 0%nat
   ∧ Ws.emitted w4 = Ws.emitted w3 ++ [EvFrame "B" [1; 2; 3]])
  ∧ (let t1 := Tcp.run (tcp_node "A" None)
       [Tcp.Start; Tcp.Send "tcp://relay:9000" [7] None; Tcp.Connected 0] in
     let t2 := (tcp_stop_call t1).1 in
     let t3 := Tcp.step t2
       (Tcp.Data 0 (Tcp.encodeFrame (ascii_bytes (hello_text "B")))) in
     Tcp._started (Tcp.tr t1) = true
     ∧ (tcp_stop_call t1).2 = StopReturned
     ∧ Tcp._peers (Tcp.tr t2) = ∅ ∧ Tcp._dialing (Tcp.tr t2) = ∅
     ∧ Tcp.emitted t2 = []
     ∧ Tcp.destroyed 0 t2 = false
     ∧ Tcp.emitted t3 = [EvConnection "B" true None]
     ∧ Tcp._peers (Tcp.tr t3) !! "B" = Some 0%nat
     ∧ Tcp.sockets t3 !! 0%nat
       = Some [Tcp.SockWrite (Tcp.encodeFrame (ascii_bytes (hello_text "A")));
               Tcp.SockWrite (Tcp.encodeFrame [7])]).
Proof. vm_compute. done. Qed.

(** With a listening server [stop()] has not returned while a connection
    the server accepted is open, and what arrives on such a connection during
    the wait is handled as ever. WebSocket: a registered connection is only
    half-closed, and a binary frame on it is emitted as [frame]. TCP: a socket
    that was accepted but not yet identified is not destroyed, and its hello
    registers the peer and emits [connection]. *)
Example events_fire_while_stop_waits :
  (let w1 := (Ws._onData 0
       (buildFrame 1 (ascii_bytes (hello_text "B")) true [5; 6; 7; 8])
       (Ws.accept 0 (ws_server "A"))).1 in
   let w2 := (ws_stop_call w1).1 in
   let w3 := (Ws._onData 0 (buildFrame 2 [1; 2; 3] true [9; 10; 11; 12]) w2).1 in
   (ws_stop_call w1).2 = StopAwaitsServerClose
   ∧ Ws._peers (Ws.tr w2) = ∅
   ∧ Ws.emitted w3 = Ws.emitted w2 ++ [EvFrame "B" [1; 2; 3]])
  ∧ (let t1 := Tcp.run (tcp_node "A" (Some 0)) [Tcp.Start; Tcp.Accept] in
     let t2 := (tcp_stop_call t1).1 in
     let t3 := Tcp.step t2
       (Tcp.Data 0 (Tcp.encodeFrame (ascii_bytes (hello_text "B")))) in
     (tcp_stop_call t1).2 = StopAwaitsServerClose
     ∧ Tcp.emitted t3 = Tcp.emitted t2 ++ [EvConnection "B" false None]
     ∧ Tcp._peers (Tcp.tr t3) !! "B" = Some 0%nat).
Proof. vm_compute. done. Qed.

Lemma stop_empties_registry_and_ledger_witness :
  let w := Tcp.run (tcp_node "A" None)
    [Tcp.Start; Tcp.Send "tcp://relay:9000" [7] None; Tcp.Connected 0;
     Tcp.Data 0 (Tcp.encodeFrame (ascii_bytes (hello_text "B")))] in
  Tcp._peers (Tcp.tr w) !! "B" = Some 0%nat
  ∧ (tcp_stop_call w).2 = StopReturned
  ∧ Tcp._peers (Tcp.tr (tcp_stop_call w).1) = ∅
  ∧ Tcp._dialing (Tcp.tr (tcp_stop_call w).1) = ∅
  ∧ Tcp.destroyed 0 (tcp_stop_call w).1 = true.
Proof.
  intros w. split; [by vm_compute|].
  destruct (@stop_empties_registry_and_ledger example_host) as (_ & Htcp & _).
  destruct (Htcp w eq_refl) as (Hret & Hp & Hd & _ & _ & Hdes & _).
  split; [by apply Hret|]. split; [exact Hp|]. split; [exact Hd|].
  assert (Hreg : Tcp._peers (Tcp.tr w) !! "B" = Some 0%nat) by by vm_compute.
  assert (Hsock : is_Some (Tcp.sockets w !! 0%nat)) by (vm_compute; eauto).
  exact (proj1 (Hdes "B" 0%nat [] Hreg Hsock)).
Defined.

End stop_examples.

(** ** The dial ledger *)

Section dial_examples.
Import Tcp.
#[local] Existing Instance example_host.

Example parseTcpTarget_host_port :
  parseTcpTarget "relay:9000" = Target "relay" 9000
  ∧ parseTcpTarget "tcp://relay:9000" = Target "relay" 9000
  ∧ dial_key "relay" 9000 = "tcp://relay:9000"
  ∧ parseTcpTarget "relay" = TargetNull
  ∧ parseTcpTarget "relay:0" = TargetThrows "Invalid host:port target".
Proof. vm_compute. done. Qed.

(** Two sends to one address share one attempt: one socket, one ledger
    entry, both payloads written once the attempt resolves, and the entry
    gone by then. *)
Example two_sends_one_socket :
  let w := run (tcp_node "A" None)
    [Start; Send "relay:9000" [1] None; Send "tcp://relay:9000" [2] None] in
  let w' := run w
    [Connected 0; Data 0 (encodeFrame (ascii_bytes (hello_text "B")))] in
  next w = 1%nat
  ∧ _dialing (tr w) !! "tcp://relay:9000" = Some 0%nat
  ∧ _dialing (tr w') !! "tcp://relay:9000" = None
  ∧ sockets w' !! 0%nat
    = Some [SockWrite (encodeFrame (ascii_bytes (hello_text "A")));
            SockWrite (encodeFrame [1]); SockWrite (encodeFrame [2])]
  ∧ emitted w' = [EvConnection "B" true None].
Proof. vm_compute. done. Qed.

(** [stop()] clears the ledger while the first attempt is still in flight:
    the next send to the same address opens a second socket, and when the
    first attempt is rejected its [finally] removes the ledger entry of the
    second, so that a third send opens a third socket although the second
    attempt is pending. A peer that identifies as "relay:9000" takes over the
    sends addressed to [relay:9000] while the dial to that address is
    pending. *)
Lemma sends_do_not_share_after_stop :
  (let w := run (tcp_node "A" None)
     [Start; Send "relay:9000" [1] None; Stop; Start; Send "relay:9000" [2] None] in
   let w' := run w [Error 0 "ECONNREFUSED"; Send "relay:9000" [3] None] in
   d_key <$> dials w = ["tcp://relay:9000"; "tcp://relay:9000"]
   ∧ d_promise <$> dials w = [Pending; Pending]
   ∧ d_socket <$> dials w = [0; 1]%nat
   ∧ d_promise <$> dials w' = [Rejected "ECONNREFUSED"; Pending; Pending]
   ∧ d_socket <$> dials w' = [0; 1; 2]%nat)
  ∧ (let w := run (tcp_node "A" (Some 0))
       [Start; Send "relay:9000" [1] None; Accept;
        Data 1 (encodeFrame (ascii_bytes (hello_text "relay:9000")));
        Send "relay:9000" [2] None] in
     d_promise <$> dials w = [Pending]
     ∧ d_waiters <$> dials w = [[[1]]]
     ∧ sockets w !! 1%nat
       = Some [SockWrite (encodeFrame (ascii_bytes (hello_text "A")));
               SockWrite (encodeFrame [2])]).
Proof. vm_compute. done. Qed.

End dial_examples.

Section dial_ledger.
Import Tcp.
Context `{Host}.

Lemma evolves_refl (d : Dial) : evolves d d.
Proof. done. Qed.

Lemma evolves_trans (d1 d2 d3 : Dial) : evolves d1 d2 → evolves d2 d3 → evolves d1 d3.
Proof.
  intros (? & ? & ? & ?) (? & ? & ? & ?). unfold evolves.
  split_and!; try congruence. auto.
Qed.

Lemma Forall2_evolves_refl (ds : list Dial) : Forall2 evolves ds ds.
Proof. induction ds; constructor; auto using evolves_refl. Qed.

Lemma Forall2_evolves_trans (ds1 ds2 ds3 : list Dial) :
  Forall2 evolves ds1 ds2 → Forall2 evolves ds2 ds3 → Forall2 evolves ds1 ds3.
Proof.
  intros H12. revert ds3. induction H12; intros ds3 H23; inversion H23; subst;
    constructor; eauto using evolves_trans.
Qed.

Lemma Forall2_evolves_fmap (f : Dial → Dial) (ds : list Dial) :
  (∀ d, evolves d (f d)) → Forall2 evolves ds (f <$> ds).
Proof. intros Hf. induction ds; simpl; constructor; auto. Qed.

Lemma quiet_refl (w : World) : quiet w w.
Proof. split_and!; auto using Forall2_evolves_refl. Qed.

(** Worlds that differ in none of the three. *)
Ltac quiet_id :=
  split_and!; simpl; [apply Forall2_evolves_refl|reflexivity|lia].

Lemma quiet_trans (w1 w2 w3 : World) : quiet w1 w2 → quiet w2 w3 → quiet w1 w3.
Proof.
  intros (? & ? & ?) (? & ? & ?). split_and!; [|congruence|lia].
  eauto using Forall2_evolves_trans.
Qed.

Lemma onConn_evolves (p : string) (d : Dial) (w : World) :
  evolves d (onConn p d w).2.
Proof.
  unfold onConn. destruct (d_done d); [done|].
  destruct (negb _); [done|]. destruct (_ && _); simpl; done.
Qed.

Lemma run_onConn_evolves (p : string) (ds : list Dial) (w : World) :
  Forall2 evolves ds (run_onConn p ds w).2.
Proof.
  revert w. induction ds as [|d ds IH]; intros w; simpl; [constructor|].
  pose proof (onConn_evolves p d w) as Hd.
  destruct (onConn p d w) as [w1 d1]. specialize (IH w1).
  destruct (run_onConn p ds w1) as [w2 ds2]. simpl in *. by constructor.
Qed.

Lemma emit_quiet (e : event) (w : World) : quiet w (emit e w).
Proof.
  unfold emit. destruct e as [p o u| | |]; try quiet_id.
  pose proof (run_onConn_evolves p (dials (set_emitted (λ l, l ++ [EvConnection p o u]) w))
    (set_emitted (λ l, l ++ [EvConnection p o u]) w)) as Hev.
  pose proof (run_onConn_frame p (dials (set_emitted (λ l, l ++ [EvConnection p o u]) w))
    (set_emitted (λ l, l ++ [EvConnection p o u]) w)) as Hfr.
  destruct (run_onConn _ _ _) as [w1 ds1]. simpl in *.
  destruct Hfr as (Ht & _ & _ & Hn & _ & _).
  split_and!; simpl; [done|by rewrite Ht|lia].
Qed.

Lemma socket_call_quiet (s : nat) (k : sock_call) (w : World) :
  quiet w (socket_call s k w).
Proof. quiet_id. Qed.

Lemma set_handlers_quiet f (w : World) : quiet w (set_handlers f w).
Proof. quiet_id. Qed.

Lemma set_peers_quiet f (w : World) : quiet w (set_tr (set_peers f) w).
Proof. quiet_id. Qed.

Lemma cleanup_quiet (s : nat) (w : World) : quiet w (cleanup s w).
Proof.
  unfold cleanup. destruct (handlers w !! s) as [h|]; [|quiet_id].
  destruct (closed h); [quiet_id|].
  destruct (remotePeerId h) as [p|]; cbv zeta; [|quiet_id].
  destruct (_ && _); quiet_id.
Qed.

Lemma onData_loop_quiet (fuel s : nat) (w : World) : quiet w (onData_loop fuel s w).
Proof.
  revert w. induction fuel as [|fuel IH]; intros w; cbn [onData_loop].
  - destruct (handlers w !! s) as [h|]; [|quiet_id].
    destruct (_ <? 4); [quiet_id|].
    destruct (_ >? _); [quiet_id|].
    destruct (_ <? _); quiet_id.
  - destruct (handlers w !! s) as [h|]; [|quiet_id].
    destruct (_ <? 4); [quiet_id|].
    destruct (_ >? _); [quiet_id|].
    destruct (_ <? _); [quiet_id|].
    destruct (negb _).
    + destruct (JSON_parse _) as [obj|]; [|quiet_id].
      destruct (invalid_hello_fields obj); [quiet_id|].
      eapply quiet_trans; [|apply IH]. 
      eapply quiet_trans; [|apply emit_quiet]. quiet_id.
    + eapply quiet_trans; [|apply IH]. quiet_id.
Qed.

Lemma onData_quiet (s : nat) (chunk : list Z) (w : World) : quiet w (onData s chunk w).
Proof.
  unfold onData. destruct (handlers w !! s) as [h|]; [|quiet_id].
  cbv zeta. eapply quiet_trans; [|apply onData_loop_quiet]. quiet_id.
Qed.

Lemma dial_reject_quiet (s : nat) (err : string) (w : World) :
  quiet w (dial_reject s err w).
Proof.
  split_and!; [|done|done]. simpl. apply Forall2_evolves_fmap.
  intros d. destruct (_ && _); [|done]. done.
Qed.

Lemma onError_quiet (s : nat) (err : string) (w : World) : quiet w (onError s err w).
Proof.
  unfold onError. cbv zeta.
  destruct (handlers _ !! s); [|apply dial_reject_quiet].
  eapply quiet_trans; [apply dial_reject_quiet|quiet_id].
Qed.

Lemma onClose_quiet (s : nat) (w : World) : quiet w (onClose s w).
Proof.
  unfold onClose. eapply quiet_trans; [apply dial_reject_quiet|apply cleanup_quiet].
Qed.

(** *** The invariant, piece by piece *)

Lemma dial_invariant_split (w : World) :
  dial_invariant w ↔
  ledger_inv w ∧ settled_if_final (dials w) ∧ pending_if_not_final (dials w).
Proof.
  unfold dial_invariant, ledger_inv, ledger_ok, settled_if_final,
    pending_if_not_final, in_flight.
  split.
  - intros (Hnd & Hb & Hl & Hp). split_and!; try done.
    + intros d Hd Hf Hpend. apply (Hp d Hd) in Hpend. congruence.
    + intros d Hd Hf. by apply (Hp d Hd).
  - intros ((Hnd & Hb & Hl) & HR & HQ). split_and!; try done.
    intros d Hd. split; [|by apply HQ].
    intros Hpend. destruct (d_finally d) eqn:Hf; [|done].
    by destruct (HR d Hd Hf).
Qed.

Lemma Forall2_evolves_elem_r (ds ds' : list Dial) (d' : Dial) :
  Forall2 evolves ds ds' → d' ∈ ds' → ∃ d, d ∈ ds ∧ evolves d d'.
Proof.
  intros Hev Hd'. apply list_elem_of_lookup in Hd' as [i Hi].
  destruct (Forall2_lookup_r _ _ _ _ _ Hev Hi) as (d & Hd & He).
  exists d. split; [|done]. by eapply list_elem_of_lookup_2.
Qed.

Lemma Forall2_evolves_elem_l (ds ds' : list Dial) (d : Dial) :
  Forall2 evolves ds ds' → d ∈ ds → ∃ d', d' ∈ ds' ∧ evolves d d'.
Proof.
  intros Hev Hd. apply list_elem_of_lookup in Hd as [i Hi].
  destruct (Forall2_lookup_l _ _ _ _ _ Hev Hi) as (d' & Hd' & He).
  exists d'. split; [|done]. by eapply list_elem_of_lookup_2.
Qed.

Lemma Forall2_evolves_sockets (ds ds' : list Dial) :
  Forall2 evolves ds ds' → d_socket <$> ds' = d_socket <$> ds.
Proof.
  induction 1 as [|d d' ds ds' Hd _ IH]; [done|].
  rewrite !fmap_cons, IH. by destruct Hd as (-> & _).
Qed.

Lemma quiet_ledger_inv (w w' : World) : quiet w w' → ledger_inv w → ledger_inv w'.
Proof.
  intros (Hev & Hl & Hn) (Hnd & Hb & Hok). split_and!.
  - by rewrite (Forall2_evolves_sockets _ _ Hev).
  - intros d' Hd'. destruct (Forall2_evolves_elem_r _ _ _ Hev Hd') as (d & Hd & Hs & _).
    specialize (Hb d Hd). lia.
  - intros k s. rewrite Hl, (Hok k s). split.
    + intros (d & Hd & Hs & Hk & Hf).
      destruct (Forall2_evolves_elem_l _ _ _ Hev Hd) as (d' & Hd' & Hs' & Hk' & Hf' & _).
      exists d'. split_and!; congruence.
    + intros (d' & Hd' & Hs & Hk & Hf).
      destruct (Forall2_evolves_elem_r _ _ _ Hev Hd') as (d & Hd & Hs' & Hk' & Hf' & _).
      exists d. split_and!; congruence.
Qed.

Lemma quiet_settled_if_final (w w' : World) :
  quiet w w' → settled_if_final (dials w) → settled_if_final (dials w').
Proof.
  intros (Hev & _) HR d' Hd' Hf.
  destruct (Forall2_evolves_elem_r _ _ _ Hev Hd') as (d & Hd & _ & _ & Hf' & Hp).
  apply Hp, (HR d Hd). congruence.
Qed.

(** *** Promise reactions *)

Lemma writes_frame (s : nat) (payloads : list (list Z)) (w : World) :
  let w' := foldl (λ w bytes, _writeDataFrame s bytes w) w payloads in
  tr w' = tr w ∧ next w' = next w ∧ dials w' = dials w.
Proof.
  revert w. induction payloads as [|b bs IH]; intros w; simpl; [done|].
  destruct (IH (_writeDataFrame s b w)) as (-> & -> & ->). done.
Qed.

(** [react] either does nothing (the attempt is pending, or its [finally]
    has run) or removes the attempt's key from the ledger and marks it. *)
Lemma react_cases (d : Dial) (w : World) :
  ((react d w).2 = d ∧ tr (react d w).1 = tr w ∧ next (react d w).1 = next w
   ∧ (d_promise d = Pending ∨ d_finally d = true))
  ∨ ((react d w).2 = finalize d
     ∧ _dialing (tr (react d w).1) = delete (d_key d) (_dialing (tr w))
     ∧ next (react d w).1 = next w
     ∧ d_promise d ≠ Pending ∧ d_finally d = false).
Proof.
  unfold react.
  destruct (d_promise d) as [| |err] eqn:Hp; [left; by auto| |];
    (destruct (d_finally d) eqn:Hf; [left; by auto|right]); simpl.
  - destruct (writes_frame (d_socket d) (d_waiters d)
      (set_tr (set_dialing (delete (d_key d))) w)) as (-> & -> & _). done.
  - done.
Qed.

Lemma ledger_ok_finalize (L : gmap string nat) (pre post : list Dial) (d : Dial) :
  NoDup (d_socket <$> (pre ++ d :: post)) →
  d_finally d = false →
  ledger_ok L (pre ++ d :: post) →
  ledger_ok (delete (d_key d) L) (pre ++ finalize d :: post).
Proof.
  intros Hnd Hf Hok k s.
  assert (Hd : L !! d_key d = Some (d_socket d)).
  { apply Hok. exists d. split_and!; try done.
    rewrite elem_of_app, elem_of_cons. tauto. }
  split.
  - intros Hk. apply lookup_delete_Some in Hk as [Hne Hk].
    apply Hok in Hk as (d0 & Hd0 & Hs & Hk & Hf0).
    exists d0. split_and!; try done.
    rewrite elem_of_app, elem_of_cons in Hd0. rewrite elem_of_app, elem_of_cons.
    destruct Hd0 as [?|[->|?]]; auto. congruence.
  - intros (d0 & Hd0 & Hs & Hk & Hf0).
    assert (Hd0' : d0 ∈ pre ∨ d0 ∈ post).
    { rewrite elem_of_app, elem_of_cons in Hd0.
      destruct Hd0 as [?|[->|?]]; auto. simpl in Hf0. congruence. }
    assert (Hold : L !! k = Some s).
    { apply Hok. exists d0. split_and!; try done.
      rewrite elem_of_app, elem_of_cons. tauto. }
    rewrite lookup_delete_ne; [done|].
    intros Heq.
    assert (Hsame : d_socket d0 = d_socket d).
    { rewrite <- Heq, Hd in Hold. congruence. }
    rewrite fmap_app, fmap_cons in Hnd.
    apply NoDup_app in Hnd as (_ & Hdisj & Hnd).
    apply NoDup_cons in Hnd as [Hnot _].
    destruct Hd0' as [Hin|Hin].
    + apply (Hdisj (d_socket d0)); [by apply list_elem_of_fmap_2|].
      rewrite Hsame. apply elem_of_cons. by left.
    + apply Hnot. rewrite <- Hsame. by apply list_elem_of_fmap_2.
Qed.

Lemma run_reactions_spec (ds pre : list Dial) (w : World) :
  NoDup (d_socket <$> (pre ++ ds)) →
  ledger_ok (_dialing (tr w)) (pre ++ ds) →
  settled_if_final ds →
  let w' := (run_reactions ds w).1 in
  let ds' := (run_reactions ds w).2 in
  ledger_ok (_dialing (tr w')) (pre ++ ds')
  ∧ d_socket <$> ds' = d_socket <$> ds
  ∧ next w' = next w
  ∧ settled_if_final ds' ∧ pending_if_not_final ds'.
Proof.
  revert pre w. induction ds as [|d ds IH]; intros pre w Hnd Hok HR; simpl.
  { split_and!; try done; intros d Hd; by apply elem_of_nil in Hd. }
  pose proof (react_cases d w) as Hcases.
  destruct (react d w) as [w1 d1]. simpl in Hcases.
  assert (HRds : settled_if_final ds).
  { intros d0 Hd0. apply HR. apply elem_of_cons. by right. }
  assert (Hstep : NoDup (d_socket <$> ((pre ++ [d1]) ++ ds))
    ∧ ledger_ok (_dialing (tr w1)) ((pre ++ [d1]) ++ ds)
    ∧ d_socket d1 = d_socket d ∧ next w1 = next w
    ∧ (d_finally d1 = true → d_promise d1 ≠ Pending)
    ∧ (d_finally d1 = false → d_promise d1 = Pending)).
  { rewrite <- !app_assoc. simpl.
    destruct Hcases as [(-> & Ht & Hn & Hor)|(-> & Hl & Hn & Hp & Hf)].
    - rewrite Ht. split_and!; [done|done|done|done| |].
      + apply HR. apply elem_of_cons. by left.
      + intros Hf. destruct Hor as [?|?]; congruence.
    - rewrite Hl. split_and!; [|by apply ledger_ok_finalize|done|done|done|].
      + by rewrite fmap_app, fmap_cons in *.
      + simpl. congruence. }
  destruct Hstep as (Hnd1 & Hok1 & Hs1 & Hn1 & HR1 & HQ1).
  specialize (IH (pre ++ [d1]) w1 Hnd1 Hok1 HRds).
  destruct (run_reactions ds w1) as [w2 ds2]. cbn [fst snd] in *.
  destruct IH as (Hok2 & Hs2 & Hn2 & HR2 & HQ2).
  rewrite <- app_assoc in Hok2. simpl in Hok2.
  split_and!; try done.
  - by rewrite !fmap_cons, Hs1, Hs2.
  - lia.
  - intros d0 Hd0. apply elem_of_cons in Hd0 as [->|Hd0]; auto.
  - intros d0 Hd0. apply elem_of_cons in Hd0 as [->|Hd0]; auto.
Qed.

Lemma microtasks_invariant (w : World) :
  ledger_inv w → settled_if_final (dials w) → dial_invariant (microtasks w).
Proof.
  intros (Hnd & Hb & Hok) HR. unfold microtasks.
  pose proof (run_reactions_spec (dials w) [] w Hnd Hok HR) as Hspec.
  destruct (run_reactions (dials w) w) as [w1 ds1]. simpl in Hspec.
  destruct Hspec as (Hok1 & Hs1 & Hn1 & HR1 & HQ1).
  apply dial_invariant_split. unfold ledger_inv. simpl.
  split_and!; try done.
  - by rewrite Hs1.
  - intros d1 Hd1.
    assert (Hin : d_socket d1 ∈ d_socket <$> dials w).
    { rewrite <- Hs1. by apply list_elem_of_fmap_2. }
    apply list_elem_of_fmap in Hin as (d & Hsd & Hd). specialize (Hb d Hd). lia.
Qed.

(** *** [send] and [_dial] *)

(** A send that finds its key in the ledger joins that attempt. *)
Lemma send_joins (to : string) (bytes : list Z) (expected : option string)
    (host : string) (port : Z) (s : nat) (w : World) :
  _started (tr w) = true →
  _peers (tr w) !! to = None →
  parseTcpTarget to = Target host port →
  _dialing (tr w) !! dial_key host port = Some s →
  let w' := (send to (Uint8Array bytes) expected w).1 in
  (send to (Uint8Array bytes) expected w).2 = SendAwaits s
  ∧ sockets w' = sockets w ∧ next w' = next w
  ∧ _dialing (tr w') = _dialing (tr w)
  ∧ quiet w w'.
Proof.
  intros Hst Hpeer Hparse Hled. unfold send. rewrite Hst, Hpeer, Hparse. simpl.
  unfold _dial. rewrite Hled. simpl. split_and!; try done.
  split_and!; simpl; [|done|lia]. apply Forall2_evolves_fmap.
  intros d. by case_bool_decide.
Qed.

(** A send that finds no entry for its key starts one attempt on one new
    socket and records it. *)
Lemma send_dials (to : string) (bytes : list Z) (expected : option string)
    (host : string) (port : Z) (w : World) :
  _started (tr w) = true →
  _peers (tr w) !! to = None →
  parseTcpTarget to = Target host port →
  _dialing (tr w) !! dial_key host port = None →
  let w' := (send to (Uint8Array bytes) expected w).1 in
  (send to (Uint8Array bytes) expected w).2 = SendAwaits (next w)
  ∧ sockets w' = <[next w := []]> (sockets w)
  ∧ next w' = S (next w)
  ∧ _dialing (tr w') = <[dial_key host port := next w]> (_dialing (tr w))
  ∧ dials w'
    = dials w ++ [MkDial (next w) (dial_key host port) expected false Pending false [bytes]].
Proof.
  intros Hst Hpeer Hparse Hled. unfold send. rewrite Hst, Hpeer, Hparse. simpl.
  unfold _dial. rewrite Hled. simpl. done.
Qed.

Lemma ledger_inv_new_dial (w w' : World) (k : string) (e : option string)
    (wt : list (list Z)) :
  ledger_inv w →
  _dialing (tr w) !! k = None →
  next w' = S (next w) →
  _dialing (tr w') = <[k := next w]> (_dialing (tr w)) →
  dials w' = dials w ++ [MkDial (next w) k e false Pending false wt] →
  ledger_inv w'.
Proof.
  intros (Hnd & Hb & Hok) Hnone Hn Hl Hds. unfold ledger_inv.
  rewrite Hn, Hl, Hds. split_and!.
  - rewrite fmap_app. simpl. apply NoDup_app. split_and!; [done| |apply NoDup_singleton].
    intros s Hs Hs'. apply list_elem_of_singleton in Hs'. subst s.
    apply list_elem_of_fmap in Hs as (d & Hsd & Hd). specialize (Hb d Hd). lia.
  - intros d Hd. apply elem_of_app in Hd as [Hd|Hd].
    + specialize (Hb d Hd). lia.
    + apply list_elem_of_singleton in Hd. subst d. simpl. lia.
  - intros k' s. split.
    + intros Hk. apply lookup_insert_Some in Hk as [(<- & <-)|(Hne & Hk)].
      * eexists. split; [apply elem_of_app; right; by apply list_elem_of_singleton|done].
      * apply Hok in Hk as (d & Hd & ?). exists d. split; [|done].
        apply elem_of_app. by left.
    + intros (d & Hd & Hs & Hk & Hf). apply elem_of_app in Hd as [Hd|Hd].
      * assert (Hold : _dialing (tr w) !! k' = Some s).
        { apply Hok. by exists d. }
        rewrite lookup_insert_ne; [done|]. intros ->. congruence.
      * apply list_elem_of_singleton in Hd. subst d. simpl in *. subst.
        apply lookup_insert_eq.
Qed.

Lemma send_invariant (to : string) (arg : send_arg) (expected : option string)
    (w : World) :
  ledger_inv w → settled_if_final (dials w) →
  let w' := (send to arg expected w).1 in
  ledger_inv w' ∧ settled_if_final (dials w').
Proof.
  intros HJ HR w'. unfold w'. clear w'.
  destruct arg as [bytes|]; [|done].
  destruct (_started (tr w)) eqn:Hst; [|unfold send; by rewrite Hst].
  destruct (_peers (tr w) !! to) as [existing|] eqn:Hpeer.
  { unfold send. rewrite Hst, Hpeer. simpl. done. }
  destruct (parseTcpTarget to) as [|msg|host port] eqn:Hparse;
    [unfold send; by rewrite Hst, Hpeer, Hparse..|].
  destruct (_dialing (tr w) !! dial_key host port) as [s|] eqn:Hled.
  - destruct (send_joins to bytes expected host port s w Hst Hpeer Hparse Hled)
      as (_ & _ & _ & _ & Hq).
    split; [by eapply quiet_ledger_inv|by eapply quiet_settled_if_final].
  - destruct (send_dials to bytes expected host port w Hst Hpeer Hparse Hled)
      as (_ & _ & Hn & Hl & Hds).
    split; [by eapply ledger_inv_new_dial|].
    rewrite Hds. intros d Hd. apply elem_of_app in Hd as [Hd|Hd]; [by apply HR|].
    apply list_elem_of_singleton in Hd. by subst d.
Qed.

(** *** Runs *)

Lemma _handleSocket_quiet (s : nat) (o : bool) (w : World) :
  quiet w (_handleSocket s o w).
Proof. quiet_id. Qed.

Lemma stop_quiet (w : World) : _dialing (tr w) = ∅ → quiet w (stop w).
Proof.
  intros Hempty. unfold stop. destruct (negb (_started (tr w))); [apply quiet_refl|].
  cbv zeta.
  pose proof (tcp_destroy_all (set_tr (set_started false) w)
    (_peers (tr (set_tr (set_started false) w)))) as Hall.
  cbv zeta in Hall. set (r := map_fold _ _ _) in *. clearbody r.
  destruct Hall as (Ht & _ & _ & Hd & Hn & _).
  split_and!; simpl.
  - rewrite Hd. apply Forall2_evolves_refl.
  - by rewrite Hempty.
  - rewrite Hn. simpl. lia.
Qed.

Lemma handle_invariant (i : input) (w : World) :
  (i = Stop → _dialing (tr w) = ∅) →
  ledger_inv w → settled_if_final (dials w) →
  ledger_inv (handle i w) ∧ settled_if_final (dials (handle i w)).
Proof.
  intros Hi HJ HR.
  assert (Hq : ∀ w', quiet w w' → ledger_inv w' ∧ settled_if_final (dials w')).
  { intros w' Hq. split; [by eapply quiet_ledger_inv|by eapply quiet_settled_if_final]. }
  destruct i as [| |to bytes expected| |s|s chunk|s|s|s err]; cbn [handle].
  - apply Hq. unfold start. destruct (_started (tr w)); [apply quiet_refl|].
    case_bool_decide; quiet_id.
  - apply Hq, stop_quiet. by apply Hi.
  - by apply (send_invariant to (Uint8Array bytes) expected w).
  - apply Hq. destruct (_server (tr w)); [|apply quiet_refl].
    split_and!; simpl; [apply Forall2_evolves_refl|done|lia].
  - apply Hq. destruct (_ && _); [apply _handleSocket_quiet|apply quiet_refl].
  - apply Hq. destruct (destroyed s w); [apply quiet_refl|apply onData_quiet].
  - apply Hq, cleanup_quiet.
  - apply Hq, onClose_quiet.
  - apply Hq, onError_quiet.
Qed.

Lemma step_invariant (i : input) (w : World) :
  (i = Stop → _dialing (tr w) = ∅) → dial_invariant w → dial_invariant (step w i).
Proof.
  intros Hi Hinv. apply dial_invariant_split in Hinv as (HJ & HR & _).
  destruct (handle_invariant i w Hi HJ HR) as [HJ' HR'].
  by apply microtasks_invariant.
Qed.

Lemma run_invariant (inputs : list input) (w : World) :
  no_stop_in_flight w inputs → dial_invariant w → dial_invariant (run w inputs).
Proof.
  revert w. induction inputs as [|i inputs IH]; intros w Hstop Hinv; [done|].
  destruct Hstop as [Hi Hrest]. simpl. apply IH; [done|]. by apply step_invariant.
Qed.

Lemma dial_invariant_unique (w : World) (d1 d2 : Dial) :
  dial_invariant w → d1 ∈ dials w → d2 ∈ dials w →
  d_promise d1 = Pending → d_promise d2 = Pending → d_key d1 = d_key d2 →
  d_socket d1 = d_socket d2.
Proof.
  intros (_ & _ & Hok & Hp) H1 H2 Hp1 Hp2 Hk.
  assert (L1 : _dialing (tr w) !! d_key d1 = Some (d_socket d1)).
  { apply Hok. exists d1. split_and!; try done. by apply Hp. }
  assert (L2 : _dialing (tr w) !! d_key d1 = Some (d_socket d2)).
  { apply Hok. exists d2. split_and!; try done. by apply Hp. }
  congruence.
Qed.

Lemma react_removes_key (d : Dial) (w : World) :
  d_promise d ≠ Pending → d_finally d = false →
  _dialing (tr (react d w).1) !! d_key d = None
  ∧ d_finally (react d w).2 = true.
Proof.
  intros Hp Hf.
  destruct (react_cases d w) as [(_ & _ & _ & [?|?])|(-> & -> & _)]; try congruence.
  split; [apply lookup_delete_eq|done].
Qed.

(** C6, amended: in every run of a TCP transport in which [stop()] is never
    called while the dial ledger holds an attempt, the ledger holds an entry
    for a key exactly while an attempt for that key is pending, and at most
    one attempt per key is pending. A [send] whose target is not itself a
    registered peer id and parses to an address with a pending attempt joins
    that attempt and creates no socket; when no attempt for the address is
    pending it creates exactly one outbound socket and records the attempt in
    the ledger. When an attempt has settled, resolved or rejected, its
    [finally] callback removes the key from the ledger, so that a later send
    starts a fresh attempt. *)
Theorem dial_ledger_single_attempt :
  (∀ (w : World) (inputs : list input),
     dial_invariant w → no_stop_in_flight w inputs → dial_invariant (run w inputs))
  ∧ (∀ (w : World) (d1 d2 : Dial),
       dial_invariant w → d1 ∈ dials w → d2 ∈ dials w →
       d_promise d1 = Pending → d_promise d2 = Pending → d_key d1 = d_key d2 →
       d_socket d1 = d_socket d2)
  ∧ (∀ (to : string) (bytes : list Z) (expected : option string) (host : string)
       (port : Z) (d : Dial) (w : World),
       dial_invariant w →
       _started (tr w) = true → _peers (tr w) !! to = None →
       parseTcpTarget to = Target host port →
       d ∈ dials w → d_key d = dial_key host port → d_promise d = Pending →
       let w' := (send to (Uint8Array bytes) expected w).1 in
       (send to (Uint8Array bytes) expected w).2 = SendAwaits (d_socket d)
       ∧ sockets w' = sockets w ∧ next w' = next w
       ∧ _dialing (tr w') = _dialing (tr w))
  ∧ (∀ (to : string) (bytes : list Z) (expected : option string) (host : string)
       (port : Z) (w : World),
       dial_invariant w →
       _started (tr w) = true → _peers (tr w) !! to = None →
       parseTcpTarget to = Target host port →
       (∀ d, d ∈ dials w → d_key d = dial_key host port → d_promise d ≠ Pending) →
       let w' := (send to (Uint8Array bytes) expected w).1 in
       (send to (Uint8Array bytes) expected w).2 = SendAwaits (next w)
       ∧ sockets w' = <[next w := []]> (sockets w)
       ∧ next w' = S (next w)
       ∧ _dialing (tr w') = <[dial_key host port := next w]> (_dialing (tr w)))
  ∧ (∀ (d : Dial) (w : World),
       d_promise d ≠ Pending → d_finally d = false →
       _dialing (tr (react d w).1) !! d_key d = None
       ∧ d_finally (react d w).2 = true).
Proof.
  split_and!.
  - intros w inputs Hinv Hstop. by apply run_invariant.
  - apply dial_invariant_unique.
  - intros to bytes expected host port d w Hinv Hst Hpeer Hparse Hd Hk Hp w'.
    assert (Hled : _dialing (tr w) !! dial_key host port = Some (d_socket d)).
    { destruct Hinv as (_ & _ & Hok & Hpf). apply Hok. exists d.
      split_and!; try done. by apply Hpf. }
    destruct (send_joins to bytes expected host port (d_socket d) w Hst Hpeer
      Hparse Hled) as (? & ? & ? & ? & _). done.
  - intros to bytes expected host port w Hinv Hst Hpeer Hparse Hnone w'.
    assert (Hled : _dialing (tr w) !! dial_key host port = None).
    { destruct Hinv as (_ & _ & Hok & Hpf).
      destruct (_dialing (tr w) !! dial_key host port) as [s|] eqn:Hs; [|done].
      apply Hok in Hs as (d & Hd & _ & Hk & Hf).
      destruct (Hnone d Hd Hk). by apply Hpf. }
    destruct (send_dials to bytes expected host port w Hst Hpeer Hparse Hled)
      as (? & ? & ? & ? & _). done.
  - apply react_removes_key.
Qed.

End dial_ledger.

Section dial_witness.
Import Tcp.
#[local] Existing Instance example_host.

Lemma dial_invariant_init (localId : string) (port : option Z) :
  dial_invariant (tcp_node localId port).
Proof.
  unfold dial_invariant. simpl. split_and!.
  - constructor.
  - intros d Hd. by apply elem_of_nil in Hd.
  - intros k s. rewrite lookup_empty. split; [done|].
    intros (d & Hd & _). by apply elem_of_nil in Hd.
  - intros d Hd. by apply elem_of_nil in Hd.
Qed.

(** Two sends share one attempt; it resolves; the transport is stopped and
    started again with nothing in flight; a third send dials afresh. *)
Lemma dial_ledger_single_attempt_witness :
  dial_invariant
    (run (tcp_node "A" None)
       [Start; Send "relay:9000" [1] None; Send "tcp://relay:9000" [2] None;
        Connected 0; Data 0 (encodeFrame (ascii_bytes (hello_text "B")));
        Stop; Start; Send "relay:9000" [3] None]).
Proof.
  apply (proj1 (@dial_ledger_single_attempt example_host)).
  - apply dial_invariant_init.
  - cbn [no_stop_in_flight].
    split_and!; try discriminate; try exact I.
    intros _. vm_compute. reflexivity.
Defined.

End dial_witness.
(** ** The frame parser on a growing buffer *)

Section codec_stream.
Import Buffer WsCodec.

Lemma get_app_l (b t : list Z) (i : Z) : 0 ≤ i < len b → get (b ++ t) i = get b i.
Proof.
  intros Hi. unfold get, len in *. by rewrite lookup_app_l by lia.
Qed.

Lemma readUInt16BE_app_l (b t : list Z) (off : Z) :
  0 ≤ off → off + 2 ≤ len b → readUInt16BE (b ++ t) off = readUInt16BE b off.
Proof. intros Hoff Hlen. unfold readUInt16BE. by rewrite !get_app_l by lia. Qed.

Lemma readUInt32BE_app_l (b t : list Z) (off : Z) :
  0 ≤ off → off + 4 ≤ len b → readUInt32BE (b ++ t) off = readUInt32BE b off.
Proof. intros Hoff Hlen. unfold readUInt32BE. by rewrite !get_app_l by lia. Qed.

Lemma subarray_app_l (b t : list Z) (s e : Z) :
  0 ≤ s ≤ len b → e ≤ len b → subarray (b ++ t) s e = subarray b s e.
Proof.
  intros Hs He. unfold subarray, len in *.
  rewrite drop_app_le by lia. rewrite take_app_le; [done|].
  rewrite length_drop. lia.
Qed.

Lemma subarray_from_app_l (b t : list Z) (s : Z) :
  s ≤ len b → subarray_from (b ++ t) s = subarray_from b s ++ t.
Proof.
  intros Hs. unfold subarray_from, len in *. by rewrite drop_app_le by lia.
Qed.

(** Once [tryParseFrame] has decided, on a frame or on a fault, bytes that
    arrive later do not change the decision: they are appended to [rest]. *)
Lemma tryParseFrame_app (b t : list Z) (e : bool) (m : Z) :
  match tryParseFrame b e m with
  | NeedMore => True
  | Throw msg => tryParseFrame (b ++ t) e m = Throw msg
  | Parsed op p r => tryParseFrame (b ++ t) e m = Parsed op p (r ++ t)
  end.
Proof.
  unfold tryParseFrame. rewrite len_app.
  pose proof (len_nonneg t) as Ht.
  destruct (Z.ltb_spec (len b) 2) as [|H2]; [done|].
  rewrite (proj2 (Z.ltb_ge _ 2)) by lia.
  rewrite !get_app_l by lia. cbv zeta.
  destruct (negb (negb _)); [done|].
  destruct (e && _); [done|]. destruct (negb e && _); [done|].
  assert (Hfin : ∀ l off, 2 ≤ off ≤ len b →
    let masked := negb (Z.land (get b 1) 128 =? 0) in
    let body (buffer : list Z) (n : Z) :=
      if l >? m then Throw "WS payload too large"
      else if masked && (n <? off + 4) then NeedMore
      else if n <? (if masked then off + 4 else off) + l then NeedMore
      else Parsed (Z.land (get b 0) 15)
        (if masked
         then xorMask (if masked then subarray buffer off (off + 4) else [])
           (subarray buffer (if masked then off + 4 else off)
              ((if masked then off + 4 else off) + l))
         else subarray buffer (if masked then off + 4 else off)
              ((if masked then off + 4 else off) + l))
        (subarray_from buffer ((if masked then off + 4 else off) + l)) in
    match body b (len b) with
    | NeedMore => True
    | Throw msg => body (b ++ t) (len b + len t) = Throw msg
    | Parsed op p r => body (b ++ t) (len b + len t) = Parsed op p (r ++ t)
    end).
  { intros l off Hoff masked body. unfold body.
    destruct (l >? m); [done|].
    destruct masked; simpl andb; cbv iota.
    - destruct (Z.ltb_spec (len b) (off + 4)); [done|].
      rewrite (proj2 (Z.ltb_ge _ (off + 4))) by lia.
      destruct (Z.ltb_spec (len b) (off + 4 + l)); [done|].
      rewrite (proj2 (Z.ltb_ge _ (off + 4 + l))) by lia.
      by rewrite !subarray_app_l, subarray_from_app_l by lia.
    - destruct (Z.ltb_spec (len b) (off + l)); [done|].
      rewrite (proj2 (Z.ltb_ge _ (off + l))) by lia.
      by rewrite subarray_app_l, subarray_from_app_l by lia. }
  destruct (Z.land (get b 1) 127 =? 126).
  - destruct (Z.ltb_spec (len b) (2 + 2)); [done|].
    rewrite (proj2 (Z.ltb_ge _ (2 + 2))) by lia.
    rewrite readUInt16BE_app_l by lia. apply (Hfin _ (2 + 2)). lia.
  - destruct (Z.land (get b 1) 127 =? 127).
    + destruct (Z.ltb_spec (len b) (2 + 8)); [done|].
      rewrite (proj2 (Z.ltb_ge _ (2 + 8))) by lia.
      rewrite !readUInt32BE_app_l by lia.
      destruct (negb (readUInt32BE b 2 =? 0)); [done|]. apply (Hfin _ (2 + 8)). lia.
    + apply (Hfin _ 2). lia.
Qed.


(** The same with the random key and any bytes behind the frame: the frame
    [buildFrame] makes is taken off the front of the buffer, whatever
    follows it. *)
Lemma buildFrame_parse_app (opcode : Z) (P key tail : list Z) (mask : bool) (max : Z) :
  0 ≤ opcode < 16 →
  Forall is_byte P → length key = 4%nat →
  len P ≤ max → len P < 2 ^ 32 →
  tryParseFrame (buildFrame opcode P mask key ++ tail) mask max = Parsed opcode P tail.
Proof.
  intros Hop HP Hkey Hmax H32.
  pose proof (tryParseFrame_app (buildFrame opcode P mask key) tail mask max) as Happ.
  by rewrite (buildFrame_parse opcode P key mask max) in Happ.
Qed.

(** X1: A frame or a fault that [tryParseFrame] has found in a buffer is found
    again, unchanged, when more bytes have arrived behind it; the new bytes
    are appended to the rest. *)
Theorem tryParseFrame_decision_is_final (b t : list Z) (expectMasked : bool)
    (maxPayloadBytes : Z) :
  (∀ msg, tryParseFrame b expectMasked maxPayloadBytes = Throw msg →
     tryParseFrame (b ++ t) expectMasked maxPayloadBytes = Throw msg)
  ∧ (∀ opcode payload rest,
       tryParseFrame b expectMasked maxPayloadBytes = Parsed opcode payload rest →
       tryParseFrame (b ++ t) expectMasked maxPayloadBytes
       = Parsed opcode payload (rest ++ t)).
Proof.
  pose proof (tryParseFrame_app b t expectMasked maxPayloadBytes) as Happ.
  split; [intros msg Hb|intros opcode payload rest Hb]; by rewrite Hb in Happ.
Qed.

(** A prefix that ends before the frame does, in the form the stream lemmas
    use. *)
Lemma tryParseFrame_take (b : list Z) (n : nat) (e : bool) (m op : Z) (p r : list Z) :
  tryParseFrame b e m = Parsed op p r →
  (n + length r < length b)%nat →
  tryParseFrame (take n b) e m = NeedMore.
Proof.
  intros Hb Hn.
  pose proof (tryParseFrame_app (take n b) (drop n b) e m) as Happ.
  rewrite take_drop, Hb in Happ.
  destruct (tryParseFrame (take n b) e m) as [|msg|op' p' r']; [done|done|].
  injection Happ as _ _ Hr. apply (f_equal length) in Hr.
  rewrite length_app, length_drop in Hr. lia.
Qed.

(** X2: Bytes that stop short of the end of a frame are no frame and no
    fault: if [tryParseFrame] finds a frame in [b] and leaves [rest], it
    returns [null] on every prefix of [b] that ends before the frame does. *)
Theorem tryParseFrame_incomplete_frame (b : list Z) (n : nat) (expectMasked : bool)
    (maxPayloadBytes opcode : Z) (payload rest : list Z) :
  tryParseFrame b expectMasked maxPayloadBytes = Parsed opcode payload rest →
  (n + length rest < length b)%nat →
  tryParseFrame (take n b) expectMasked maxPayloadBytes = NeedMore.
Proof. apply tryParseFrame_take. Qed.

Lemma tryParseFrame_incomplete_frame_witness :
  tryParseFrame (take 6 [0x82; 0x83; 0xff; 0; 0xf0; 9; 0xfe; 2; 0xf3; 7]) true 1048576
  = NeedMore.
Proof.
  apply (tryParseFrame_incomplete_frame
           [0x82; 0x83; 0xff; 0; 0xf0; 9; 0xfe; 2; 0xf3; 7] 6 true 1048576
           2 [1; 2; 3] [7]).
  - reflexivity.
  - simpl. lia.
Defined.

End codec_stream.
(** ** What a parsed frame can be *)

Section codec_bounds.
Import Buffer WsCodec.

Lemma xorMask_bytes (key body : list Z) : Forall is_byte (xorMask key body).
Proof.
  apply Forall_lookup_2. intros i x. unfold xorMask. rewrite list_lookup_imap.
  destruct (body !! i) as [y|]; simpl; [|done]. intros [= <-].
  unfold is_byte. rewrite land_255_mod. dlia.
Qed.

Lemma subarray_bytes (b : list Z) (s e : Z) :
  Forall is_byte b → Forall is_byte (subarray b s e).
Proof. intros Hb. unfold subarray. by apply Forall_take, Forall_drop. Qed.

Lemma subarray_length (b : list Z) (s l : Z) :
  0 ≤ s → 0 ≤ l → s + l ≤ len b → length (subarray b s (s + l)) = Z.to_nat l.
Proof.
  intros Hs Hl Hlen. unfold subarray, len in *.
  rewrite length_take, length_drop. lia.
Qed.

Lemma land_15_range (a : Z) : 0 ≤ Z.land a 15 < 16.
Proof.
  replace (Z.land a 15) with (a mod 16) by (symmetry; exact (Z.land_ones a 4 ltac:(lia))).
  dlia.
Qed.

Lemma land_127_range (a : Z) : 0 ≤ Z.land a 127 < 128.
Proof. rewrite land_127_mod. dlia. Qed.

(** X3: A frame that [tryParseFrame] returns is final, masked as expected, has
    an opcode below 16 and a payload of bytes no longer than the ceiling;
    payload and rest come out of the buffer, the rest is its tail, and at
    least the two header bytes are consumed. *)
Theorem tryParseFrame_frame_bounds (b : list Z) (expectMasked : bool)
    (maxPayloadBytes opcode : Z) (payload rest : list Z) :
  Forall is_byte b →
  tryParseFrame b expectMasked maxPayloadBytes = Parsed opcode payload rest →
  Z.land (get b 0) 0x80 ≠ 0
  ∧ negb (Z.land (get b 1) 0x80 =? 0) = expectMasked
  ∧ 0 ≤ opcode < 16
  ∧ len payload ≤ maxPayloadBytes
  ∧ Forall is_byte payload
  ∧ rest `suffix_of` b
  ∧ (length payload + length rest + 2 ≤ length b)%nat.
Proof.
  intros Hb. unfold tryParseFrame.
  pose proof (readUInt16BE_nonneg b 2 Hb) as H16.
  pose proof (readUInt32BE_nonneg b (2 + 4) Hb) as H32.
  pose proof (land_127_range (get b 1)) as H7.
  pose proof (land_15_range (get b 0)) as H15.
  assert (Hfin' : ∀ l off masked, 2 ≤ off ≤ len b → 0 ≤ l →
    (if l >? maxPayloadBytes then Throw "WS payload too large"
      else if masked && (len b <? off + 4) then NeedMore
      else if len b <? (if masked then off + 4 else off) + l then NeedMore
      else Parsed (Z.land (get b 0) 15)
        (if masked
         then xorMask (if masked then subarray b off (off + 4) else [])
           (subarray b (if masked then off + 4 else off)
              ((if masked then off + 4 else off) + l))
         else subarray b (if masked then off + 4 else off)
              ((if masked then off + 4 else off) + l))
        (subarray_from b ((if masked then off + 4 else off) + l)))
    = Parsed opcode payload rest →
    0 ≤ opcode < 16
    ∧ len payload ≤ maxPayloadBytes ∧ Forall is_byte payload
    ∧ rest `suffix_of` b
    ∧ (length payload + length rest + 2 ≤ length b)%nat).
  { intros l off masked Hoff Hl.
    destruct (Z.gtb_spec l maxPayloadBytes) as [|Hmax]; [done|].
    destruct masked; simpl andb; cbv iota.
    - destruct (Z.ltb_spec (len b) (off + 4)); [done|].
      destruct (Z.ltb_spec (len b) (off + 4 + l)); [done|].
      intros [= <- <- <-]. split; [exact H15|]. split; [|split; [|split]].
      + unfold len. rewrite xorMask_length, subarray_length by lia. lia.
      + apply xorMask_bytes.
      + unfold subarray_from. apply suffix_drop.
      + rewrite xorMask_length, subarray_length by lia.
        unfold subarray_from. rewrite length_drop. unfold len in *. lia.
    - destruct (Z.ltb_spec (len b) (off + l)); [done|].
      intros [= <- <- <-]. split; [exact H15|]. split; [|split; [|split]].
      + unfold len. rewrite subarray_length by lia. lia.
      + by apply subarray_bytes.
      + unfold subarray_from. apply suffix_drop.
      + rewrite subarray_length by lia.
        unfold subarray_from. rewrite length_drop. unfold len in *. lia. }
  destruct (Z.ltb_spec (len b) 2) as [|H2]; [done|]. cbv zeta.
  destruct (Z.land (get b 0) 128 =? 0) eqn:Hfin; simpl negb; cbv iota; [done|].
  apply Z.eqb_neq in Hfin.
  set (masked := negb (Z.land (get b 1) 128 =? 0)).
  assert (Hgoal : ∀ l off, 2 ≤ off ≤ len b → 0 ≤ l →
    (if l >? maxPayloadBytes then Throw "WS payload too large"
      else if masked && (len b <? off + 4) then NeedMore
      else if len b <? (if masked then off + 4 else off) + l then NeedMore
      else Parsed (Z.land (get b 0) 15)
        (if masked
         then xorMask (if masked then subarray b off (off + 4) else [])
           (subarray b (if masked then off + 4 else off)
              ((if masked then off + 4 else off) + l))
         else subarray b (if masked then off + 4 else off)
              ((if masked then off + 4 else off) + l))
        (subarray_from b ((if masked then off + 4 else off) + l)))
    = Parsed opcode payload rest →
    masked = expectMasked →
    Z.land (get b 0) 128 ≠ 0 ∧ masked = expectMasked ∧ 0 ≤ opcode < 16
    ∧ len payload ≤ maxPayloadBytes ∧ Forall is_byte payload
    ∧ rest `suffix_of` b
    ∧ (length payload + length rest + 2 ≤ length b)%nat).
  { intros l off Hoff Hl Hp Hm. split; [done|]. split; [done|].
    by apply (Hfin' l off masked). }
  clearbody masked.
  destruct (expectMasked && negb masked) eqn:Hm1; [done|].
  destruct (negb expectMasked && masked) eqn:Hm2; [done|].
  assert (Hm : masked = expectMasked) by by destruct masked, expectMasked.
  destruct (Z.land (get b 1) 127 =? 126).
  - destruct (Z.ltb_spec (len b) (2 + 2)); [done|].
    intros Hp. by apply (Hgoal _ (2 + 2) ltac:(lia) H16) in Hp.
  - destruct (Z.land (get b 1) 127 =? 127).
    + destruct (Z.ltb_spec (len b) (2 + 8)); [done|].
      destruct (negb (readUInt32BE b 2 =? 0)); [done|].
      intros Hp. by apply (Hgoal _ (2 + 8) ltac:(lia) H32) in Hp.
    + intros Hp. by apply (Hgoal _ 2 ltac:(lia) (proj1 H7)) in Hp.
Qed.

Lemma tryParseFrame_frame_bounds_witness :
  Z.land (get [0x82; 0x83; 0xff; 0; 0xf0; 9; 0xfe; 2; 0xf3; 7] 0) 0x80 ≠ 0
  ∧ negb (Z.land (get [0x82; 0x83; 0xff; 0; 0xf0; 9; 0xfe; 2; 0xf3; 7] 1) 0x80 =? 0)
    = true
  ∧ 0 ≤ 2 < 16
  ∧ len [1; 2; 3] ≤ 1048576
  ∧ Forall is_byte [1; 2; 3]
  ∧ [7] `suffix_of` [0x82; 0x83; 0xff; 0; 0xf0; 9; 0xfe; 2; 0xf3; 7]
  ∧ (length [1; 2; 3] + length [7] + 2
     ≤ length [0x82; 0x83; 0xff; 0; 0xf0; 9; 0xfe; 2; 0xf3; 7])%nat.
Proof.
  apply (tryParseFrame_frame_bounds
           [0x82; 0x83; 0xff; 0; 0xf0; 9; 0xfe; 2; 0xf3; 7] true 1048576 2
           [1; 2; 3] [7]).
  - repeat constructor; unfold is_byte; lia.
  - reflexivity.
Defined.

(** *** The frames [buildFrame] makes *)

Lemma lenByte_range (l : Z) :
  0 ≤ l →
  0 ≤ (if l <? 126 then (l, @nil Z)
       else if l <? 65536 then (126, writeUInt16BE l)
       else (127, writeUInt32BE 0 ++ writeUInt32BE l)).1 < 128.
Proof.
  intros Hl. destruct (Z.ltb_spec l 126); [simpl; lia|].
  destruct (l <? 65536); simpl; lia.
Qed.

Lemma toUint32_range (x : Z) : 0 ≤ toUint32 x < 2 ^ 32.
Proof. unfold toUint32. dlia. Qed.

Lemma fin_bit_set (x : Z) : Z.land (Z.lor 0x80 x) 0x80 ≠ 0.
Proof.
  rewrite Z.land_lor_distr_l. change (Z.land 128 128) with 128.
  intros Hz. apply Z.lor_eq_0_iff in Hz as [Hz _]. done.
Qed.

(** X4: A frame made for one direction is never accepted in the other: what
    [buildFrame] makes with masking is rejected by a parser that expects
    unmasked frames and the other way round, whatever the opcode, the
    payload, the key, the ceiling and the bytes that follow. *)
Theorem buildFrame_wrong_direction_rejected (opcode : Z) (P key tail : list Z)
    (mask : bool) (maxPayloadBytes : Z) :
  tryParseFrame (buildFrame opcode P mask key ++ tail) (negb mask) maxPayloadBytes
  = Throw (if mask then "Unexpected masked server frame"
           else "Expected masked client frame").
Proof.
  unfold buildFrame.
  pose proof (toUint32_range (len P)) as [Hl _].
  pose proof (lenByte_range _ Hl) as Hlb.
  destruct (if toUint32 (len P) <? 126 then _ else _) as [lenByte extLen].
  simpl fst in Hlb.
  destruct (header_byte1 mask lenByte Hlb) as [Hm _].
  pose proof (fin_bit_set (Z.land opcode 15)) as Hfin.
  set (b0 := Z.lor 128 (Z.land opcode 15)) in *.
  set (b1 := Z.lor (if mask then 128 else 0) lenByte) in *.
  clearbody b0 b1.
  assert (Hshape : ∃ more,
    (let '(maskKey, body) := if mask then (key, xorMask key P) else ([], P) in
     [b0; b1] ++ extLen ++ maskKey ++ body) ++ tail = b0 :: b1 :: more).
  { destruct mask; eexists; simpl; reflexivity. }
  destruct Hshape as [more ->].
  unfold tryParseFrame.
  assert (Hlen : (len (b0 :: b1 :: more) <? 2) = false).
  { apply Z.ltb_ge. rewrite !len_cons. pose proof (len_nonneg more). lia. }
  rewrite Hlen. change (get (b0 :: b1 :: more) 0) with b0.
  change (get (b0 :: b1 :: more) 1) with b1. cbv zeta.
  rewrite (proj2 (Z.eqb_neq _ 0) Hfin), Hm. by destruct mask.
Qed.

Lemma buildFrame_len_bytes (opcode : Z) (P key : list Z) (mask : bool) :
  Forall is_byte P →
  (mask = true → Forall is_byte key ∧ length key = 4%nat) →
  len P < 2 ^ 32 →
  len (buildFrame opcode P mask key)
  = 2 + (if len P <? 126 then 0 else if len P <? 65536 then 2 else 8)
    + (if mask then 4 else 0) + len P
  ∧ Forall is_byte (buildFrame opcode P mask key).
Proof.
  intros HP Hkey H32. unfold buildFrame.
  pose proof (len_nonneg P) as H0.
  unfold toUint32. rewrite (Z.mod_small (len P)) by lia.
  assert (Hb0 : is_byte (Z.lor 128 (Z.land opcode 15))).
  { pose proof (land_15_range opcode). rewrite lor_128_small by lia.
    unfold is_byte. lia. }
  assert (Hb1 : ∀ l, 0 ≤ l < 128 → is_byte (Z.lor (if mask then 128 else 0) l)).
  { intros l Hl. destruct mask; [rewrite lor_128_small by lia|rewrite Z.lor_0_l];
      unfold is_byte; lia. }
  assert (Hw : ∀ v, is_byte (Z.land v 255)).
  { intros v. unfold is_byte. rewrite land_255_mod. dlia. }
  assert (Hbody : ∀ ext, Forall is_byte ext →
    ∀ l, 0 ≤ l < 128 →
    len (let '(maskKey, body) := if mask then (key, xorMask key P) else ([], P) in
         [Z.lor 128 (Z.land opcode 15); Z.lor (if mask then 128 else 0) l]
           ++ ext ++ maskKey ++ body)
    = 2 + len ext + (if mask then 4 else 0) + len P
    ∧ Forall is_byte
        (let '(maskKey, body) := if mask then (key, xorMask key P) else ([], P) in
         [Z.lor 128 (Z.land opcode 15); Z.lor (if mask then 128 else 0) l]
           ++ ext ++ maskKey ++ body)).
  { intros ext Hext l Hl. destruct mask.
    - destruct (Hkey eq_refl) as [Hk Hk4]. split.
      + rewrite !len_app. unfold len at 3 4. rewrite xorMask_length, Hk4.
        change (len [_; _]) with 2. unfold len. lia.
      + repeat (apply Forall_app; split); auto using xorMask_bytes;
          repeat constructor; auto.
    - split.
      + rewrite !len_app. change (len [_; _]) with 2. rewrite len_nil. lia.
      + repeat (apply Forall_app; split); auto; repeat constructor; auto. }
  destruct (Z.ltb_spec (len P) 126).
  - destruct (Hbody [] ltac:(constructor) (len P) ltac:(lia)) as [-> Hby].
    rewrite len_nil. split; [lia|done].
  - destruct (Z.ltb_spec (len P) 65536).
    + destruct (Hbody (writeUInt16BE (len P)) ltac:(repeat constructor; apply Hw)
        126 ltac:(lia)) as [-> Hby].
      change (len (writeUInt16BE (len P))) with 2. split; [lia|done].
    + destruct (Hbody (writeUInt32BE 0 ++ writeUInt32BE (len P))
        ltac:(repeat constructor; apply Hw) 127 ltac:(lia)) as [-> Hby].
      change (len (writeUInt32BE 0 ++ writeUInt32BE (len P))) with 8.
      split; [lia|done].
Qed.

(** X5: The size of a frame: the payload, two header bytes, the extended
    length (none, two or eight bytes) and the key when the frame is masked;
    and a frame is made of bytes. *)
Theorem buildFrame_size (opcode : Z) (P key : list Z) (mask : bool) :
  Forall is_byte P →
  (mask = true → Forall is_byte key ∧ length key = 4%nat) →
  len P < 2 ^ 32 →
  len (buildFrame opcode P mask key)
  = 2 + (if len P <? 126 then 0 else if len P <? 65536 then 2 else 8)
    + (if mask then 4 else 0) + len P
  ∧ Forall is_byte (buildFrame opcode P mask key).
Proof. apply buildFrame_len_bytes. Qed.

Lemma buildFrame_size_witness :
  len (buildFrame 2 [1; 2; 3] true [0xff; 0; 0xf0; 9])
  = 2 + (if len [1; 2; 3] <? 126 then 0 else if len [1; 2; 3] <? 65536 then 2 else 8)
    + (if true then 4 else 0) + len [1; 2; 3]
  ∧ Forall is_byte (buildFrame 2 [1; 2; 3] true [0xff; 0; 0xf0; 9]).
Proof.
  apply (buildFrame_size 2 [1; 2; 3] [0xff; 0; 0xf0; 9] true).
  - repeat constructor; unfold is_byte; lia.
  - intros _. split; [repeat constructor; unfold is_byte; lia|reflexivity].
  - vm_compute. reflexivity.
Defined.

End codec_bounds.
(** ** The connection loop on a stream of frames *)

Section ws_stream.
Import Buffer WsCodec Ws.
Context `{Host}.

Lemma insert_set_buf (c : nat) (conn : WsConnection) (T : list Z) (w : World) :
  conns w !! c = Some conn →
  set_conns (<[c := set_buf T conn]>) w = with_buf c T w.
Proof.
  intros Hc. unfold with_buf, set_conns. f_equal. apply map_eq. intros i.
  destruct (decide (i = c)) as [->|Hne].
  - by rewrite lookup_insert_eq, lookup_alter_eq, Hc.
  - by rewrite lookup_insert_ne, lookup_alter_ne.
Qed.

Lemma with_buf_id (c : nat) (conn : WsConnection) (w : World) :
  conns w !! c = Some conn → with_buf c (_buf conn) w = w.
Proof.
  intros Hc. destruct w as [t cs ws wh em]. unfold with_buf, set_conns.
  simpl in *. f_equal.
  apply map_eq. intros i. destruct (decide (i = c)) as [->|Hne].
  - rewrite lookup_alter_eq, Hc. simpl. by destruct conn.
  - by rewrite lookup_alter_ne.
Qed.

Lemma with_buf_twice (c : nat) (T T' : list Z) (w : World) :
  with_buf c T (with_buf c T' w) = with_buf c T w.
Proof.
  unfold with_buf, set_conns. simpl. f_equal. apply map_eq. intros i.
  destruct (decide (i = c)) as [->|Hne].
  - rewrite !lookup_alter_eq. by destruct (conns w !! c).
  - by rewrite !lookup_alter_ne.
Qed.

Lemma with_buf_lookup (c : nat) (T : list Z) (w : World) :
  conns (with_buf c T w) !! c = set_buf T <$> conns w !! c.
Proof. unfold with_buf. simpl. by rewrite lookup_alter_eq. Qed.

Lemma emit_with_buf (e : event) (c : nat) (T : list Z) (w : World) :
  emit e (with_buf c T w) = with_buf c T (emit e w).
Proof.
  unfold emit. cbv zeta.
  change (waitHello (set_emitted (λ l, l ++ [e]) (with_buf c T w)))
    with (waitHello w).
  change (waitHello (set_emitted (λ l, l ++ [e]) w)) with (waitHello w).
  destruct (waitHello w) as [[| |]|]; try done; by destruct e as [? []| | |].
Qed.

Lemma mask_of_with_buf (c : nat) (T : list Z) (w : World) :
  mask_of c (with_buf c T w) = mask_of c w.
Proof.
  unfold mask_of. rewrite with_buf_lookup. by destruct (conns w !! c).
Qed.

Lemma socket_call_with_buf (c : nat) (k : sock_call) (T : list Z) (w : World) :
  socket_call c k (with_buf c T w) = with_buf c T (socket_call c k w).
Proof.
  unfold socket_call, with_buf, set_conns. simpl. f_equal. apply map_eq. intros i.
  destruct (decide (i = c)) as [->|Hne].
  - rewrite !lookup_alter_eq. by destruct (conns w !! c).
  - by rewrite !lookup_alter_ne.
Qed.

Lemma close_with_buf (c : nat) (T : list Z) (w : World) :
  close c (with_buf c T w) = with_buf c T (close c w).
Proof. unfold close. by rewrite mask_of_with_buf, socket_call_with_buf. Qed.

Lemma onMessage_with_buf (c : nat) (opcode : Z) (text : option string)
    (bytes T : list Z) (w : World) :
  onMessage c opcode text bytes (with_buf c T w)
  = with_buf c T (onMessage c opcode text bytes w).
Proof.
  unfold onMessage.
  change (wires (with_buf c T w)) with (wires w).
  destruct (wires w !! c) as [x|]; [|done].
  destruct (negb (truthy_str _)).
  - destruct (negb (opcode =? 1)); [by rewrite emit_with_buf, close_with_buf|].
    destruct (JSON_parse _) as [obj|]; [|by rewrite emit_with_buf, close_with_buf].
    destruct (invalid_hello_fields obj); [by rewrite emit_with_buf, close_with_buf|].
    cbv zeta.
    change (tr (set_wires _ (with_buf c T w))) with (tr w).
    change (tr (set_wires _ w)) with (tr w).
    destruct (_ && _).
    + by rewrite <- close_with_buf, <- emit_with_buf.
    + by rewrite <- emit_with_buf.
  - destruct (negb _); [done|by rewrite emit_with_buf].
Qed.

Lemma on_frame_with_buf (c : nat) (opcode : Z) (payload T : list Z) (w : World) :
  on_frame c opcode payload (with_buf c T w)
  = with_buf c T (on_frame c opcode payload w).
Proof.
  unfold on_frame.
  destruct (opcode =? 9); [by rewrite mask_of_with_buf, socket_call_with_buf|].
  destruct (opcode =? 10); [done|].
  destruct (opcode =? 1); [apply onMessage_with_buf|].
  destruct (opcode =? 2); [apply onMessage_with_buf|done].
Qed.

(** One frame leaves the fields of the connection that the loop reads as
    they are. *)
Lemma on_frame_codec (c : nat) (opcode : Z) (payload : list Z)
    (conn : WsConnection) (w : World) :
  conns w !! c = Some conn →
  ∃ conn', conns (on_frame c opcode payload w) !! c = Some conn'
    ∧ same_codec conn conn'.
Proof.
  intros Hc. unfold on_frame.
  destruct (opcode =? 9); [by apply socket_call_codec|].
  destruct (opcode =? 10); [by exists conn|].
  destruct (opcode =? 1); [by apply onMessage_codec|].
  destruct (opcode =? 2); [by apply onMessage_codec|by exists conn].
Qed.

Lemma frame_bytes (max : Z) (mask : bool) (f : frame) :
  sendable max f →
  Forall is_byte (buildFrame (f_opcode f) (f_payload f) mask (f_key f))
  ∧ 2 ≤ len (buildFrame (f_opcode f) (f_payload f) mask (f_key f)).
Proof.
  intros (HP & Hk & Hk4 & Hmax & H32).
  destruct (buildFrame_len_bytes (f_opcode f) (f_payload f) (f_key f) mask HP
    ltac:(done) H32) as [Hlen Hb].
  split; [done|]. rewrite Hlen. pose proof (len_nonneg (f_payload f)).
  destruct (len (f_payload f) <? 126), (len (f_payload f) <? 65536), mask; lia.
Qed.

(** One pass of the loop over a frame at the head of the buffer. *)
Lemma onData_loop_frame (fuel c : nat) (conn : WsConnection) (w : World)
    (f : frame) (T : list Z) :
  conns w !! c = Some conn →
  _buf conn
  = buildFrame (f_opcode f) (f_payload f) (_expectMasked conn) (f_key f) ++ T →
  f_opcode f ∈ [1; 2; 9; 10] →
  sendable (c_maxPayloadBytes conn) f → Forall is_byte T →
  (length (_buf conn) ≤ fuel)%nat →
  onData_loop fuel c w
  = onData_loop (length T) c
      (on_frame c (f_opcode f) (f_payload f) (with_buf c T w)).
Proof.
  intros Hc Hbuf Hop Hf HT Hfuel.
  destruct (frame_bytes _ (_expectMasked conn) f Hf) as [HF HF2].
  pose proof Hf as (HP & Hk & Hk4 & Hmax & H32).
  assert (Hlen : (length (_buf conn) = length (buildFrame (f_opcode f) (f_payload f)
                   (_expectMasked conn) (f_key f)) + length T)%nat).
  { by rewrite Hbuf, length_app. }
  unfold len in HF2.
  destruct fuel as [|fuel]; [lia|].
  assert (Hrange : 0 ≤ f_opcode f < 16).
  { repeat (apply elem_of_cons in Hop as [->|Hop]; [lia|]).
    by apply elem_of_nil in Hop. }
  cbn [onData_loop]. rewrite Hc, Hbuf.
  rewrite (buildFrame_parse_app (f_opcode f) (f_payload f) (f_key f) T
             (_expectMasked conn) (c_maxPayloadBytes conn)) by done.
  cbv zeta. rewrite (insert_set_buf c conn T w Hc).
  assert (Hmask : mask_of c (with_buf c T w) = _maskOutgoing conn).
  { rewrite mask_of_with_buf. unfold mask_of. by rewrite Hc. }
  assert (Hgo : onData_loop fuel c (on_frame c (f_opcode f) (f_payload f) (with_buf c T w))
                = onData_loop (length T) c
                    (on_frame c (f_opcode f) (f_payload f) (with_buf c T w))).
  { assert (Hc1 : conns (with_buf c T w) !! c = Some (set_buf T conn)).
    { by rewrite with_buf_lookup, Hc. }
    destruct (on_frame_codec c (f_opcode f) (f_payload f) _ _ Hc1)
      as (conn2 & Hc2 & Hb2 & _).
    simpl in Hb2.
    apply (onData_loop_fuel _ _ c conn2 _ Hc2); rewrite Hb2; [done|lia|lia]. }
  rewrite <- Hgo. unfold on_frame. rewrite Hmask.
  repeat (apply elem_of_cons in Hop as [->|Hop]; [reflexivity|]).
  by apply elem_of_nil in Hop.
Qed.

(** [_onData] on a chunk that starts with a whole frame: the frame is
    handled, then the rest of the chunk. *)
Lemma _onData_frame (c : nat) (conn : WsConnection) (w : World) (f : frame)
    (T : list Z) :
  conns w !! c = Some conn → _buf conn = [] →
  f_opcode f ∈ [1; 2; 9; 10] →
  sendable (c_maxPayloadBytes conn) f → Forall is_byte T →
  _onData c (buildFrame (f_opcode f) (f_payload f) (_expectMasked conn) (f_key f) ++ T) w
  = _onData c T (on_frame c (f_opcode f) (f_payload f) w).
Proof.
  intros Hc Hbuf Hop Hf HT.
  destruct (on_frame_codec c (f_opcode f) (f_payload f) conn w Hc)
    as (conn' & Hc' & Hb' & _).
  unfold _onData. rewrite Hc, Hc', Hb', Hbuf. cbv zeta. simpl app.
  rewrite (insert_set_buf c conn _ w Hc), (insert_set_buf c conn' _ _ Hc').
  rewrite <- on_frame_with_buf.
  set (F := buildFrame _ _ _ _).
  rewrite (onData_loop_frame _ c (set_buf (F ++ T) conn) (with_buf c (F ++ T) w) f T).
  - by rewrite with_buf_twice.
  - by rewrite with_buf_lookup, Hc.
  - done.
  - done.
  - done.
  - done.
  - done.
Qed.

(** A chunk that leaves the buffer short of a whole frame is only stored. *)
Lemma _onData_incomplete (c : nat) (conn : WsConnection) (chunk : list Z) (w : World) :
  conns w !! c = Some conn →
  tryParseFrame (_buf conn ++ chunk) (_expectMasked conn) (c_maxPayloadBytes conn)
  = NeedMore →
  _onData c chunk w = (with_buf c (_buf conn ++ chunk) w, Returned).
Proof.
  intros Hc Hparse. unfold _onData. rewrite Hc. cbv zeta.
  rewrite (insert_set_buf c conn _ w Hc).
  destruct (length _); cbn [onData_loop]; rewrite with_buf_lookup, Hc; simpl;
    by rewrite Hparse.
Qed.

Lemma _onData_nil (c : nat) (conn : WsConnection) (w : World) :
  conns w !! c = Some conn → _buf conn = [] → _onData c [] w = (w, Returned).
Proof.
  intros Hc Hbuf. rewrite (_onData_incomplete c conn [] w Hc).
  - rewrite app_nil_r. by rewrite (with_buf_id c conn w Hc).
  - by rewrite Hbuf.
Qed.

Lemma frames_on_wire_cons (mask : bool) (f : frame) (fs : list frame) :
  frames_on_wire mask (f :: fs)
  = buildFrame (f_opcode f) (f_payload f) mask (f_key f) ++ frames_on_wire mask fs.
Proof. done. Qed.

Lemma frames_on_wire_bytes (max : Z) (mask : bool) (fs : list frame) :
  Forall (sendable max) fs → Forall is_byte (frames_on_wire mask fs).
Proof.
  induction 1 as [|f fs Hf _ IH]; [constructor|].
  rewrite frames_on_wire_cons. apply Forall_app. split; [|done].
  by destruct (frame_bytes max mask f Hf).
Qed.

(** A chunk of whole frames, none of them a close frame, followed by more
    bytes: the frames are handled in order, then the rest of the chunk. *)
Lemma _onData_frames (c : nat) (fs : list frame) (T : list Z) :
  ∀ (conn : WsConnection) (w : World),
  conns w !! c = Some conn → _buf conn = [] →
  Forall (λ f, f_opcode f ∈ [1; 2; 9; 10]) fs →
  Forall (sendable (c_maxPayloadBytes conn)) fs → Forall is_byte T →
  _onData c (frames_on_wire (_expectMasked conn) fs ++ T) w
  = _onData c T (on_frames c fs w).
Proof.
  induction fs as [|f fs IH]; intros conn w Hc Hbuf Hops Hfs HT; [done|].
  apply Forall_cons in Hops as [Hop Hops]. apply Forall_cons in Hfs as [Hf Hfs].
  rewrite frames_on_wire_cons, <- app_assoc.
  rewrite (_onData_frame c conn w f _ Hc Hbuf Hop Hf).
  - destruct (on_frame_codec c (f_opcode f) (f_payload f) conn w Hc)
      as (conn' & Hc' & Hb' & He' & Hm' & _).
    rewrite <- He'. unfold on_frames. simpl foldl.
    apply (IH conn' _ Hc'); [by rewrite Hb'|done|by rewrite Hm'|done].
  - apply Forall_app. split; [|done]. by eapply frames_on_wire_bytes.
Qed.

(** Two chunks cut at [n], by induction on the frames with the connection
    and the world general. *)
Lemma _onData_split (c : nat) (fs : list frame) :
  ∀ (n : nat) (conn : WsConnection) (w : World),
  conns w !! c = Some conn → _buf conn = [] →
  Forall (λ f, f_opcode f ∈ [1; 2; 9; 10]) fs →
  Forall (sendable (c_maxPayloadBytes conn)) fs →
  _onData c (drop n (frames_on_wire (_expectMasked conn) fs))
    (_onData c (take n (frames_on_wire (_expectMasked conn) fs)) w).1
  = _onData c (frames_on_wire (_expectMasked conn) fs) w.
Proof.
  induction fs as [|f fs IH]; intros n conn w Hc Hbuf Hops Hfs.
  { change (frames_on_wire (_expectMasked conn) []) with (@nil Z).
    rewrite take_nil, drop_nil. rewrite (_onData_nil c conn w Hc Hbuf).
    exact (_onData_nil c conn w Hc Hbuf). }
  apply Forall_cons in Hops as [Hop Hops]. apply Forall_cons in Hfs as [Hf Hfs].
  rewrite frames_on_wire_cons.
  set (F := buildFrame (f_opcode f) (f_payload f) (_expectMasked conn) (f_key f)).
  set (S' := frames_on_wire (_expectMasked conn) fs).
  pose proof (frames_on_wire_bytes _ (_expectMasked conn) fs Hfs) as HS'.
  fold S' in HS'.
  destruct (frame_bytes _ (_expectMasked conn) f Hf) as [HF HF2]. fold F in HF, HF2.
  pose proof Hf as (HP & Hk & Hk4 & Hmax & H32).
  destruct (le_lt_dec (length F) n) as [Hn|Hn].
  - rewrite take_app_ge, drop_app_ge by done.
    rewrite (_onData_frame c conn w f _ Hc Hbuf Hop Hf) by by apply Forall_take.
    rewrite (_onData_frame c conn w f _ Hc Hbuf Hop Hf) by done.
    destruct (on_frame_codec c (f_opcode f) (f_payload f) conn w Hc)
      as (conn' & Hc' & Hb' & He' & Hm' & _).
    unfold S'. rewrite <- He'.
    apply (IH _ conn' _ Hc'); [by rewrite Hb'|done|by rewrite Hm'].
  - rewrite take_app_le, drop_app_le by lia.
    assert (Hparse : tryParseFrame (take n F) (_expectMasked conn)
                       (c_maxPayloadBytes conn) = NeedMore).
    { apply (tryParseFrame_take F n _ _ (f_opcode f) (f_payload f) []).
      - apply buildFrame_parse; try done.
        repeat (apply elem_of_cons in Hop as [->|Hop]; [lia|]).
        by apply elem_of_nil in Hop.
      - simpl. lia. }
    rewrite (_onData_incomplete c conn (take n F) w Hc) by by rewrite Hbuf.
    rewrite Hbuf. simpl app. simpl fst.
    unfold _onData at 1 2.
    rewrite with_buf_lookup, Hc. simpl. cbv zeta.
    rewrite (app_assoc (take n F)), take_drop.
    rewrite (insert_set_buf c conn _ w Hc).
    rewrite (insert_set_buf c (set_buf (take n F) conn) _ (with_buf c (take n F) w))
      by by rewrite with_buf_lookup, Hc.
    by rewrite with_buf_twice, Hbuf.
Qed.

(** X6: Where a stream of frames is cut into chunks does not matter: a
    connection with an empty buffer that receives whole frames, none of them
    a close frame, in two chunks cut at any byte ends in the same state as
    when it receives them in one chunk. *)
Theorem ws_chunk_boundaries_do_not_matter (c n : nat) (fs : list frame)
    (conn : WsConnection) (w : World) :
  conns w !! c = Some conn → _buf conn = [] →
  Forall (λ f, f_opcode f ∈ [1; 2; 9; 10]) fs →
  Forall (sendable (c_maxPayloadBytes conn)) fs →
  _onData c (drop n (frames_on_wire (_expectMasked conn) fs))
    (_onData c (take n (frames_on_wire (_expectMasked conn) fs)) w).1
  = _onData c (frames_on_wire (_expectMasked conn) fs) w.
Proof. apply _onData_split. Qed.

End ws_stream.
(** ** Frames on an established connection *)

Section ws_frames.
Import Buffer WsCodec Ws.
Context `{Host}.

Lemma emit_frame (p : string) (b : list Z) (w : World) :
  emit (EvFrame p b) w = set_emitted (λ l, l ++ [EvFrame p b]) w.
Proof. unfold emit. by destruct (waitHello _) as [[]|]. Qed.

(** After the hello a binary frame becomes a [frame] event and a text frame
    is dropped. *)
Lemma on_frame_identified (c : nat) (x : Wire) (p : string) (f : frame) (w : World) :
  wires w !! c = Some x → remotePeerId x = Some p → p ≠ "" →
  f_opcode f ∈ [1; 2] →
  on_frame c (f_opcode f) (f_payload f) w
  = set_emitted (λ l, l ++ frame_events p [f]) w.
Proof.
  intros Hx Hp Hne Hop.
  assert (Ht : truthy_str (Some p) = true).
  { simpl. apply negb_true_iff, String.eqb_neq. done. }
  assert (Hnil : set_emitted (λ l, l ++ []) w = w).
  { destruct w. unfold set_emitted. simpl. by rewrite app_nil_r. }
  unfold on_frame, onMessage, frame_events. simpl omap.
  apply elem_of_cons in Hop as [->|Hop].
  - simpl. by rewrite Hx, Hp, Ht.
  - apply list_elem_of_singleton in Hop as ->. simpl.
    by rewrite Hx, Hp, Ht, emit_frame.
Qed.

Lemma on_frames_identified (c : nat) (x : Wire) (p : string) (fs : list frame) :
  ∀ w : World,
  wires w !! c = Some x → remotePeerId x = Some p → p ≠ "" →
  Forall (λ f, f_opcode f ∈ [1; 2]) fs →
  on_frames c fs w = set_emitted (λ l, l ++ frame_events p fs) w.
Proof.
  induction fs as [|f fs IH]; intros w Hx Hp Hne Hops.
  - destruct w. unfold on_frames, set_emitted. simpl. by rewrite app_nil_r.
  - apply Forall_cons in Hops as [Hop Hops].
    change (on_frames c (f :: fs) w)
      with (on_frames c fs (on_frame c (f_opcode f) (f_payload f) w)).
    rewrite (on_frame_identified c x p f w Hx Hp Hne Hop).
    rewrite IH by done.
    unfold set_emitted, frame_events. simpl.
    destruct (f_opcode f =? 2); simpl; by rewrite <- ?app_assoc, ?app_nil_r.
Qed.

Lemma ws_identified_stream_aux (c : nat) (conn : WsConnection) (x : Wire)
    (p : string) (fs : list frame) (w : World) :
  conns w !! c = Some conn → _buf conn = [] →
  wires w !! c = Some x → remotePeerId x = Some p → p ≠ "" →
  Forall (λ f, f_opcode f ∈ [1; 2]) fs →
  Forall (sendable (c_maxPayloadBytes conn)) fs →
  _onData c (frames_on_wire (_expectMasked conn) fs) w
  = (set_emitted (λ l, l ++ frame_events p fs) w, Returned).
Proof.
  intros Hc Hbuf Hx Hp Hne Hops Hfs.
  pose proof (_onData_frames c fs [] conn w Hc Hbuf) as Hrun.
  rewrite app_nil_r in Hrun. rewrite Hrun; [| |done|constructor].
  2:{ eapply Forall_impl; [exact Hops|]. intros f Hf. simpl in *.
      apply elem_of_cons in Hf as [->|Hf]; [repeat constructor|].
      apply list_elem_of_singleton in Hf as ->. repeat constructor. }
  rewrite (on_frames_identified c x p fs w Hx Hp Hne Hops).
  by apply (_onData_nil c conn).
Qed.

(** X7: A chunk of whole text and binary frames on an identified connection:
    one [frame] event for each binary frame, in the order of arrival, with
    the sender's payload and the peer id of the hello; the text frames are
    dropped; nothing else changes. *)
Theorem ws_identified_stream (c : nat) (conn : WsConnection) (x : Wire)
    (p : string) (fs : list frame) (w : World) :
  conns w !! c = Some conn → _buf conn = [] →
  wires w !! c = Some x → remotePeerId x = Some p → p ≠ "" →
  Forall (λ f, f_opcode f ∈ [1; 2]) fs →
  Forall (sendable (c_maxPayloadBytes conn)) fs →
  _onData c (frames_on_wire (_expectMasked conn) fs) w
  = (set_emitted (λ l, l ++ frame_events p fs) w, Returned).
Proof. apply ws_identified_stream_aux. Qed.

(** *** Control frames *)

Lemma sendable_intro (max : Z) (op : Z) (P key : list Z) :
  Forall is_byte P → Forall is_byte key → length key = 4%nat →
  len P ≤ max → len P < 2 ^ 32 → sendable max (Frame op P key).
Proof. by intros; split_and!. Qed.

(** X8: A ping is answered with a pong that carries the ping's payload, masked
    the way this end masks what it sends; a pong is dropped. Neither emits
    an event nor touches the registry, whether or not the connection has
    completed its hello. *)
Theorem ws_ping_is_answered (c : nat) (conn : WsConnection) (P key : list Z)
    (w : World) :
  conns w !! c = Some conn → _buf conn = [] →
  Forall is_byte P → Forall is_byte key → length key = 4%nat →
  len P ≤ c_maxPayloadBytes conn → len P < 2 ^ 32 →
  _onData c (buildFrame 9 P (_expectMasked conn) key) w
  = (socket_call c (SockWrite (OutFrame 10 P (_maskOutgoing conn))) w, Returned)
  ∧ _onData c (buildFrame 10 P (_expectMasked conn) key) w = (w, Returned).
Proof.
  intros Hc Hbuf HP Hk Hk4 Hmax H32.
  pose proof (sendable_intro _ 9 P key HP Hk Hk4 Hmax H32) as H9.
  pose proof (sendable_intro _ 10 P key HP Hk Hk4 Hmax H32) as H10.
  split.
  - pose proof (_onData_frame c conn w (Frame 9 P key) [] Hc Hbuf
      ltac:(repeat constructor) H9 ltac:(constructor)) as Hrun.
    simpl in Hrun. rewrite app_nil_r in Hrun. rewrite Hrun.
    unfold on_frame. simpl. unfold mask_of. rewrite Hc. simpl.
    destruct (socket_call_codec c (SockWrite (OutFrame 10 P (_maskOutgoing conn)))
      conn w Hc) as (conn' & Hc' & Hb' & _).
    apply (_onData_nil c conn' _ Hc'). by rewrite Hb'.
  - pose proof (_onData_frame c conn w (Frame 10 P key) [] Hc Hbuf
      ltac:(repeat constructor) H10 ltac:(constructor)) as Hrun.
    simpl in Hrun. rewrite app_nil_r in Hrun. rewrite Hrun.
    by apply (_onData_nil c conn).
Qed.

(** X9: A close frame is answered with a close frame that ends the write side of
    the socket, and [_onData] returns at once: what follows the close frame
    in the chunk stays in the buffer, no event is emitted, and the registry
    keeps the peer until the socket's [close] or [end] event. *)
Theorem ws_close_frame_ends_the_socket (c : nat) (conn : WsConnection)
    (P key T : list Z) (w : World) :
  conns w !! c = Some conn → _buf conn = [] →
  Forall is_byte P → length key = 4%nat →
  len P ≤ c_maxPayloadBytes conn → len P < 2 ^ 32 →
  let w' := (_onData c (buildFrame 8 P (_expectMasked conn) key ++ T) w).1 in
  _onData c (buildFrame 8 P (_expectMasked conn) key ++ T) w
  = (close c (with_buf c T w), Returned)
  ∧ conns w' !! c
    = Some (Conn (_maskOutgoing conn) (_expectMasked conn) (c_maxPayloadBytes conn) T
              (_socket conn ++ [SockEnd (OutFrame 8 [] (_maskOutgoing conn))]))
  ∧ emitted w' = emitted w ∧ tr w' = tr w ∧ wires w' = wires w.
Proof.
  intros Hc Hbuf HP Hk4 Hmax H32 w'.
  assert (Hrun : _onData c (buildFrame 8 P (_expectMasked conn) key ++ T) w
                 = (close c (with_buf c T w), Returned)).
  { unfold _onData. rewrite Hc, Hbuf. cbv zeta. simpl app.
    rewrite (insert_set_buf c conn _ w Hc).
    assert (Hparse : tryParseFrame (buildFrame 8 P (_expectMasked conn) key ++ T)
                       (_expectMasked conn) (c_maxPayloadBytes conn) = Parsed 8 P T).
    { apply buildFrame_parse_app; done || lia. }
    destruct (length (buildFrame 8 P (_expectMasked conn) key ++ T));
      cbn [onData_loop]; rewrite with_buf_lookup, Hc; simpl;
      rewrite Hparse; simpl;
      rewrite (insert_set_buf c (set_buf (buildFrame 8 P (_expectMasked conn) key ++ T) conn))
        by (by rewrite with_buf_lookup, Hc);
      by rewrite with_buf_twice. }
  split; [done|]. unfold w'. rewrite Hrun. simpl.
  split; [|done].
  rewrite lookup_alter_eq, lookup_alter_eq, Hc. simpl.
  unfold mask_of. by rewrite with_buf_lookup, Hc.
Qed.

(** *** From [send] on one end to the [frame] event on the other *)


(** *** The hello of one end at the other end *)


(** *** A hello from another peer than the expected one *)

(** X12: On the dialling end, a hello that names another peer than the expected
    one makes the transport emit [error] and end the write side of the
    socket, and the peer is not registered and not announced; but the
    connection has taken the peer id of that hello, and a binary frame that
    arrives behind it is emitted as a [frame] event of that peer. *)
Theorem ws_frames_after_peer_mismatch (c : nat) (conn : WsConnection) (x : Wire)
    (obj : json) (q : string) (hello P key1 key2 : list Z) (w : World) :
  conns w !! c = Some conn → _buf conn = [] →
  wires w !! c = Some x → remotePeerId x = None → outbound x = true →
  _expectedPeerId (tr w) = Some q → q ≠ "" → q ≠ hello_peerId obj →
  JSON_parse (TextDecoder_decode hello) = Some obj →
  invalid_hello_fields obj = false →
  sendable (c_maxPayloadBytes conn) (Frame 1 hello key1) →
  sendable (c_maxPayloadBytes conn) (Frame 2 P key2) →
  let w' := (_onData c (buildFrame 1 hello (_expectMasked conn) key1
                        ++ buildFrame 2 P (_expectMasked conn) key2) w).1 in
  emitted w'
  = emitted w ++ [EvError "WebSocketTransport peerId mismatch";
                  EvFrame (hello_peerId obj) P]
  ∧ _peers (tr w') = _peers (tr w)
  ∧ _socket <$> conns w' !! c
    = Some (_socket conn ++ [SockEnd (OutFrame 8 [] (_maskOutgoing conn))]).
Proof.
  intros Hc Hbuf Hx Hid Hout Hexp Hq Hne Hparse Hvalid Hf1 Hf2 w'.
  assert (Hops : Forall (λ f, f_opcode f ∈ [1; 2; 9; 10])
                   [Frame 1 hello key1; Frame 2 P key2]).
  { apply Forall_cons; split; [repeat constructor|].
    apply Forall_cons; split; [repeat constructor|constructor]. }
  assert (Hfs : Forall (sendable (c_maxPayloadBytes conn))
                  [Frame 1 hello key1; Frame 2 P key2]).
  { apply Forall_cons; split; [done|]. apply Forall_cons; split; [done|constructor]. }
  pose proof (_onData_frames c [Frame 1 hello key1; Frame 2 P key2] [] conn w
    Hc Hbuf Hops Hfs ltac:(constructor)) as Hrun.
  unfold frames_on_wire in Hrun. simpl in Hrun. rewrite !app_nil_r in Hrun.
  unfold w'. rewrite Hrun. clear Hrun w'.
  set (p := hello_peerId obj) in *.
  assert (Ht : truthy_str (Some p) = true).
  { unfold p, hello_peerId, invalid_hello_fields in *.
    apply orb_false_iff in Hvalid as [_ Hvalid].
    destruct (prop obj "peerId") as [[| | |s| |]|]; try done.
    simpl. by rewrite Hvalid. }
  assert (H1 : on_frame c 1 hello w
    = close c (emit (EvError "WebSocketTransport peerId mismatch")
        (set_wires (<[c := set_remotePeerId (Some p) x]>) w))).
  { unfold on_frame, onMessage. simpl. rewrite Hx, Hid. simpl.
    rewrite Hparse, Hvalid. cbv zeta. cbn [tr set_wires]. rewrite Hout, Hexp.
    simpl truthy_str. rewrite (proj2 (String.eqb_neq q "") Hq).
    fold p. rewrite bool_decide_eq_false_2 by congruence. done. }
  unfold on_frames. simpl foldl. rewrite H1.
  set (w1 := close c _).
  assert (Hw1 : wires w1 = <[c := set_remotePeerId (Some p) x]> (wires w)).
  { unfold w1, close, socket_call. simpl. by rewrite emit_wires. }
  assert (Hc1 : ∃ conn1, conns w1 !! c = Some conn1 ∧ _buf conn1 = []
    ∧ _socket conn1 = _socket conn ++ [SockEnd (OutFrame 8 [] (_maskOutgoing conn))]).
  { unfold w1, close, socket_call, mask_of. simpl. rewrite emit_conns. simpl.
    rewrite lookup_alter_eq, Hc. simpl. eexists. split; [done|]. by split. }
  assert (He1 : emitted w1
                = emitted w ++ [EvError "WebSocketTransport peerId mismatch"]).
  { unfold w1, close, socket_call. simpl. by rewrite emit_emitted. }
  assert (Hp1 : _peers (tr w1) = _peers (tr w)).
  { unfold w1, close, socket_call. simpl. by rewrite emit_peers. }
  clearbody w1.
  assert (H2 : on_frame c 2 P w1 = emit (EvFrame p P) w1).
  { unfold on_frame, onMessage. simpl. rewrite Hw1, lookup_insert_eq.
    cbn [remotePeerId set_remotePeerId]. by rewrite Ht. }
  rewrite H2, emit_frame.
  destruct Hc1 as (conn1 & Hc1 & Hb1 & Hs1).
  rewrite (_onData_nil c conn1 (set_emitted (λ l, l ++ [EvFrame p P]) w1) Hc1 Hb1).
  simpl. split_and!.
  - by rewrite He1, <- app_assoc.
  - done.
  - by rewrite Hc1, <- Hs1.
Qed.

End ws_frames.
(** ** Instances on concrete transports *)

Section ws_frames_witness.
Import Buffer WsCodec Ws.
#[local] Existing Instance example_host.

Ltac sendable_tac :=
  repeat first
    [ apply Forall_nil
    | apply Forall_cons; split
    | progress unfold sendable, is_byte, len; simpl
    | split
    | lia
    | reflexivity ].

Lemma ws_chunk_boundaries_do_not_matter_witness :
  _onData 0 (drop 12 (frames_on_wire true three_frames))
    (_onData 0 (take 12 (frames_on_wire true three_frames)) ws_identified).1
  = _onData 0 (frames_on_wire true three_frames) ws_identified.
Proof.
  apply (ws_chunk_boundaries_do_not_matter 0 12 three_frames
           (Conn false true (1024 * 1024) [] []) ws_identified).
  - reflexivity.
  - reflexivity.
  - repeat constructor.
  - sendable_tac.
Defined.

Lemma ws_identified_stream_witness :
  _onData 0 (frames_on_wire true (take 2 three_frames)) ws_identified
  = (set_emitted (λ l, l ++ [EvFrame "B" [1; 2; 3]]) ws_identified, Returned).
Proof.
  apply (ws_identified_stream 0 (Conn false true (1024 * 1024) [] [])
           (MkWire false None (Some "B") false) "B" (take 2 three_frames)
           ws_identified).
  - reflexivity.
  - reflexivity.
  - reflexivity.
  - reflexivity.
  - discriminate.
  - repeat constructor.
  - sendable_tac.
Defined.

Lemma ws_ping_is_answered_witness :
  _onData 0 (buildFrame 9 [7] true [1; 2; 3; 4]) ws_identified
  = (socket_call 0 (SockWrite (OutFrame 10 [7] false)) ws_identified, Returned)
  ∧ _onData 0 (buildFrame 10 [7] true [1; 2; 3; 4]) ws_identified
    = (ws_identified, Returned).
Proof.
  apply (ws_ping_is_answered 0 (Conn false true (1024 * 1024) [] []) [7]
           [1; 2; 3; 4] ws_identified); sendable_tac.
Defined.

Lemma ws_close_frame_ends_the_socket_witness :
  _onData 0 (buildFrame 8 [] true [1; 2; 3; 4] ++ [0x82]) ws_identified
  = (close 0 (with_buf 0 [0x82] ws_identified), Returned)
  ∧ conns (_onData 0 (buildFrame 8 [] true [1; 2; 3; 4] ++ [0x82]) ws_identified).1
      !! 0%nat
    = Some (Conn false true (1024 * 1024) [0x82] [SockEnd (OutFrame 8 [] false)])
  ∧ emitted (_onData 0 (buildFrame 8 [] true [1; 2; 3; 4] ++ [0x82]) ws_identified).1
    = []
  ∧ tr (_onData 0 (buildFrame 8 [] true [1; 2; 3; 4] ++ [0x82]) ws_identified).1
    = tr ws_identified
  ∧ wires (_onData 0 (buildFrame 8 [] true [1; 2; 3; 4] ++ [0x82]) ws_identified).1
    = wires ws_identified.
Proof.
  apply (ws_close_frame_ends_the_socket 0 (Conn false true (1024 * 1024) [] []) []
           [1; 2; 3; 4] [0x82] ws_identified); sendable_tac.
Defined.



Lemma ws_frames_after_peer_mismatch_witness :
  let w := _startClient_connected 0 "ws://a/" (ws_client "B" "ws://a/" (Some "C")) in
  let w' := (_onData 0 (buildFrame 1 (ascii_bytes (hello_text "A")) false [1; 2; 3; 4]
                        ++ buildFrame 2 [7; 8] false [1; 2; 3; 4]) w).1 in
  emitted w'
  = emitted w ++ [EvError "WebSocketTransport peerId mismatch"; EvFrame "A" [7; 8]]
  ∧ _peers (tr w') = _peers (tr w)
  ∧ _socket <$> conns w' !! 0%nat
    = Some ([SockWrite (OutFrame 1 (hello_bytes "B") true)]
            ++ [SockEnd (OutFrame 8 [] true)]).
Proof.
  intros w.
  apply (ws_frames_after_peer_mismatch 0
           (Conn true false (1024 * 1024) [] [SockWrite (OutFrame 1 (hello_bytes "B") true)])
           (MkWire true (Some "ws://a/") None false) (hello_object "A") "C"
           (ascii_bytes (hello_text "A")) [7; 8] [1; 2; 3; 4] [1; 2; 3; 4] w);
    try reflexivity; try discriminate.
  - unfold sendable. simpl f_payload. simpl f_key.
    split_and!; try reflexivity.
    + vm_compute. repeat constructor; discriminate.
    + repeat constructor; unfold is_byte; lia.
    + vm_compute. discriminate.
  - sendable_tac.
Defined.

End ws_frames_witness.
(** ** The TCP data listener on a stream of units *)

Section tcp_stream.
Import Buffer Tcp.
Context `{Host}.

Lemma tcp_insert_set_buf (s : nat) (h : Handler) (T : list Z) (w : World) :
  handlers w !! s = Some h →
  set_handlers (<[s := set_buf T h]>) w = tcp_with_buf s T w.
Proof.
  intros Hh. unfold tcp_with_buf, set_handlers. f_equal. apply map_eq. intros i.
  destruct (decide (i = s)) as [->|Hne].
  - by rewrite lookup_insert_eq, lookup_alter_eq, Hh.
  - by rewrite lookup_insert_ne, lookup_alter_ne.
Qed.

Lemma tcp_with_buf_id (s : nat) (h : Handler) (w : World) :
  handlers w !! s = Some h → tcp_with_buf s (buf h) w = w.
Proof.
  intros Hh. destruct w as [t ss hs ds em nx]. unfold tcp_with_buf, set_handlers.
  simpl in *. f_equal. apply map_eq. intros i.
  destruct (decide (i = s)) as [->|Hne].
  - rewrite lookup_alter_eq, Hh. simpl. by destruct h.
  - by rewrite lookup_alter_ne.
Qed.

Lemma tcp_with_buf_twice (s : nat) (T T' : list Z) (w : World) :
  tcp_with_buf s T (tcp_with_buf s T' w) = tcp_with_buf s T w.
Proof.
  unfold tcp_with_buf, set_handlers. simpl. f_equal. apply map_eq. intros i.
  destruct (decide (i = s)) as [->|Hne].
  - rewrite !lookup_alter_eq. by destruct (handlers w !! s).
  - by rewrite !lookup_alter_ne.
Qed.

Lemma tcp_with_buf_lookup (s : nat) (T : list Z) (w : World) :
  handlers (tcp_with_buf s T w) !! s = set_buf T <$> handlers w !! s.
Proof. unfold tcp_with_buf. simpl. by rewrite lookup_alter_eq. Qed.

Lemma writeUInt32BE_bytes (v : Z) : Forall is_byte (writeUInt32BE v).
Proof.
  repeat constructor; unfold is_byte; rewrite land_255_mod; dlia.
Qed.

Lemma encodeFrame_bytes (P : list Z) :
  Forall is_byte P → Forall is_byte (encodeFrame P).
Proof.
  intros HP. unfold encodeFrame. apply Forall_app. split.
  - apply writeUInt32BE_bytes.
  - by apply Forall_take.
Qed.

Lemma encodeFrame_length (P : list Z) :
  len P < 2 ^ 32 → length (encodeFrame P) = (4 + length P)%nat.
Proof. intros H32. rewrite encodeFrame_eq by done. by rewrite length_app. Qed.

(** One pass of the loop over a unit at the head of the buffer of an
    identified socket. *)
Lemma tcp_onData_loop_unit (fuel s : nat) (h : Handler) (w : World) (p : string)
    (P T : list Z) :
  handlers w !! s = Some h →
  buf h = encodeFrame P ++ T →
  remotePeerId h = Some p → p ≠ "" →
  tcp_sendable (_maxFrameBytes (tr w)) P → Forall is_byte T →
  (length (buf h) ≤ fuel)%nat →
  onData_loop fuel s w
  = onData_loop (length T) s
      (set_emitted (λ l, l ++ [EvFrame p P]) (tcp_with_buf s T w)).
Proof.
  intros Hh Hbuf Hp Hne (HP & Hmax & H32) HT Hfuel.
  pose proof (len_nonneg P) as Hnn.
  pose proof (encodeFrame_length P H32) as Hlen.
  rewrite Hbuf, length_app, Hlen in Hfuel.
  destruct fuel as [|fuel]; [lia|].
  assert (Hlenb : len (buf h) = 4 + len P + len T).
  { rewrite Hbuf, len_app. unfold len at 1. rewrite Hlen. unfold len. lia. }
  pose proof (len_nonneg T) as HnT.
  assert (Hrd : readUInt32BE (buf h) 0 = len P).
  { rewrite Hbuf, encodeFrame_eq, <- app_assoc by done.
    apply readUInt32BE_writeUInt32BE. lia. }
  assert (Hpay : subarray (buf h) 4 (4 + len P) = P).
  { rewrite Hbuf, encodeFrame_eq, <- app_assoc by done.
    by apply subarray_app_mid. }
  assert (Hrest : subarray_from (buf h) (4 + len P) = T).
  { rewrite Hbuf. apply subarray_from_app.
    unfold len at 2. rewrite Hlen. unfold len. lia. }
  assert (Ht : truthy_str (Some p) = true).
  { simpl. apply negb_true_iff, String.eqb_neq. done. }
  cbn [onData_loop]. rewrite Hh, Hlenb, Hrd.
  rewrite (proj2 (Z.ltb_ge _ 4)) by lia.
  rewrite Z.gtb_ltb, (proj2 (Z.ltb_ge _ _)) by lia.
  rewrite (proj2 (Z.ltb_ge _ _)) by lia.
  rewrite Hpay, Hrest. cbn [remotePeerId set_buf]. rewrite Hp, Ht. simpl negb.
  cbv iota. simpl default.
  rewrite (tcp_insert_set_buf s h T w Hh), tcp_emit_frame.
  apply (tcp_onData_loop_fuel _ _ s (set_buf T h)).
  - cbn [handlers set_emitted]. by rewrite tcp_with_buf_lookup, Hh.
  - done.
  - simpl. lia.
  - simpl. lia.
Qed.

(** [onData] on a chunk that starts with a whole unit, on an identified
    socket with an empty buffer: a [frame] event, then the rest of the chunk. *)
Lemma tcp_onData_unit (s : nat) (h : Handler) (w : World) (p : string) (P T : list Z) :
  handlers w !! s = Some h → buf h = [] →
  remotePeerId h = Some p → p ≠ "" →
  tcp_sendable (_maxFrameBytes (tr w)) P → Forall is_byte T →
  onData s (encodeFrame P ++ T) w
  = onData s T (set_emitted (λ l, l ++ [EvFrame p P]) w).
Proof.
  intros Hh Hbuf Hp Hne HP HT.
  unfold onData. cbn [handlers set_emitted]. rewrite Hh, Hbuf. cbv zeta. simpl app.
  rewrite (tcp_insert_set_buf s h _ w Hh).
  rewrite (tcp_insert_set_buf s h T (set_emitted _ w) Hh).
  rewrite (tcp_onData_loop_unit _ s (set_buf (encodeFrame P ++ T) h) _ p P T);
    try done.
  - by rewrite tcp_with_buf_twice.
  - by rewrite tcp_with_buf_lookup, Hh.
Qed.

Lemma tcp_onData_incomplete (s : nat) (h : Handler) (chunk : list Z) (w : World) :
  handlers w !! s = Some h →
  len (buf h ++ chunk) < 4
  ∨ (readUInt32BE (buf h ++ chunk) 0 ≤ _maxFrameBytes (tr w)
     ∧ len (buf h ++ chunk) < 4 + readUInt32BE (buf h ++ chunk) 0) →
  onData s chunk w = tcp_with_buf s (buf h ++ chunk) w.
Proof.
  intros Hh Hshort. unfold onData. rewrite Hh. cbv zeta.
  rewrite (tcp_insert_set_buf s h _ w Hh).
  destruct (length (buf h ++ chunk)); cbn [onData_loop];
    rewrite tcp_with_buf_lookup, Hh; simpl;
    (destruct (Z.ltb_spec (len (buf h ++ chunk)) 4); [done|]);
    (destruct Hshort as [|[Hmax Hlt]]; [lia|]);
    rewrite Z.gtb_ltb, (proj2 (Z.ltb_ge _ _)) by done;
    by rewrite (proj2 (Z.ltb_lt _ _)) by done.
Qed.

Lemma tcp_onData_nil (s : nat) (h : Handler) (w : World) :
  handlers w !! s = Some h → buf h = [] → onData s [] w = w.
Proof.
  intros Hh Hbuf. rewrite (tcp_onData_incomplete s h [] w Hh).
  - rewrite app_nil_r. by apply tcp_with_buf_id.
  - left. rewrite Hbuf. simpl. unfold len. simpl. lia.
Qed.

Lemma units_on_wire_cons (P : list Z) (Ps : list (list Z)) :
  units_on_wire (P :: Ps) = encodeFrame P ++ units_on_wire Ps.
Proof. done. Qed.

Lemma units_on_wire_bytes (max : Z) (Ps : list (list Z)) :
  Forall (tcp_sendable max) Ps → Forall is_byte (units_on_wire Ps).
Proof.
  induction 1 as [|P Ps (HP & _) _ IH]; [constructor|].
  rewrite units_on_wire_cons. apply Forall_app. split; [|done].
  by apply encodeFrame_bytes.
Qed.

Lemma set_emitted_nil (w : World) : set_emitted (λ l, l ++ []) w = w.
Proof. destruct w. unfold set_emitted. simpl. by rewrite app_nil_r. Qed.

Lemma set_emitted_app (a b : list event) (w : World) :
  set_emitted (λ l, l ++ b) (set_emitted (λ l, l ++ a) w)
  = set_emitted (λ l, l ++ (a ++ b)) w.
Proof. unfold set_emitted. simpl. by rewrite app_assoc. Qed.

(** A chunk of whole units followed by more bytes, on an identified socket:
    one [frame] event for each unit, in order, then the rest of the chunk. *)
Lemma tcp_onData_units (s : nat) (h : Handler) (p : string) (Ps : list (list Z))
    (T : list Z) :
  ∀ w : World,
  handlers w !! s = Some h → buf h = [] →
  remotePeerId h = Some p → p ≠ "" →
  Forall (tcp_sendable (_maxFrameBytes (tr w))) Ps → Forall is_byte T →
  onData s (units_on_wire Ps ++ T) w
  = onData s T (set_emitted (λ l, l ++ (EvFrame p <$> Ps)) w).
Proof.
  induction Ps as [|P Ps IH]; intros w Hh Hbuf Hp Hne HPs HT.
  - simpl. by rewrite set_emitted_nil.
  - apply Forall_cons in HPs as [HP HPs].
    rewrite units_on_wire_cons, <- app_assoc.
    rewrite (tcp_onData_unit s h w p P _ Hh Hbuf Hp Hne HP).
    + rewrite IH by done. by rewrite set_emitted_app.
    + apply Forall_app. split; [|done]. by eapply units_on_wire_bytes.
Qed.

Lemma tcp_onData_split (s : nat) (h : Handler) (p : string) (Ps : list (list Z)) :
  ∀ (n : nat) (w : World),
  handlers w !! s = Some h → buf h = [] →
  remotePeerId h = Some p → p ≠ "" →
  Forall (tcp_sendable (_maxFrameBytes (tr w))) Ps →
  onData s (drop n (units_on_wire Ps)) (onData s (take n (units_on_wire Ps)) w)
  = onData s (units_on_wire Ps) w.
Proof.
  induction Ps as [|P Ps IH]; intros n w Hh Hbuf Hp Hne HPs.
  { change (units_on_wire []) with (@nil Z). rewrite take_nil, drop_nil.
    by rewrite !(tcp_onData_nil s h w Hh Hbuf). }
  apply Forall_cons in HPs as [HP HPs].
  rewrite units_on_wire_cons.
  pose proof (units_on_wire_bytes _ Ps HPs) as HS.
  pose proof HP as (HPb & Hmax & H32).
  pose proof (encodeFrame_length P H32) as Hlen.
  destruct (le_lt_dec (length (encodeFrame P)) n) as [Hn|Hn].
  - rewrite take_app_ge, drop_app_ge by done.
    rewrite (tcp_onData_unit s h w p P _ Hh Hbuf Hp Hne HP) by by apply Forall_take.
    rewrite (tcp_onData_unit s h w p P _ Hh Hbuf Hp Hne HP) by done.
    by apply IH.
  - rewrite take_app_le, drop_app_le by lia.
    rewrite (tcp_onData_incomplete s h (take n (encodeFrame P)) w Hh).
    + rewrite Hbuf. simpl app. unfold onData at 1 2.
      rewrite tcp_with_buf_lookup, Hh. simpl. cbv zeta.
      rewrite (app_assoc (take n (encodeFrame P))), take_drop.
      rewrite (tcp_insert_set_buf s h _ w Hh).
      rewrite (tcp_insert_set_buf s (set_buf (take n (encodeFrame P)) h) _
                 (tcp_with_buf s (take n (encodeFrame P)) w))
        by by rewrite tcp_with_buf_lookup, Hh.
      by rewrite tcp_with_buf_twice, Hbuf.
    + rewrite Hbuf. simpl app. rewrite Hlen in Hn.
      pose proof (len_nonneg P) as Hnn.
      assert (Hlt : len (take n (encodeFrame P)) = Z.of_nat n).
      { unfold len. rewrite length_take, Hlen. lia. }
      destruct (le_lt_dec 4 n) as [H4|H4]; [right|left; lia].
      rewrite Hlt. rewrite encodeFrame_eq by done.
      rewrite take_app_ge by (simpl; lia).
      rewrite readUInt32BE_writeUInt32BE by lia. unfold len in *. lia.
Qed.

(** X13: Whole units on an identified socket, delivered in one chunk: one [frame]
    event for each, in the order of arrival, with the payload that was encoded
    and the peer id of the hello; nothing else changes. *)
Theorem tcp_identified_stream (s : nat) (h : Handler) (p : string)
    (Ps : list (list Z)) (w : World) :
  handlers w !! s = Some h → buf h = [] →
  remotePeerId h = Some p → p ≠ "" →
  Forall (tcp_sendable (_maxFrameBytes (tr w))) Ps →
  onData s (units_on_wire Ps) w = set_emitted (λ l, l ++ (EvFrame p <$> Ps)) w.
Proof.
  intros Hh Hbuf Hp Hne HPs.
  pose proof (tcp_onData_units s h p Ps [] w Hh Hbuf Hp Hne HPs ltac:(constructor))
    as Hrun.
  rewrite app_nil_r in Hrun. rewrite Hrun.
  by apply (tcp_onData_nil s h).
Qed.

(** X14: Where the stream is cut into chunks does not matter: an identified
    socket with an empty buffer that receives whole units in two chunks cut
    at any byte ends in the same state as when it receives them in one. *)
Theorem tcp_chunk_boundaries_do_not_matter (s n : nat) (h : Handler) (p : string)
    (Ps : list (list Z)) (w : World) :
  handlers w !! s = Some h → buf h = [] →
  remotePeerId h = Some p → p ≠ "" →
  Forall (tcp_sendable (_maxFrameBytes (tr w))) Ps →
  onData s (drop n (units_on_wire Ps)) (onData s (take n (units_on_wire Ps)) w)
  = onData s (units_on_wire Ps) w.
Proof. intros. by eapply tcp_onData_split. Qed.

(** *** From [send] on one end to the [frame] event on the other *)

(** X15: [send] to a registered peer writes one length-prefixed unit to that
    peer's socket, and these bytes, delivered in one chunk to the identified
    socket at the other end (with a ceiling the payload fits under), are
    emitted there as one [frame] event with the bytes that were sent. *)
Theorem tcp_sent_frame_is_received (to : string) (sa sb : nat)
    (calls : list sock_call) (h : Handler) (p : string) (bytes : list Z)
    (expected : option string) (wa wb : World) :
  _started (tr wa) = true →
  _peers (tr wa) !! to = Some sa → sockets wa !! sa = Some calls →
  handlers wb !! sb = Some h → buf h = [] →
  remotePeerId h = Some p → p ≠ "" →
  tcp_sendable (_maxFrameBytes (tr wb)) bytes →
  ∃ data,
    send to (Uint8Array bytes) expected wa
    = (socket_call sa (SockWrite data) wa, SendReturned)
    ∧ sockets (send to (Uint8Array bytes) expected wa).1 !! sa
      = Some (calls ++ [SockWrite data])
    ∧ onData sb data wb = set_emitted (λ l, l ++ [EvFrame p bytes]) wb.
Proof.
  intros Hst Hto Hsa Hh Hbuf Hp Hne Hb.
  exists (encodeFrame bytes).
  assert (Hsend : send to (Uint8Array bytes) expected wa
                  = (socket_call sa (SockWrite (encodeFrame bytes)) wa, SendReturned)).
  { unfold send. by rewrite Hst, Hto. }
  split; [done|]. split.
  - rewrite Hsend. simpl. by rewrite lookup_alter_eq, Hsa.
  - pose proof (tcp_onData_units sb h p [bytes] [] wb Hh Hbuf Hp Hne
      ltac:(apply Forall_cons; split; [exact Hb|constructor]) ltac:(constructor))
      as Hrun.
    change (units_on_wire [bytes] ++ []) with ((encodeFrame bytes ++ []) ++ []) in Hrun.
    rewrite !app_nil_r in Hrun.
    change (EvFrame p <$> [bytes]) with [EvFrame p bytes] in Hrun.
    rewrite Hrun. by apply (tcp_onData_nil sb h).
Qed.

(** *** The hello of one end at the other end *)


End tcp_stream.

Section tcp_stream_witness.
Import Buffer Tcp.
#[local] Existing Instance example_host.

Ltac tcp_sendable_tac :=
  repeat first
    [ apply Forall_nil
    | apply Forall_cons; split
    | progress unfold tcp_sendable, is_byte, len; simpl
    | split
    | lia
    | reflexivity ].

Lemma tcp_identified_stream_witness :
  onData 0 (units_on_wire [[1; 2; 3]; []; [4]]) tcp_identified
  = set_emitted (λ l, l ++ [EvFrame "B" [1; 2; 3]; EvFrame "B" []; EvFrame "B" [4]])
      tcp_identified.
Proof.
  apply (tcp_identified_stream 0 (MkHandler false [] (Some "B") false) "B"
           [[1; 2; 3]; []; [4]] tcp_identified);
    first [discriminate | tcp_sendable_tac].
Defined.

Lemma tcp_chunk_boundaries_do_not_matter_witness :
  onData 0 (drop 6 (units_on_wire [[1; 2; 3]; []; [4]]))
    (onData 0 (take 6 (units_on_wire [[1; 2; 3]; []; [4]])) tcp_identified)
  = onData 0 (units_on_wire [[1; 2; 3]; []; [4]]) tcp_identified.
Proof.
  apply (tcp_chunk_boundaries_do_not_matter 0 6 (MkHandler false [] (Some "B") false)
           "B" [[1; 2; 3]; []; [4]] tcp_identified);
    first [discriminate | tcp_sendable_tac].
Defined.

Lemma tcp_sent_frame_is_received_witness :
  ∃ data,
    send "B" (Uint8Array [1; 2; 3]) None tcp_identified
    = (socket_call 0 (SockWrite data) tcp_identified, SendReturned)
    ∧ sockets (send "B" (Uint8Array [1; 2; 3]) None tcp_identified).1 !! 0%nat
      = Some ([] ++ [SockWrite data])
    ∧ onData 0 data tcp_identified
      = set_emitted (λ l, l ++ [EvFrame "B" [1; 2; 3]]) tcp_identified.
Proof.
  apply (tcp_sent_frame_is_received "B" 0 0 [] (MkHandler false [] (Some "B") false)
           "B" [1; 2; 3] None tcp_identified tcp_identified);
    first [discriminate | tcp_sendable_tac].
Defined.


End tcp_stream_witness.
(** ** A dialled socket completes its hello *)

Section dial_hello.
Import Buffer Tcp.
Context `{Host}.

(** An attempt that no reaction and no [connection] event changes: it is
    pending or its [finally] callback has run. *)
Lemma react_inert (d : Dial) (w : World) :
  d_promise d = Pending ∨ d_finally d = true → react d w = (w, d).
Proof.
  intros Hd. unfold react. destruct (d_promise d); [done| |];
    (destruct Hd as [Hd|Hd]; [done|by rewrite Hd]).
Qed.

Lemma run_reactions_inert (ds : list Dial) (w : World) :
  (∀ d, d ∈ ds → d_promise d = Pending ∨ d_finally d = true) →
  run_reactions ds w = (w, ds).
Proof.
  induction ds as [|d ds IH]; intros Hds; simpl; [done|].
  rewrite react_inert by (apply Hds, elem_of_cons; by left).
  rewrite IH; [done|]. intros d' Hd'. apply Hds, elem_of_cons. by right.
Qed.

Lemma run_reactions_app (pre post : list Dial) (w : World) :
  (∀ d, d ∈ pre → d_promise d = Pending ∨ d_finally d = true) →
  run_reactions (pre ++ post) w
  = ((run_reactions post w).1, pre ++ (run_reactions post w).2).
Proof.
  induction pre as [|d pre IH]; intros Hpre; simpl.
  { by destruct (run_reactions post w). }
  rewrite react_inert by (apply Hpre, elem_of_cons; by left).
  rewrite IH; [done|]. intros d' Hd'. apply Hpre, elem_of_cons. by right.
Qed.

(** Among attempts of which only [d] can react, the reactions are those of [d]. *)
Lemma run_reactions_one (pre post : list Dial) (d : Dial) (w : World) :
  (∀ d', d' ∈ pre ++ post → d_promise d' = Pending ∨ d_finally d' = true) →
  run_reactions (pre ++ d :: post) w
  = ((react d w).1, pre ++ (react d w).2 :: post).
Proof.
  intros Hother. rewrite run_reactions_app.
  - simpl. destruct (react d w) as [w1 d1]. simpl.
    rewrite run_reactions_inert; [done|].
    intros d' Hd'. apply Hother, elem_of_app. by right.
  - intros d' Hd'. apply Hother, elem_of_app. by left.
Qed.

Lemma onConn_other (p : string) (s : nat) (d : Dial) (w : World) :
  _peers (tr w) !! p = Some s → d_socket d ≠ s → onConn p d w = (w, d).
Proof.
  intros Hp Hne. unfold onConn. destruct (d_done d); [done|].
  rewrite bool_decide_eq_false_2; [done|]. rewrite Hp. congruence.
Qed.

Lemma run_onConn_others (p : string) (s : nat) (ds : list Dial) (w : World) :
  _peers (tr w) !! p = Some s → (∀ d, d ∈ ds → d_socket d ≠ s) →
  run_onConn p ds w = (w, ds).
Proof.
  intros Hp. induction ds as [|d ds IH]; intros Hds; simpl; [done|].
  rewrite (onConn_other p s) by (try done; apply Hds, elem_of_cons; by left).
  rewrite IH; [done|]. intros d' Hd'. apply Hds, elem_of_cons. by right.
Qed.

Lemma onConn_tr (p : string) (d : Dial) (w : World) : tr (onConn p d w).1 = tr w.
Proof.
  unfold onConn. destruct (d_done d); [done|]. destruct (negb _); [done|].
  by destruct (_ && _).
Qed.

(** Among attempts of which only [d] is on the socket now registered for
    [p], the [connection] event reaches the listener of [d] alone. *)
Lemma run_onConn_one (p : string) (pre post : list Dial) (d : Dial) (w : World) :
  _peers (tr w) !! p = Some (d_socket d) →
  (∀ d', d' ∈ pre ++ post → d_socket d' ≠ d_socket d) →
  run_onConn p (pre ++ d :: post) w
  = ((onConn p d w).1, pre ++ (onConn p d w).2 :: post).
Proof.
  intros Hp Hother.
  induction pre as [|d0 pre IH]; simpl.
  - pose proof (onConn_tr p d w) as Ht.
    destruct (onConn p d w) as [w1 d1]. simpl in *.
    rewrite (run_onConn_others p (d_socket d)); [done|by rewrite Ht|].
    intros d' Hd'. by apply Hother.
  - rewrite (onConn_other p (d_socket d)); [|done|].
    + rewrite IH; [done|]. intros d' Hd'. apply Hother. simpl.
      apply elem_of_cons. by right.
    + apply Hother. simpl. apply elem_of_cons. by left.
Qed.

Lemma writes_sockets (s : nat) (payloads : list (list Z)) (w : World) :
  sockets (foldl (λ w bytes, _writeDataFrame s bytes w) w payloads) !! s
  = (λ calls, calls ++ (SockWrite ∘ encodeFrame <$> payloads)) <$> sockets w !! s.
Proof.
  revert w. induction payloads as [|b bs IH]; intros w; simpl.
  - destruct (sockets w !! s); simpl; [|done]. by rewrite app_nil_r.
  - rewrite IH. unfold _writeDataFrame, socket_call. simpl.
    rewrite lookup_alter_eq. destruct (sockets w !! s); simpl; [|done].
    by rewrite <- app_assoc.
Qed.

Lemma writes_frame_rest (s : nat) (payloads : list (list Z)) (w : World) :
  let w' := foldl (λ w bytes, _writeDataFrame s bytes w) w payloads in
  handlers w' = handlers w ∧ emitted w' = emitted w.
Proof.
  revert w. induction payloads as [|b bs IH]; intros w; simpl; [done|].
  destruct (IH (_writeDataFrame s b w)) as (-> & ->). done.
Qed.

(** [onData] on a fresh socket that receives a valid hello in one chunk. *)
Lemma onData_hello_exact (s : nat) (h : Handler) (payload : list Z) (obj : json)
    (w : World) :
  handlers w !! s = Some h →
  buf h = [] → remotePeerId h = None →
  Forall is_byte payload →
  len payload ≤ _maxFrameBytes (tr w) → len payload < 2 ^ 32 →
  JSON_parse (TextDecoder_decode payload) = Some obj →
  invalid_hello_fields obj = false →
  onData s (encodeFrame payload) w
  = emit (EvConnection (hello_peerId obj) (outbound h) None)
      (set_tr (set_peers (<[hello_peerId obj := s]>))
         (set_handlers
            (<[s := MkHandler (outbound h) [] (Some (hello_peerId obj)) (closed h)]>) w)).
Proof.
  intros Hh Hbuf Hid HP Hmax H32 Hparse Hvalid.
  unfold onData. rewrite Hh, Hbuf. cbv zeta. simpl app.
  rewrite encodeFrame_eq by done.
  pose proof (len_nonneg payload) as Hnn.
  assert (Hfuel : ∃ fuel, length (writeUInt32BE (len payload) ++ payload) = S (S fuel)).
  { simpl. eauto. }
  destruct Hfuel as [fuel ->].
  set (b := writeUInt32BE (len payload) ++ payload).
  assert (Hlenb : len b = 4 + len payload) by (unfold b; by rewrite len_app).
  assert (Hrd : readUInt32BE b 0 = len payload).
  { apply readUInt32BE_writeUInt32BE. lia. }
  assert (Hpay : subarray b 4 (4 + len payload) = payload).
  { pose proof (subarray_app_mid (writeUInt32BE (len payload)) payload [] 4
      (4 + len payload) eq_refl eq_refl) as Hs. by rewrite app_nil_r in Hs. }
  assert (Hrest : subarray_from b (4 + len payload) = []).
  { unfold subarray_from. apply drop_ge. unfold len in *. lia. }
  cbn [onData_loop]. cbn [handlers tr set_handlers]. rewrite lookup_insert_eq.
  cbn [buf set_buf].
  rewrite Hlenb, Hrd.
  rewrite (proj2 (Z.ltb_ge _ 4)) by lia.
  rewrite Z.gtb_ltb, (proj2 (Z.ltb_ge _ _)) by lia.
  rewrite (proj2 (Z.ltb_ge _ _)) by lia.
  rewrite Hpay, Hrest. simpl remotePeerId. rewrite Hid. simpl negb. cbv iota.
  rewrite Hparse, Hvalid. cbv zeta. cbn [outbound closed set_remotePeerId buf].
  set (w1 := set_tr _ (set_handlers _ (set_handlers _ (set_handlers _ w)))).
  assert (Hw1 : w1 = set_tr (set_peers (<[hello_peerId obj := s]>))
         (set_handlers
            (<[s := MkHandler (outbound h) [] (Some (hello_peerId obj)) (closed h)]>) w)).
  { unfold w1, set_tr, set_handlers. simpl. by rewrite !insert_insert_eq. }
  rewrite Hw1. clear w1 Hw1.
  match goal with |- context [emit (EvConnection ?p' ?o ?u) ?w0] =>
    pose proof (emit_connection_frame p' o u w0) as He;
    cbv zeta in He; set (w2 := emit (EvConnection p' o u) w0) in *
  end.
  destruct He as (_ & Hhd & _).
  cbn [handlers set_tr set_handlers] in Hhd.
  destruct fuel; cbn [onData_loop]; rewrite Hhd, lookup_insert_eq; cbn [buf];
    change (len [] <? 4) with true; reflexivity.
Qed.

Lemma writes_set_dials (s : nat) (payloads : list (list Z)) (ds : list Dial)
    (w : World) :
  foldl (λ w bytes, _writeDataFrame s bytes w) (set_dials (λ _, ds) w) payloads
  = set_dials (λ _, ds) (foldl (λ w bytes, _writeDataFrame s bytes w) w payloads).
Proof.
  revert w. induction payloads as [|b bs IH]; intros w; simpl; [done|].
  apply (IH (_writeDataFrame s b w)).
Qed.

Lemma react_set_dials (d : Dial) (w : World) (ds : list Dial) :
  react d (set_dials (λ _, ds) w)
  = (set_dials (λ _, ds) (react d w).1, (react d w).2).
Proof.
  unfold react. destruct (d_promise d); [done| |];
    (destruct (d_finally d); [done|]); cbn [fst snd]; f_equal.
  apply (writes_set_dials (d_socket d) (d_waiters d) ds
           (set_tr (set_dialing (delete (d_key d))) w)).
Qed.

(** The callback in which the hello of the dialled socket of attempt [d]
    arrives, with its microtask checkpoint: the peer is registered and
    [connection] is emitted, then the listener of [d] and the reactions to
    its promise run; no other attempt is involved. *)
Lemma dial_hello_step (pre post : list Dial) (d : Dial) (h : Handler)
    (payload : list Z) (obj : json) (w : World) :
  dial_invariant w →
  dials w = pre ++ d :: post →
  handlers w !! d_socket d = Some h →
  buf h = [] → remotePeerId h = None →
  destroyed (d_socket d) w = false →
  Forall is_byte payload →
  len payload ≤ _maxFrameBytes (tr w) → len payload < 2 ^ 32 →
  JSON_parse (TextDecoder_decode payload) = Some obj →
  invalid_hello_fields obj = false →
  let p := hello_peerId obj in
  let w1 :=
    set_emitted (λ l, l ++ [EvConnection p (outbound h) None])
      (set_tr (set_peers (<[p := d_socket d]>))
         (set_handlers
            (<[d_socket d := MkHandler (outbound h) [] (Some p) (closed h)]>) w)) in
  step w (Data (d_socket d) (encodeFrame payload))
  = set_dials (λ _, pre ++ (react (onConn p d w1).2 (onConn p d w1).1).2 :: post)
      (react (onConn p d w1).2 (onConn p d w1).1).1.
Proof.
  intros (Hnd & _ & _ & Hpend) Hds Hh Hbuf Hid Hlive HP Hmax H32 Hparse Hvalid p w1.
  assert (Hother : ∀ d', d' ∈ pre ++ post → d_socket d' ≠ d_socket d).
  { rewrite Hds, fmap_app, fmap_cons in Hnd.
    apply NoDup_app in Hnd as (_ & Hdisj & Hnd).
    apply NoDup_cons in Hnd as [Hnot _].
    intros d' Hd' Heq. apply elem_of_app in Hd' as [Hd'|Hd'].
    - apply (Hdisj (d_socket d')); [by apply list_elem_of_fmap_2|].
      rewrite Heq. apply elem_of_cons. by left.
    - apply Hnot. rewrite <- Heq. by apply list_elem_of_fmap_2. }
  assert (Hinert : ∀ d', d' ∈ pre ++ post →
            d_promise d' = Pending ∨ d_finally d' = true).
  { intros d' Hd'.
    assert (Hin : d' ∈ dials w).
    { rewrite Hds. apply elem_of_app in Hd' as [?|?];
        rewrite elem_of_app, elem_of_cons; tauto. }
    specialize (Hpend d' Hin). unfold in_flight in Hpend.
    destruct (d_finally d'); [by right|left]. by apply Hpend. }
  unfold step, handle. rewrite Hlive.
  rewrite (onData_hello_exact _ h payload obj w Hh Hbuf Hid HP Hmax H32 Hparse Hvalid).
  fold p. unfold emit. cbv zeta. fold w1.
  change (dials w1) with (dials w). rewrite Hds.
  rewrite (run_onConn_one p pre post d w1);
    [|unfold w1; simpl; by rewrite lookup_insert_eq|done].
  unfold microtasks. cbn [dials set_dials].
  pose proof (run_reactions_one pre post (onConn p d w1).2
    (set_dials (λ _, pre ++ (onConn p d w1).2 :: post) (onConn p d w1).1) Hinert) as Hr.
  rewrite Hr. clear Hr.
  pose proof react_set_dials as Hreact.
  specialize (Hreact (onConn p d w1).2 (onConn p d w1).1
                (pre ++ (onConn p d w1).2 :: post)).
  rewrite Hreact. done.
Qed.

(** X17: When the hello of a dialled socket arrives and names the peer the
    attempt expects (or the attempt expects none), the callback and its
    microtask checkpoint register the peer, emit [connection], resolve the
    attempt, take its key out of the ledger and write the payloads of the
    [send] calls that waited for it to the socket: each once, in the order
    of the calls, behind what was written before. *)
Theorem tcp_dial_completes (pre post : list Dial) (d : Dial) (h : Handler)
    (calls : list sock_call) (payload : list Z) (obj : json) (w : World) :
  dial_invariant w →
  dials w = pre ++ d :: post →
  d_done d = false → d_promise d = Pending →
  handlers w !! d_socket d = Some h →
  buf h = [] → remotePeerId h = None →
  sockets w !! d_socket d = Some calls →
  destroyed (d_socket d) w = false →
  Forall is_byte payload →
  len payload ≤ _maxFrameBytes (tr w) → len payload < 2 ^ 32 →
  JSON_parse (TextDecoder_decode payload) = Some obj →
  invalid_hello_fields obj = false →
  (truthy_str (d_expectedPeerId d) = true →
   d_expectedPeerId d = Some (hello_peerId obj)) →
  let w' := step w (Data (d_socket d) (encodeFrame payload)) in
  sockets w' !! d_socket d
  = Some (calls ++ (SockWrite ∘ encodeFrame <$> d_waiters d))
  ∧ _dialing (tr w') = delete (d_key d) (_dialing (tr w))
  ∧ _peers (tr w') = <[hello_peerId obj := d_socket d]> (_peers (tr w))
  ∧ emitted w' = emitted w ++ [EvConnection (hello_peerId obj) (outbound h) None]
  ∧ dials w' = pre ++ finalize (settle Fulfilled d) :: post.
Proof.
  intros Hinv Hds Hdone Hpend Hh Hbuf Hid Hcalls Hlive HP Hmax H32 Hparse Hvalid
    Hexp w'.
  unfold w'.
  rewrite (dial_hello_step pre post d h payload obj w) by done. cbv zeta.
  set (p := hello_peerId obj) in *.
  set (w1 := set_emitted _ _).
  assert (Hfin : d_finally d = false).
  { destruct Hinv as (_ & _ & _ & Hpf). apply Hpf; [|done].
    rewrite Hds, elem_of_app, elem_of_cons. tauto. }
  assert (Hconn : onConn p d w1 = (w1, settle Fulfilled d)).
  { unfold onConn. rewrite Hdone.
    rewrite bool_decide_eq_true_2 by (unfold w1; simpl; apply lookup_insert_eq).
    simpl negb. cbv iota.
    destruct (truthy_str (d_expectedPeerId d)) eqn:Ht; [|done].
    rewrite Hexp by done. by rewrite bool_decide_eq_true_2. }
  rewrite Hconn. cbn [fst snd]. unfold react. cbn [d_promise settle d_finally].
  rewrite Hfin. cbn [fst snd d_key d_waiters d_socket settle].
  set (w2 := set_tr (set_dialing (delete (d_key d))) w1).
  destruct (writes_frame (d_socket d) (d_waiters d) w2) as (Ht & _ & _).
  destruct (writes_frame_rest (d_socket d) (d_waiters d) w2) as (_ & He).
  cbv zeta in Ht, He. cbn [sockets tr emitted dials set_dials].
  rewrite writes_sockets, Ht, He. unfold w2, w1. simpl. rewrite Hcalls. done.
Qed.

(** X18: When the hello names another peer than the attempt expects, the peer is
    registered and [connection] is emitted all the same; the listener of the
    attempt then destroys the socket and rejects the attempt, its key leaves
    the ledger, and the payloads of the [send] calls that waited for it are
    never written. *)
Theorem tcp_dial_peer_mismatch (pre post : list Dial) (d : Dial) (h : Handler)
    (calls : list sock_call) (payload : list Z) (obj : json) (q : string)
    (w : World) :
  dial_invariant w →
  dials w = pre ++ d :: post →
  d_done d = false → d_promise d = Pending →
  handlers w !! d_socket d = Some h →
  buf h = [] → remotePeerId h = None →
  sockets w !! d_socket d = Some calls →
  destroyed (d_socket d) w = false →
  Forall is_byte payload →
  len payload ≤ _maxFrameBytes (tr w) → len payload < 2 ^ 32 →
  JSON_parse (TextDecoder_decode payload) = Some obj →
  invalid_hello_fields obj = false →
  d_expectedPeerId d = Some q → q ≠ "" → q ≠ hello_peerId obj →
  let w' := step w (Data (d_socket d) (encodeFrame payload)) in
  sockets w' !! d_socket d = Some (calls ++ [SockDestroy])
  ∧ _dialing (tr w') = delete (d_key d) (_dialing (tr w))
  ∧ _peers (tr w') = <[hello_peerId obj := d_socket d]> (_peers (tr w))
  ∧ emitted w' = emitted w ++ [EvConnection (hello_peerId obj) (outbound h) None]
  ∧ dials w'
    = pre ++ finalize (settle (Rejected "TcpTransport peerId mismatch") d) :: post.
Proof.
  intros Hinv Hds Hdone Hpend Hh Hbuf Hid Hcalls Hlive HP Hmax H32 Hparse Hvalid
    Hexp Hq Hne w'.
  unfold w'.
  rewrite (dial_hello_step pre post d h payload obj w) by done. cbv zeta.
  set (p := hello_peerId obj) in *.
  set (w1 := set_emitted _ _).
  assert (Hfin : d_finally d = false).
  { destruct Hinv as (_ & _ & _ & Hpf). apply Hpf; [|done].
    rewrite Hds, elem_of_app, elem_of_cons. tauto. }
  assert (Hconn : onConn p d w1
    = (socket_call (d_socket d) SockDestroy w1,
       settle (Rejected "TcpTransport peerId mismatch") d)).
  { unfold onConn. rewrite Hdone.
    rewrite bool_decide_eq_true_2 by (unfold w1; simpl; apply lookup_insert_eq).
    simpl negb. cbv iota. rewrite Hexp. simpl truthy_str.
    rewrite (proj2 (String.eqb_neq q "")) by done.
    rewrite bool_decide_eq_false_2 by congruence. done. }
  rewrite Hconn. cbn [fst snd]. unfold react. cbn [d_promise settle d_finally].
  rewrite Hfin. cbn [fst snd d_key d_waiters d_socket settle].
  cbn [sockets tr emitted dials set_dials set_tr socket_call set_sockets].
  unfold w1. simpl. rewrite lookup_alter_eq, Hcalls. done.
Qed.

End dial_hello.

Section dial_hello_witness.
Import Buffer Tcp.
#[local] Existing Instance example_host.

Lemma two_sends_invariant (expected : option string) :
  dial_invariant
    (run (tcp_node "A" None)
       [Start; Send "relay:9000" [1] expected; Send "tcp://relay:9000" [2] None;
        Connected 0]).
Proof.
  apply run_invariant; [|apply dial_invariant_init].
  cbn [no_stop_in_flight]. split_and!; try discriminate; exact I.
Qed.

Lemma tcp_dial_completes_witness :
  let w := run (tcp_node "A" None)
    [Start; Send "relay:9000" [1] None; Send "tcp://relay:9000" [2] None;
     Connected 0] in
  let w' := step w (Data 0 (encodeFrame (ascii_bytes (hello_text "B")))) in
  sockets w' !! 0%nat
  = Some ([SockWrite (encodeFrame (hello_bytes "A"))]
          ++ (SockWrite ∘ encodeFrame <$> [[1]; [2]]))
  ∧ _dialing (tr w') = delete "tcp://relay:9000" (_dialing (tr w))
  ∧ _peers (tr w') = <["B" := 0%nat]> (_peers (tr w))
  ∧ emitted w' = emitted w ++ [EvConnection "B" true None]
  ∧ dials w'
    = [] ++ finalize (settle Fulfilled
                (MkDial 0 "tcp://relay:9000" None false Pending false [[1]; [2]]))
         :: [].
Proof.
  intros w.
  apply (tcp_dial_completes [] []
           (MkDial 0 "tcp://relay:9000" None false Pending false [[1]; [2]])
           (MkHandler true [] None false)
           [SockWrite (encodeFrame (hello_bytes "A"))]
           (ascii_bytes (hello_text "B")) (hello_object "B") w);
    try reflexivity.
  - apply two_sends_invariant.
  - vm_compute. repeat constructor; discriminate.
  - vm_compute. discriminate.
  - intros [=].
Defined.

Lemma tcp_dial_peer_mismatch_witness :
  let w := run (tcp_node "A" None)
    [Start; Send "relay:9000" [1] (Some "C"); Send "tcp://relay:9000" [2] None;
     Connected 0] in
  let w' := step w (Data 0 (encodeFrame (ascii_bytes (hello_text "B")))) in
  sockets w' !! 0%nat
  = Some ([SockWrite (encodeFrame (hello_bytes "A"))] ++ [SockDestroy])
  ∧ _dialing (tr w') = delete "tcp://relay:9000" (_dialing (tr w))
  ∧ _peers (tr w') = <["B" := 0%nat]> (_peers (tr w))
  ∧ emitted w' = emitted w ++ [EvConnection "B" true None]
  ∧ dials w'
    = [] ++ finalize (settle (Rejected "TcpTransport peerId mismatch")
                (MkDial 0 "tcp://relay:9000" (Some "C") false Pending false
                   [[1]; [2]]))
         :: [].
Proof.
  intros w.
  apply (tcp_dial_peer_mismatch [] []
           (MkDial 0 "tcp://relay:9000" (Some "C") false Pending false [[1]; [2]])
           (MkHandler true [] None false)
           [SockWrite (encodeFrame (hello_bytes "A"))]
           (ascii_bytes (hello_text "B")) (hello_object "B") "C" w);
    try reflexivity; try discriminate.
  - apply two_sends_invariant.
  - vm_compute. repeat constructor; discriminate.
Defined.

End dial_hello_witness.
(** ** Dial targets and generated ids *)

Section targets.
Import Tcp.
Context `{Host}.

Lemma split_colon_app (host port : string) :
  no_colon host = true →
  split_colon (host +:+ ":" +:+ port) = Some (host, port).
Proof.
  induction host as [|a host IH]; intros Hnc; [done|].
  simpl in Hnc. apply andb_true_iff in Hnc as [Ha Hnc].
  apply negb_true_iff in Ha. simpl. unfold char_colon in Ha. rewrite Ha.
  by rewrite (IH Hnc).
Qed.

Lemma split_colon_none (s : string) : no_colon s = true → split_colon s = None.
Proof.
  induction s as [|a s IH]; intros Hnc; [done|].
  simpl in Hnc. apply andb_true_iff in Hnc as [Ha Hnc].
  apply negb_true_iff in Ha. simpl. unfold char_colon in Ha. rewrite Ha.
  by rewrite (IH Hnc).
Qed.

(** A text that starts with [tcp://]. *)
Lemma prefix_tcp_colon (s : string) :
  String.prefix "tcp://" s = true →
  ∃ rest, s = "tcp:" +:+ rest ∧ String.prefix "//" rest = true.
Proof.
  do 4 (destruct s as [|? s]; cbn [String.prefix]; [done|];
        destruct (Ascii.ascii_dec _ _) as [<-|]; [|done]).
  intros Hp. exists s. split; [reflexivity|exact Hp].
Qed.

Lemma no_colon_not_tcp (s : string) :
  no_colon s = true → String.prefix "tcp://" s = false.
Proof.
  intros Hnc. destruct (String.prefix "tcp://" s) eqn:Hp; [|done].
  apply prefix_tcp_colon in Hp as (rest & -> & _).
  by vm_compute in Hnc.
Qed.

Lemma host_port_not_tcp (host port : string) :
  no_colon host = true → all_digits port = true →
  String.prefix "tcp://" (host +:+ ":" +:+ port) = false.
Proof.
  intros Hnc Hd. destruct (String.prefix "tcp://" _) eqn:Hp; [|done].
  apply prefix_tcp_colon in Hp as (rest & Heq & Hrest).
  destruct host as [|b1 [|b2 [|b3 [|b4 host]]]];
    lazy beta iota delta [String.append] in Heq; try done.
  - inversion Heq; subst.
    destruct rest as [|p1 rest]; [done|]. cbn [String.prefix] in Hrest.
    destruct (Ascii.ascii_dec _ p1) as [<-|]; [|done]. by cbn in Hd.
  - inversion Heq; subst. cbn [no_colon] in Hnc.
    do 3 apply andb_true_iff in Hnc as [_ Hnc]. by vm_compute in Hnc.
Qed.

(** X19: A target [host:port] with a host without colon and a decimal port above
    zero is an address, with that host and that port. *)
Theorem parseTcpTarget_accepts_host_port (host port : string) :
  host ≠ "" → no_colon host = true →
  port ≠ "" → all_digits port = true →
  0 < digits_value 0 port < 2 ^ 53 →
  parseTcpTarget (host +:+ ":" +:+ port) = Target host (digits_value 0 port).
Proof.
  intros Hh Hnc Hp Hd Hv. unfold parseTcpTarget.
  assert (Hne : String.eqb (host +:+ ":" +:+ port) "" = false).
  { destruct host as [|a host']; [by destruct Hh|reflexivity]. }
  rewrite Hne, (host_port_not_tcp host port Hnc Hd).
  unfold match_host_port. rewrite (split_colon_app host port Hnc), Hd.
  rewrite (proj2 (String.eqb_neq host "") Hh), (proj2 (String.eqb_neq port "") Hp).
  simpl. rewrite (proj2 (String.eqb_neq host "") Hh).
  by rewrite (proj2 (Z.leb_gt _ _)) by lia.
Qed.

(** X20: What [parseTcpTarget] returns as an address has a host and a port above
    zero; a target without a colon is no address, and [send] to such a
    target that is no registered peer throws without opening a socket. *)
Theorem tcp_targets_are_valid :
  (∀ (to host : string) (port : Z),
     parseTcpTarget to = Target host port → host ≠ "" ∧ 0 < port)
  ∧ (∀ to : string, no_colon to = true → parseTcpTarget to = TargetNull)
  ∧ (∀ (to : string) (bytes : list Z) (expected : option string) (w : World),
       no_colon to = true → _started (tr w) = true → _peers (tr w) !! to = None →
       send to (Uint8Array bytes) expected w
       = (w, SendThrew
               "TcpTransport.send unknown target (expected peerId or tcp://host:port)")).
Proof.
  assert (Hnull : ∀ to : string, no_colon to = true → parseTcpTarget to = TargetNull).
  { intros to Hnc. unfold parseTcpTarget. destruct (String.eqb to ""); [done|].
    rewrite (no_colon_not_tcp to Hnc). unfold match_host_port.
    by rewrite (split_colon_none to Hnc). }
  split_and!; [|done|].
  - intros to host port. unfold parseTcpTarget.
    destruct (String.eqb to ""); [done|].
    destruct (String.prefix "tcp://" to).
    + destruct (URL_parse to) as [[h p]|]; [|done].
      destruct (String.eqb h "") eqn:Hh; [done|]. simpl.
      destruct (Z.leb_spec (if String.eqb p "" then 0 else digits_value 0 p) 0);
        [done|].
      intros [= <- <-]. split; [by apply String.eqb_neq|lia].
    + destruct (match_host_port to) as [[h p]|]; [|done].
      destruct (String.eqb h "") eqn:Hh; [done|]. simpl.
      destruct (Z.leb_spec (digits_value 0 p) 0); [done|].
      intros [= <- <-]. split; [by apply String.eqb_neq|lia].
  - intros to bytes expected w Hnc Hst Hp. unfold send.
    by rewrite Hst, Hp, (Hnull to Hnc).
Qed.

End targets.

Section targets_witness.
Import Tcp.
#[local] Existing Instance example_host.

Lemma parseTcpTarget_accepts_host_port_witness :
  parseTcpTarget ("relay" +:+ ":" +:+ "9000") = Target "relay" (digits_value 0 "9000").
Proof.
  apply (parseTcpTarget_accepts_host_port "relay" "9000");
    first [discriminate | reflexivity | (vm_compute; split; reflexivity)].
Defined.

End targets_witness.

(** *** Generated ids *)

Section ids_props.

Lemma replaceAll_char (c r : Ascii.ascii) (s : string) :
  String.list_ascii_of_string (replaceAll c (String r EmptyString) s)
  = (λ a, if Ascii.eqb a c then r else a) <$> String.list_ascii_of_string s.
Proof.
  induction s as [|a s IH]; [done|]. cbn [replaceAll].
  change (String.list_ascii_of_string (String a s))
    with (a :: String.list_ascii_of_string s).
  rewrite fmap_cons, <- IH. by destruct (Ascii.eqb a c).
Qed.

Lemma replaceAll_drop (c : Ascii.ascii) (s : string) :
  String.list_ascii_of_string (replaceAll c "" s)
  = filter (λ a, a ≠ c) (String.list_ascii_of_string s).
Proof.
  induction s as [|a s IH]; [done|]. cbn [replaceAll].
  change (String.list_ascii_of_string (String a s))
    with (a :: String.list_ascii_of_string s).
  destruct (Ascii.eqb_spec a c) as [->|Hne].
  - rewrite filter_cons_False by (intros Hc; by apply Hc). exact IH.
  - rewrite filter_cons_True by done. simpl. by rewrite IH.
Qed.

(** X21: The URL-safe text [base64Url] makes of the platform's base64 text: every
    [+] becomes [-], every [/] becomes [_], every [=] is dropped and all other
    characters are kept, in their order; so that the result holds none of
    [+], [/] and [=]. *)
Theorem base64Url_is_url_safe (toString_base64 : list Z → string) (bytes : list Z) :
  String.list_ascii_of_string (base64Url toString_base64 bytes)
  = (λ a, if Ascii.eqb a char_plus then char_minus
          else if Ascii.eqb a char_slash then char_underscore else a)
    <$> filter (λ a, a ≠ char_equals)
          (String.list_ascii_of_string (toString_base64 bytes))
  ∧ ∀ a, a ∈ String.list_ascii_of_string (base64Url toString_base64 bytes) →
         a ≠ char_plus ∧ a ≠ char_slash ∧ a ≠ char_equals.
Proof.
  assert (Heq : String.list_ascii_of_string (base64Url toString_base64 bytes)
    = (λ a, if Ascii.eqb a char_plus then char_minus
            else if Ascii.eqb a char_slash then char_underscore else a)
      <$> filter (λ a, a ≠ char_equals)
            (String.list_ascii_of_string (toString_base64 bytes))).
  { unfold base64Url. rewrite replaceAll_drop, !replaceAll_char.
    induction (String.list_ascii_of_string (toString_base64 bytes)) as [|a l IH];
      [done|].
    rewrite !fmap_cons.
    destruct (decide (a = char_equals)) as [->|Hne].
    - rewrite (filter_cons_False _ char_equals l) by (intros Hc; by apply Hc).
      rewrite filter_cons_False by (intros Hc; by apply Hc). done.
    - rewrite (filter_cons_True _ a l) by done. rewrite fmap_cons, <- IH.
      destruct (Ascii.eqb_spec a char_plus) as [->|Hp].
      + by rewrite filter_cons_True by done.
      + destruct (Ascii.eqb_spec a char_slash) as [->|Hs].
        * by rewrite filter_cons_True by done.
        * by rewrite filter_cons_True by done. }
  split; [done|]. intros a. rewrite Heq. intros Ha.
  apply list_elem_of_fmap in Ha as (b & -> & Hb).
  apply list_elem_of_filter in Hb as [Hb _].
  destruct (Ascii.eqb_spec b char_plus) as [->|Hp]; [done|].
  destruct (Ascii.eqb_spec b char_slash) as [->|Hs]; done.
Qed.

End ids_props.
(** ** Events come in order *)

Section event_order.
Import Buffer Tcp.
Context `{Host}.

Lemma announced_app (p : string) (l l' : list event) :
  announced p l → announced p (l ++ l').
Proof. intros (o & u & Hin). exists o, u. apply elem_of_app. by left. Qed.

Lemma events_ordered_snoc (l : list event) (e : event) :
  events_ordered l →
  match e with
  | EvFrame p _ | EvDisconnection p _ => announced p l
  | _ => True
  end →
  events_ordered (l ++ [e]).
Proof.
  intros Hl He pre e' post Heq.
  destruct post as [|x post _] using rev_ind.
  - apply app_inj_tail in Heq as [-> ->]. done.
  - rewrite app_comm_cons, app_assoc in Heq.
    apply app_inj_tail in Heq as [-> _]. by apply (Hl pre e' post).
Qed.

(** A callback that leaves registry, listeners and events alone. *)
Lemma tcp_ordered_same (w w' : World) :
  handlers w' = handlers w → emitted w' = emitted w →
  _peers (tr w') = _peers (tr w) → (next w ≤ next w')%nat →
  d_socket <$> dials w' = d_socket <$> dials w →
  tcp_ordered w → tcp_ordered w'.
Proof.
  intros Hh He Hp Hn Hd (H1 & H2 & H3 & H4 & H5). unfold tcp_ordered.
  rewrite Hh, He, Hp, Hd. split_and!; try done.
  - intros s h Hs. specialize (H4 s h Hs). lia.
  - intros s Hs. specialize (H5 s Hs). lia.
Qed.

Lemma emit_dial_sockets (e : event) (w : World) :
  d_socket <$> dials (emit e w) = d_socket <$> dials w.
Proof. destruct (emit_quiet e w) as (Hev & _). by apply Forall2_evolves_sockets. Qed.

Lemma tcp_ordered_emit (e : event) (w : World) :
  match e with
  | EvFrame p _ | EvDisconnection p _ => announced p (emitted w)
  | _ => True
  end →
  tcp_ordered w → tcp_ordered (emit e w).
Proof.
  intros Hok (H1 & H2 & H3 & H4 & H5).
  assert (Hfr : tr (emit e w) = tr w ∧ handlers (emit e w) = handlers w
    ∧ emitted (emit e w) = emitted w ++ [e] ∧ next (emit e w) = next w).
  { destruct e as [p o u| | |]; try done.
    destruct (emit_connection_frame p o u w) as (? & ? & ? & ? & _). done. }
  destruct Hfr as (Ht & Hh & He & Hn).
  unfold tcp_ordered. rewrite Ht, Hh, He, Hn, emit_dial_sockets.
  split_and!; [by apply events_ordered_snoc| |done..].
  intros s h p Hs Hr. apply announced_app. by apply (H2 s h p).
Qed.

(** The variables of the listener of socket [s] change, its peer id stays. *)
Lemma tcp_ordered_handler (s : nat) (h h' : Handler) (w : World) :
  handlers w !! s = Some h → remotePeerId h' = remotePeerId h →
  tcp_ordered w → tcp_ordered (set_handlers (<[s := h']>) w).
Proof.
  intros Hh Heq (H1 & H2 & H3 & H4 & H5). unfold tcp_ordered. simpl.
  split_and!; [done| | | |done].
  - intros s' h'' p Hs' Hr. destruct (decide (s' = s)) as [->|Hne].
    + rewrite lookup_insert_eq in Hs'. injection Hs' as <-.
      apply (H2 s h p Hh). congruence.
    + rewrite lookup_insert_ne in Hs' by done. by apply (H2 s' h'' p).
  - intros p s' Hp. destruct (H3 p s' Hp) as (Hne & h'' & Hs' & Hr).
    split; [done|]. destruct (decide (s' = s)) as [->|Hne'].
    + rewrite lookup_insert_eq. exists h'. split; [done|].
      rewrite Hh in Hs'. injection Hs' as <-. congruence.
    + rewrite lookup_insert_ne by done. eauto.
  - intros s' h'' Hs'. destruct (decide (s' = s)) as [->|Hne].
    + by apply (H4 s h Hh).
    + rewrite lookup_insert_ne in Hs' by done. by apply (H4 s' h'').
Qed.

Lemma tcp_ordered_buf (s : nat) (h : Handler) (b : list Z) (w : World) :
  handlers w !! s = Some h →
  tcp_ordered w → tcp_ordered (set_handlers (<[s := set_buf b h]>) w).
Proof. intros Hh. by apply (tcp_ordered_handler s h). Qed.

(** A valid hello: the peer is registered and announced. *)
Lemma tcp_ordered_hello (s : nat) (h : Handler) (p : string) (w : World) :
  handlers w !! s = Some h → truthy_str (remotePeerId h) = false → p ≠ "" →
  tcp_ordered w →
  tcp_ordered
    (emit (EvConnection p (outbound h) None)
       (set_tr (set_peers (<[p := s]>))
          (set_handlers (<[s := set_remotePeerId (Some p) h]>) w))).
Proof.
  intros Hh Hid Hne (H1 & H2 & H3 & H4 & H5).
  match goal with |- tcp_ordered (emit (EvConnection ?p' ?o ?u) ?w0) =>
    destruct (emit_connection_frame p' o u w0) as (Ht & Hhd & He & Hn & _);
    pose proof (emit_dial_sockets (EvConnection p' o u) w0) as Hds
  end.
  unfold tcp_ordered. rewrite Ht, Hhd, He, Hn, Hds. simpl. split_and!.
  - by apply events_ordered_snoc.
  - intros s' h' p' Hs' Hr. destruct (decide (s' = s)) as [->|Hne'].
    + rewrite lookup_insert_eq in Hs'. injection Hs' as <-. simpl in Hr.
      injection Hr as <-. exists (outbound h), None.
      apply elem_of_app. right. by apply list_elem_of_singleton.
    + rewrite lookup_insert_ne in Hs' by done.
      apply announced_app. by apply (H2 s' h' p').
  - intros p' s' Hp. destruct (decide (p' = p)) as [->|Hnp].
    + rewrite lookup_insert_eq in Hp. injection Hp as <-. split; [done|].
      rewrite lookup_insert_eq. eauto.
    + rewrite lookup_insert_ne in Hp by done.
      destruct (H3 p' s' Hp) as (Hne' & h' & Hs' & Hr). split; [done|].
      destruct (decide (s' = s)) as [->|Hns].
      * rewrite Hh in Hs'. injection Hs' as <-. rewrite Hr in Hid. simpl in Hid.
        apply negb_false_iff, String.eqb_eq in Hid. done.
      * rewrite lookup_insert_ne by done. eauto.
  - intros s' h' Hs'. destruct (decide (s' = s)) as [->|Hns].
    + by apply (H4 s h Hh).
    + rewrite lookup_insert_ne in Hs' by done. by apply (H4 s' h').
  - done.
Qed.

Lemma tcp_ordered_socket_call (s : nat) (k : sock_call) (w : World) :
  tcp_ordered w → tcp_ordered (socket_call s k w).
Proof. by apply tcp_ordered_same. Qed.

Lemma tcp_ordered_onData_loop (fuel s : nat) (w : World) :
  tcp_ordered w → tcp_ordered (onData_loop fuel s w).
Proof.
  revert w. induction fuel as [|fuel IH]; intros w Hw; cbn [onData_loop];
    (destruct (handlers w !! s) as [h|] eqn:Hh; [|done]);
    (destruct (len (buf h) <? 4); [done|]); cbv zeta;
    (destruct (_ >? _);
      [by apply tcp_ordered_socket_call, tcp_ordered_emit|]);
    (destruct (len (buf h) <? _); [done|]).
  - by apply tcp_ordered_buf.
  - cbn [remotePeerId set_buf outbound].
    set (h1 := set_buf (subarray_from (buf h) (4 + readUInt32BE (buf h) 0)) h).
    pose proof (tcp_ordered_buf s h (buf h1) w Hh Hw) as Hw1.
    change (set_buf (buf h1) h) with h1 in Hw1.
    set (w1 := set_handlers (<[s := h1]>) w) in *.
    assert (Hh1 : handlers w1 !! s = Some h1) by (unfold w1; simpl; apply lookup_insert_eq).
    destruct (truthy_str (remotePeerId h)) eqn:Hid; simpl negb; cbv iota.
    + apply IH. apply tcp_ordered_emit; [|done].
      destruct (remotePeerId h) as [p|] eqn:Hr; [|done]. simpl.
      destruct Hw as (_ & H2 & _). by apply (H2 s h p).
    + destruct (JSON_parse _) as [obj|];
        [|by apply tcp_ordered_socket_call, tcp_ordered_emit].
      destruct (invalid_hello_fields obj) eqn:Hvalid;
        [by apply tcp_ordered_socket_call, tcp_ordered_emit|].
      cbv zeta. apply IH.
      apply (tcp_ordered_hello s h1 (hello_peerId obj) w1 Hh1 Hid); [|done].
      unfold invalid_hello_fields, hello_peerId in *.
      apply orb_false_iff in Hvalid as [_ Hvalid].
      destruct (prop obj "peerId") as [[| | |q| |]|]; try done.
      by apply String.eqb_neq.
Qed.

Lemma tcp_ordered_onData (s : nat) (chunk : list Z) (w : World) :
  tcp_ordered w → tcp_ordered (onData s chunk w).
Proof.
  intros Hw. unfold onData. destruct (handlers w !! s) as [h|] eqn:Hh; [|done].
  cbv zeta. by apply tcp_ordered_onData_loop, tcp_ordered_buf.
Qed.

Lemma tcp_ordered_cleanup (s : nat) (w : World) :
  tcp_ordered w → tcp_ordered (cleanup s w).
Proof.
  intros Hw. unfold cleanup. destruct (handlers w !! s) as [h|] eqn:Hh; [|done].
  destruct (closed h); [done|]. cbv zeta.
  pose proof (tcp_ordered_handler s h (set_closed true h) w Hh eq_refl Hw) as Hw1.
  destruct (remotePeerId h) as [p|] eqn:Hr; [|done].
  destruct (_ && _); [|done].
  apply tcp_ordered_emit.
  - destruct Hw as (_ & H2 & _). by apply (H2 s h p).
  - destruct Hw1 as (H1 & H2 & H3 & H4 & H5). unfold tcp_ordered. simpl.
    split_and!; [done|done| |done|done].
    intros p' s' Hp. apply lookup_delete_Some in Hp as [_ Hp]. by apply H3.
Qed.

Lemma tcp_ordered_dial_reject (s : nat) (err : string) (w : World) :
  tcp_ordered w → tcp_ordered (dial_reject s err w).
Proof.
  apply tcp_ordered_same; try done. unfold dial_reject. simpl.
  rewrite <- list_fmap_compose. apply list_fmap_ext. intros i d _. simpl.
  by destruct (_ && _).
Qed.

Lemma tcp_ordered_onError (s : nat) (err : string) (w : World) :
  tcp_ordered w → tcp_ordered (onError s err w).
Proof.
  intros Hw. unfold onError. cbv zeta.
  destruct (handlers _ !! s); [|by apply tcp_ordered_dial_reject].
  apply tcp_ordered_emit; [done|]. by apply tcp_ordered_dial_reject.
Qed.

(** A socket without a listener gets one, which has read no hello yet. *)
Lemma tcp_ordered_handleSocket (s : nat) (o : bool) (w : World) :
  handlers w !! s = None → (s < next w)%nat →
  tcp_ordered w → tcp_ordered (_handleSocket s o w).
Proof.
  intros Hnone Hs (H1 & H2 & H3 & H4 & H5). unfold tcp_ordered, _handleSocket. simpl.
  split_and!; [done| | | |done].
  - intros s' h p Hs' Hr. destruct (decide (s' = s)) as [->|Hne].
    + rewrite lookup_insert_eq in Hs'. by injection Hs' as <-.
    + rewrite lookup_insert_ne in Hs' by done. by apply (H2 s' h p).
  - intros p s' Hp. destruct (H3 p s' Hp) as (Hne & h' & Hs' & Hr).
    split; [done|]. destruct (decide (s' = s)) as [->|Hne']; [congruence|].
    rewrite lookup_insert_ne by done. eauto.
  - intros s' h Hs'. destruct (decide (s' = s)) as [->|Hne]; [done|].
    rewrite lookup_insert_ne in Hs' by done. by apply (H4 s' h).
Qed.

Lemma tcp_ordered_start (w : World) : tcp_ordered w → tcp_ordered (start w).
Proof.
  intros Hw. unfold start. destruct (_started (tr w)); [done|].
  case_bool_decide; by apply (tcp_ordered_same w).
Qed.

Lemma tcp_ordered_stop (w : World) : tcp_ordered w → tcp_ordered (stop w).
Proof.
  intros Hw. unfold stop. destruct (negb _); [done|]. cbv zeta.
  pose proof (tcp_destroy_all (set_tr (set_started false) w)
    (_peers (tr (set_tr (set_started false) w)))) as Hall.
  cbv zeta in Hall. set (r := map_fold _ _ _) in *. clearbody r.
  destruct Hall as (Ht & Hh & He & Hd & Hn & _).
  destruct Hw as (H1 & H2 & H3 & H4 & H5). unfold tcp_ordered. simpl.
  rewrite Hh, He, Hn, Hd. simpl. split_and!; try done;
    intros p s; by rewrite lookup_empty.
Qed.

Lemma tcp_ordered_send (to : string) (arg : send_arg) (expected : option string)
    (w : World) :
  tcp_ordered w → tcp_ordered (send to arg expected w).1.
Proof.
  intros Hw. unfold send. destruct arg as [bytes|]; [|done].
  destruct (negb _); [done|]. cbv zeta.
  destruct (_peers (tr w) !! to); [by apply tcp_ordered_socket_call|].
  destruct (parseTcpTarget to) as [|msg|host port]; [done|done|].
  unfold _dial. cbv zeta. destruct (_dialing (tr w) !! _) as [s|].
  - apply (tcp_ordered_same w); try done. simpl.
    rewrite <- list_fmap_compose. apply list_fmap_ext. intros i d _. simpl.
    by case_bool_decide.
  - destruct Hw as (H1 & H2 & H3 & H4 & H5). unfold tcp_ordered. simpl.
    split_and!; try done.
    + intros s h Hs. specialize (H4 s h Hs). lia.
    + intros s Hs. rewrite fmap_app in Hs. apply elem_of_app in Hs as [Hs|Hs].
      * specialize (H5 s Hs). lia.
      * apply list_elem_of_singleton in Hs as ->. simpl. lia.
Qed.

Lemma react_frame (d : Dial) (w : World) :
  handlers (react d w).1 = handlers w ∧ emitted (react d w).1 = emitted w
  ∧ _peers (tr (react d w).1) = _peers (tr w) ∧ next (react d w).1 = next w
  ∧ d_socket (react d w).2 = d_socket d.
Proof.
  unfold react. destruct (d_promise d); [done| |];
    (destruct (d_finally d); [done|]); simpl; [|done].
  destruct (writes_frame (d_socket d) (d_waiters d)
    (set_tr (set_dialing (delete (d_key d))) w)) as (-> & -> & _).
  destruct (writes_frame_rest (d_socket d) (d_waiters d)
    (set_tr (set_dialing (delete (d_key d))) w)) as (-> & ->). done.
Qed.

Lemma run_reactions_frame (ds : list Dial) (w : World) :
  handlers (run_reactions ds w).1 = handlers w
  ∧ emitted (run_reactions ds w).1 = emitted w
  ∧ _peers (tr (run_reactions ds w).1) = _peers (tr w)
  ∧ next (run_reactions ds w).1 = next w
  ∧ d_socket <$> (run_reactions ds w).2 = d_socket <$> ds.
Proof.
  revert w. induction ds as [|d ds IH]; intros w; simpl; [done|].
  pose proof (react_frame d w) as Hreact.
  destruct (react d w) as [w1 d1]. simpl in Hreact.
  specialize (IH w1). destruct (run_reactions ds w1) as [w2 ds2]. simpl in *.
  destruct Hreact as (<- & <- & <- & <- & <-).
  destruct IH as (-> & -> & -> & -> & Hs). split_and!; try done.
  f_equal. exact Hs.
Qed.

Lemma tcp_ordered_microtasks (w : World) : tcp_ordered w → tcp_ordered (microtasks w).
Proof.
  intros Hw. unfold microtasks.
  pose proof (run_reactions_frame (dials w) w) as Hrun.
  destruct (run_reactions (dials w) w) as [w1 ds1]. simpl in Hrun.
  destruct Hrun as (Hh & He & Hp & Hn & Hd).
  apply (tcp_ordered_same w); simpl; try done. lia.
Qed.

Lemma tcp_ordered_handle (i : input) (w : World) :
  tcp_ordered w → tcp_ordered (handle i w).
Proof.
  intros Hw. destruct i as [| |to bytes expected| |s|s chunk|s|s|s err];
    cbn [handle].
  - by apply tcp_ordered_start.
  - by apply tcp_ordered_stop.
  - by apply tcp_ordered_send.
  - destruct (_server (tr w)); [|done].
    apply tcp_ordered_handleSocket.
    + simpl. destruct (handlers w !! next w) as [h|] eqn:Hh; [|done].
      destruct Hw as (_ & _ & _ & H4 & _). specialize (H4 _ _ Hh). lia.
    + simpl. lia.
    + apply (tcp_ordered_same w); try done. simpl. lia.
  - destruct (_ && _) eqn:Hc; [|done].
    apply andb_true_iff in Hc as [Hc Hnone].
    apply bool_decide_eq_true in Hnone.
    apply andb_true_iff in Hc as [Hin _]. apply bool_decide_eq_true in Hin.
    apply tcp_ordered_handleSocket; [done| |done].
    destruct Hw as (_ & _ & _ & _ & H5). by apply H5.
  - destruct (destroyed s w); [done|]. by apply tcp_ordered_onData.
  - by apply tcp_ordered_cleanup.
  - unfold onClose. by apply tcp_ordered_cleanup, tcp_ordered_dial_reject.
  - by apply tcp_ordered_onError.
Qed.

Lemma tcp_ordered_run (inputs : list input) (w : World) :
  tcp_ordered w → tcp_ordered (run w inputs).
Proof.
  revert w. induction inputs as [|i inputs IH]; intros w Hw; [done|].
  simpl. apply IH. by apply tcp_ordered_microtasks, tcp_ordered_handle.
Qed.

(** X22: In every run of a transport that starts without listeners, attempts and
    events, whatever is called and whatever the sockets deliver: a [frame]
    or [disconnection] event of a peer comes after a [connection] event of
    that peer, and the registry only holds peers, under their non-empty ids,
    that the listener of the registered socket has identified by a hello and
    that have been announced by a [connection] event. *)
Theorem tcp_events_are_ordered (inputs : list input) (w : World) :
  handlers w = ∅ → emitted w = [] → _peers (tr w) = ∅ → dials w = [] →
  let w' := run w inputs in
  events_ordered (emitted w')
  ∧ (∀ p s, _peers (tr w') !! p = Some s →
       p ≠ "" ∧ announced p (emitted w')
       ∧ ∃ h, handlers w' !! s = Some h ∧ remotePeerId h = Some p).
Proof.
  intros Hh He Hp Hd w'.
  assert (Hinit : tcp_ordered w).
  { unfold tcp_ordered. rewrite Hh, He, Hp, Hd. split_and!.
    - intros pre e post Heq. by destruct pre.
    - intros s h p Hs. by rewrite lookup_empty in Hs.
    - intros p s Hs. by rewrite lookup_empty in Hs.
    - intros s h Hs. by rewrite lookup_empty in Hs.
    - intros s Hs. by apply elem_of_nil in Hs. }
  destruct (tcp_ordered_run inputs w Hinit) as (H1 & H2 & H3 & _).
  split; [done|]. intros p s Hs.
  destruct (H3 p s Hs) as (Hne & h & Hhs & Hr).
  split; [done|]. split; [by apply (H2 s h p)|eauto].
Qed.

End event_order.

Section event_order_witness.
Import Buffer Tcp.
#[local] Existing Instance example_host.

Lemma tcp_events_are_ordered_witness :
  let w' := run (tcp_node "A" (Some 9000))
    [Start; Accept; Data 0 (encodeFrame (ascii_bytes (hello_text "B")));
     Data 0 (encodeFrame [1; 2; 3]); Close 0] in
  events_ordered (emitted w')
  ∧ (∀ p s, _peers (tr w') !! p = Some s →
       p ≠ "" ∧ announced p (emitted w')
       ∧ ∃ h, handlers w' !! s = Some h ∧ remotePeerId h = Some p).
Proof.
  apply (tcp_events_are_ordered
           [Start; Accept; Data 0 (encodeFrame (ascii_bytes (hello_text "B")));
            Data 0 (encodeFrame [1; 2; 3]); Close 0]
           (tcp_node "A" (Some 9000))); reflexivity.
Defined.

End event_order_witness.
(** ** Events of the WebSocket transport come in order *)

Section ws_event_order.
Import Buffer WsCodec Ws.
Context `{Host}.

Lemma ws_events_ordered_snoc (strict : bool) (l : list event) (e : event) :
  ws_events_ordered strict l →
  match e with
  | EvDisconnection p _ => announced p l
  | EvFrame p _ => announced p l ∨ (strict = false ∧ peerId_mismatch ∈ l)
  | _ => True
  end →
  ws_events_ordered strict (l ++ [e]).
Proof.
  intros Hl He pre e' post Heq.
  destruct post as [|x post _] using rev_ind.
  - apply app_inj_tail in Heq as [-> ->]. done.
  - rewrite app_comm_cons, app_assoc in Heq.
    apply app_inj_tail in Heq as [-> _]. by apply (Hl pre e' post).
Qed.

(** A call that leaves registry, wiring and events alone. *)
Lemma ws_ordered_same (strict : bool) (w w' : World) :
  wires w' = wires w → emitted w' = emitted w → _peers (tr w') = _peers (tr w) →
  ws_ordered strict w → ws_ordered strict w'.
Proof. intros Hw He Hp. unfold ws_ordered. by rewrite Hw, He, Hp. Qed.

Lemma ws_ordered_emit (strict : bool) (e : event) (w : World) :
  match e with
  | EvDisconnection p _ => announced p (emitted w)
  | EvFrame p _ =>
      announced p (emitted w) ∨ (strict = false ∧ peerId_mismatch ∈ emitted w)
  | _ => True
  end →
  ws_ordered strict w → ws_ordered strict (emit e w).
Proof.
  intros Hok (H1 & H2 & H3 & H4). unfold ws_ordered.
  rewrite emit_wires, emit_peers, emit_emitted.
  split_and!; [by apply ws_events_ordered_snoc| | |done].
  - intros p c Hp. destruct (H2 p c Hp). split; [done|by apply announced_app].
  - intros c x p Hx Hr Hne. destruct (H3 c x p Hx Hr Hne) as [Ha|[Hs Hm]].
    + left. by apply announced_app.
    + right. split; [done|]. apply elem_of_app. by left.
Qed.

(** The variables of the closures of connection [c] change, the peer id and
    the direction stay. *)
Lemma ws_ordered_wire (strict : bool) (c : nat) (x x' : Wire) (w : World) :
  wires w !! c = Some x → remotePeerId x' = remotePeerId x →
  outbound x' = outbound x →
  ws_ordered strict w → ws_ordered strict (set_wires (<[c := x']>) w).
Proof.
  intros Hx Hr Ho (H1 & H2 & H3 & H4). unfold ws_ordered. simpl.
  split_and!; [done|done| |].
  - intros c' x'' p Hc' Hp. destruct (decide (c' = c)) as [->|Hne].
    + rewrite lookup_insert_eq in Hc'. injection Hc' as <-.
      apply (H3 c x p Hx). congruence.
    + rewrite lookup_insert_ne in Hc' by done. by apply (H3 c' x'' p).
  - intros Hs c' x'' Hc'. destruct (decide (c' = c)) as [->|Hne].
    + rewrite lookup_insert_eq in Hc'. injection Hc' as <-.
      rewrite Ho. by apply (H4 Hs c x).
    + rewrite lookup_insert_ne in Hc' by done. by apply (H4 Hs c' x'').
Qed.

(** A connection is wired: no peer id yet. *)
Lemma ws_ordered_wire_new (strict : bool) (c : nat) (x' : Wire) (w : World) :
  remotePeerId x' = None → (strict = true → outbound x' = false) →
  ws_ordered strict w → ws_ordered strict (set_wires (<[c := x']>) w).
Proof.
  intros Hr Ho (H1 & H2 & H3 & H4). unfold ws_ordered. simpl.
  split_and!; [done|done| |].
  - intros c' x'' p Hc' Hp. destruct (decide (c' = c)) as [->|Hne].
    + rewrite lookup_insert_eq in Hc'. injection Hc' as <-. congruence.
    + rewrite lookup_insert_ne in Hc' by done. by apply (H3 c' x'' p).
  - intros Hs c' x'' Hc'. destruct (decide (c' = c)) as [->|Hne].
    + rewrite lookup_insert_eq in Hc'. injection Hc' as <-. by apply Ho.
    + rewrite lookup_insert_ne in Hc' by done. by apply (H4 Hs c' x'').
Qed.

(** Entries leave the registry. *)
Lemma ws_ordered_fewer_peers (strict : bool) (f : gmap string nat → gmap string nat)
    (w : World) :
  (∀ p c, f (_peers (tr w)) !! p = Some c → _peers (tr w) !! p = Some c) →
  ws_ordered strict w → ws_ordered strict (set_tr (set_peers f) w).
Proof.
  intros Hf (H1 & H2 & H3 & H4). unfold ws_ordered. simpl.
  split_and!; [done| |done|done].
  intros p c Hp. apply (H2 p c). by apply Hf.
Qed.

Lemma truthy_str_Some (p : string) : truthy_str (Some p) = true → p ≠ "".
Proof. simpl. intros Ht%negb_true_iff. by apply String.eqb_neq. Qed.

Lemma hello_peerId_nonempty (obj : json) :
  invalid_hello_fields obj = false → hello_peerId obj ≠ "".
Proof.
  unfold invalid_hello_fields, hello_peerId. intros Hv.
  apply orb_false_iff in Hv as [_ Hv].
  destruct (prop obj "peerId") as [[| | |p| |]|]; try done.
  by apply String.eqb_neq.
Qed.

Lemma ws_ordered_cleanup (strict : bool) (c : nat) (w : World) :
  ws_ordered strict w → ws_ordered strict (cleanup c w).
Proof.
  intros Hw. unfold cleanup. destruct (wires w !! c) as [x|] eqn:Hx; [|done].
  destruct (closed x) eqn:Hcl; [done|]. cbv zeta.
  set (w1 := set_wires (<[c := set_closed true x]>) w).
  assert (H1 : ws_ordered strict w1) by by apply (ws_ordered_wire strict c x).
  clearbody w1.
  set (w2 := match remotePeerId x with Some p => _ | None => _ end).
  assert (H2 : ws_ordered strict w2).
  { unfold w2. destruct (remotePeerId x) as [p|]; [|done].
    destruct (truthy_str (Some p) && _) eqn:Hreg; [|done].
    apply andb_true_iff in Hreg as [_ Hreg]. apply bool_decide_eq_true in Hreg.
    apply ws_ordered_emit.
    - simpl. by apply H1 in Hreg as [_ Ha].
    - apply ws_ordered_fewer_peers; [|done].
      intros p' c' Hp'. apply lookup_delete_Some in Hp'. by destruct Hp'. }
  clearbody w2. destruct (outbound x && _); [|done].
  by apply (ws_ordered_same strict w2).
Qed.

Lemma ws_ordered_onError (strict : bool) (c : nat) (err : string) (w : World) :
  ws_ordered strict w → ws_ordered strict (onError c err w).
Proof.
  intros Hw. unfold onError. destruct (wires w !! c); [|done].
  by apply ws_ordered_emit.
Qed.

Lemma ws_ordered_close (strict : bool) (c : nat) (w : World) :
  ws_ordered strict w → ws_ordered strict (close c w).
Proof. by apply ws_ordered_same. Qed.

Lemma ws_ordered_onMessage (strict : bool) (c : nat) (opcode : Z)
    (text : option string) (bytes : list Z) (w : World) :
  ws_ordered strict w → ws_ordered strict (onMessage c opcode text bytes w).
Proof.
  intros Hw. unfold onMessage. destruct (wires w !! c) as [x|] eqn:Hx; [|done].
  destruct (truthy_str (remotePeerId x)) eqn:Hid; simpl.
  { destruct (negb (opcode =? 2)); [done|].
    destruct (remotePeerId x) as [p|] eqn:Hp; [|done]. simpl.
    apply ws_ordered_emit; [|done].
    destruct Hw as (_ & _ & H3 & _). apply (H3 c x p Hx Hp).
    by apply truthy_str_Some. }
  destruct (negb (opcode =? 1)).
  { by apply ws_ordered_close, ws_ordered_emit. }
  destruct (JSON_parse _) as [obj|]; [|by apply ws_ordered_close, ws_ordered_emit].
  destruct (invalid_hello_fields obj) eqn:Hv;
    [by apply ws_ordered_close, ws_ordered_emit|].
  pose proof (hello_peerId_nonempty obj Hv) as Hne.
  set (p := hello_peerId obj) in *. clearbody p.
  destruct Hw as (H1 & H2 & H3 & H4).
  destruct (outbound x && _ && _) eqn:Hm.
  - assert (Hs : strict = false).
    { destruct strict; [|done].
      rewrite (H4 eq_refl c x Hx) in Hm. done. }
    apply ws_ordered_close. unfold ws_ordered.
    rewrite emit_wires, emit_peers, emit_emitted. simpl.
    split_and!.
    + by apply ws_events_ordered_snoc.
    + intros p' c' Hp'. destruct (H2 p' c' Hp'). split; [done|by apply announced_app].
    + intros c' x' p' Hc' Hp' Hne'. destruct (decide (c' = c)) as [->|Hcc].
      * right. split; [done|]. apply elem_of_app. right.
        by apply list_elem_of_singleton.
      * rewrite lookup_insert_ne in Hc' by done.
        destruct (H3 c' x' p' Hc' Hp' Hne') as [Ha|[_ Hin]].
        -- left. by apply announced_app.
        -- right. split; [done|]. apply elem_of_app. by left.
    + intros Hst. congruence.
  - unfold ws_ordered. rewrite emit_wires, emit_peers, emit_emitted. simpl.
    assert (Hnew : announced p
      (emitted w ++ [EvConnection p (outbound x) (uplinkHref x)])).
    { exists (outbound x), (uplinkHref x). apply elem_of_app. right.
      by apply list_elem_of_singleton. }
    split_and!.
    + by apply ws_events_ordered_snoc.
    + intros p' c' Hp'. destruct (decide (p' = p)) as [->|Hpp]; [done|].
      rewrite lookup_insert_ne in Hp' by done.
      destruct (H2 p' c' Hp'). split; [done|by apply announced_app].
    + intros c' x' p' Hc' Hp' Hne'. destruct (decide (c' = c)) as [->|Hcc].
      * rewrite lookup_insert_eq in Hc'. injection Hc' as <-.
        simpl in Hp'. injection Hp' as <-. by left.
      * rewrite lookup_insert_ne in Hc' by done.
        destruct (H3 c' x' p' Hc' Hp' Hne') as [Ha|[Hs Hin]].
        -- left. by apply announced_app.
        -- right. split; [done|]. apply elem_of_app. by left.
    + intros Hst c' x' Hc'. destruct (decide (c' = c)) as [->|Hcc].
      * rewrite lookup_insert_eq in Hc'. injection Hc' as <-. by apply (H4 Hst c x).
      * rewrite lookup_insert_ne in Hc' by done. by apply (H4 Hst c' x').
Qed.

Lemma ws_ordered_onData_loop (strict : bool) (fuel c : nat) (w : World) :
  ws_ordered strict w → ws_ordered strict (onData_loop fuel c w).1.
Proof.
  revert w. induction fuel as [|fuel IH]; intros w Hw; cbn [onData_loop];
    (destruct (conns w !! c) as [conn|]; [|done]);
    (destruct (tryParseFrame _ _ _) as [|msg|op p r]; [done..|]); cbv zeta;
    (destruct (op =? 8); [by apply ws_ordered_close, (ws_ordered_same strict w)|]).
  - by apply (ws_ordered_same strict w).
  - set (w1 := set_conns _ w).
    assert (H1 : ws_ordered strict w1) by by apply (ws_ordered_same strict w).
    clearbody w1.
    destruct (op =? 9).
    { apply IH. by apply (ws_ordered_same strict w1). }
    destruct (op =? 10); [by apply IH|].
    destruct (op =? 1); [by apply IH, ws_ordered_onMessage|].
    destruct (op =? 2); [by apply IH, ws_ordered_onMessage|done].
Qed.

Lemma ws_ordered_onData (strict : bool) (c : nat) (chunk : list Z) (w : World) :
  ws_ordered strict w → ws_ordered strict (_onData c chunk w).1.
Proof.
  intros Hw. unfold _onData. destruct (conns w !! c) as [conn|]; [|done].
  cbv zeta. by apply ws_ordered_onData_loop, (ws_ordered_same strict w).
Qed.

Lemma ws_ordered_stop (strict : bool) (w : World) :
  ws_ordered strict w → ws_ordered strict (stop w).
Proof.
  intros (H1 & H2 & H3 & H4).
  assert (Hs : wires (stop w) = wires w ∧ emitted (stop w) = emitted w
    ∧ _peers (tr (stop w)) = ∅).
  { unfold stop. cbv zeta.
    pose proof (ws_close_all (set_tr (set_started false) w)
      (_peers (tr (set_tr (set_started false) w)))) as Hall.
    cbv zeta in Hall. set (r := map_fold _ _ _) in *.
    destruct Hall as (Ht & Hw & He & _). clearbody r.
    destruct (_uplink _); simpl; by rewrite Hw, He. }
  destruct Hs as (Hw & He & Hp). unfold ws_ordered. rewrite Hw, He, Hp.
  split_and!; [done| |done|done].
  intros p c Hpc. by rewrite lookup_empty in Hpc.
Qed.

Lemma ws_ordered_send (strict : bool) (to : string) (arg : send_arg) (w : World) :
  ws_ordered strict w → ws_ordered strict (send to arg w).1.
Proof.
  intros Hw. unfold send. destruct arg as [bytes|]; [|done].
  destruct (negb _); [done|].
  destruct (_mode (tr w)) as [[]|].
  - destruct (_peers (tr w) !! to); [|done]. by apply (ws_ordered_same strict w).
  - destruct (_uplink (tr w)); [|done].
    destruct (_ && _); [done|]. by apply (ws_ordered_same strict w).
  - destruct (_uplink (tr w)); [|done].
    destruct (_ && _); [done|]. by apply (ws_ordered_same strict w).
Qed.

Lemma ws_ordered_wireWsConn (strict : bool) (c : nat) (out : bool)
    (href : option string) (w : World) :
  (strict = true → out = false) →
  ws_ordered strict w → ws_ordered strict (_wireWsConn c out href w).
Proof.
  intros Ho Hw. unfold _wireWsConn. cbv zeta.
  set (w1 := set_wires _ w).
  assert (H1 : ws_ordered strict w1) by by apply ws_ordered_wire_new.
  clearbody w1. by apply (ws_ordered_same strict w1).
Qed.

Lemma ws_ordered_start_resume (strict : bool) (w : World) :
  ws_ordered strict w → ws_ordered strict (start_resume w).1.
Proof.
  intros Hw. unfold start_resume.
  destruct (waitHello w) as [[| |err]|]; cbn [fst]; [done| | |done].
  - by apply (ws_ordered_same strict w).
  - by apply ws_ordered_stop, (ws_ordered_same strict w).
Qed.

Lemma ws_ordered_handle (strict : bool) (i : ws_input) (w : World) :
  (strict = true → inbound_only i) →
  ws_ordered strict w → ws_ordered strict (ws_handle i w).
Proof.
  intros Hi Hw. destruct i as [| |to arg|c|err|c href| |c chunk|c|c err];
    cbn [ws_handle].
  - unfold ws_start_server. destruct (_started _); [done|].
    destruct (_mode _) as [[]|]; [|done|done]. by apply (ws_ordered_same strict w).
  - by apply ws_ordered_stop.
  - by apply ws_ordered_send.
  - destruct (_ && _); [|done]. unfold accept. cbv zeta.
    by apply ws_ordered_wireWsConn, (ws_ordered_same strict w).
  - destruct (_httpServer _); [|done]. by apply ws_ordered_emit.
  - destruct (_mode _) as [[]|]; [done| |done].
    destruct (bool_decide _); [|done]. unfold _startClient_connected. cbv zeta.
    apply ws_ordered_wireWsConn.
    + intros Hs. by destruct (Hi Hs).
    + by apply (ws_ordered_same strict w).
  - by apply ws_ordered_start_resume.
  - by apply ws_ordered_onData.
  - by apply ws_ordered_cleanup.
  - by apply ws_ordered_onError.
Qed.

Lemma ws_ordered_run (strict : bool) (inputs : list ws_input) (w : World) :
  (strict = true → Forall inbound_only inputs) →
  ws_ordered strict w → ws_ordered strict (ws_run w inputs).
Proof.
  revert w. induction inputs as [|i inputs IH]; intros w Hi Hw; [done|].
  simpl. apply IH.
  - intros Hs. specialize (Hi Hs). by apply Forall_cons in Hi as [_ Hi].
  - apply ws_ordered_handle; [|done].
    intros Hs. specialize (Hi Hs). by apply Forall_cons in Hi as [Hi _].
Qed.

Lemma ws_ordered_init (strict : bool) (w : World) :
  wires w = ∅ → emitted w = [] → _peers (tr w) = ∅ → ws_ordered strict w.
Proof.
  intros Hw He Hp. unfold ws_ordered. rewrite Hw, He, Hp. split_and!.
  - intros pre e post Heq. by destruct pre.
  - intros p c Hpc. by rewrite lookup_empty in Hpc.
  - intros c x p Hc. by rewrite lookup_empty in Hc.
  - intros _ c x Hc. by rewrite lookup_empty in Hc.
Qed.

(** X23: In every run of a WebSocket transport that starts without connections and
    events, whatever is called and whatever the sockets deliver: a
    [disconnection] event of a peer comes after a [connection] event of that
    peer; a [frame] event of a peer comes after a [connection] event of that
    peer or after the [error] event of a hello that named another peer than
    expected; the registry only holds peers, under their non-empty ids, that
    have been announced by a [connection] event; and in a run in which the
    transport dials nobody every [frame] event of a peer comes after a
    [connection] event of that peer. *)
Theorem ws_events_are_ordered (inputs : list ws_input) (w : World) :
  wires w = ∅ → emitted w = [] → _peers (tr w) = ∅ →
  let w' := ws_run w inputs in
  (∀ pre p o post, emitted w' = pre ++ EvDisconnection p o :: post →
     announced p pre)
  ∧ (∀ pre p b post, emitted w' = pre ++ EvFrame p b :: post →
       announced p pre ∨ peerId_mismatch ∈ pre)
  ∧ (∀ p c, _peers (tr w') !! p = Some c → p ≠ "" ∧ announced p (emitted w'))
  ∧ (Forall inbound_only inputs →
     ∀ pre p b post, emitted w' = pre ++ EvFrame p b :: post → announced p pre).
Proof.
  intros Hw He Hp w'.
  destruct (ws_ordered_run false inputs w) as (H1 & H2 & _);
    [done|by apply ws_ordered_init|].
  split_and!; [| |done|].
  - intros pre p o post Heq. apply (H1 pre _ post Heq).
  - intros pre p b post Heq. destruct (H1 pre _ post Heq) as [Ha|[_ Hm]]; eauto.
  - intros Hin pre p b post Heq.
    destruct (ws_ordered_run true inputs w) as (H1' & _);
      [done|by apply ws_ordered_init|].
    destruct (H1' pre _ post Heq) as [Ha|[Hs _]]; done.
Qed.

End ws_event_order.

Section ws_event_order_witness.
Import Buffer WsCodec Ws.
#[local] Existing Instance example_host.

Lemma ws_events_are_ordered_witness :
  let w' := ws_run (ws_server "A")
    [WsUpgrade 0; WsData 0 (buildFrame 1 (ascii_bytes (hello_text "B")) true [1; 2; 3; 4]);
     WsData 0 (buildFrame 2 [1; 2; 3] true [5; 6; 7; 8]); WsClosed 0] in
  (∀ pre p o post, emitted w' = pre ++ EvDisconnection p o :: post →
     announced p pre)
  ∧ (∀ pre p b post, emitted w' = pre ++ EvFrame p b :: post →
       announced p pre ∨ peerId_mismatch ∈ pre)
  ∧ (∀ p c, _peers (tr w') !! p = Some c → p ≠ "" ∧ announced p (emitted w'))
  ∧ (Forall inbound_only
       [WsUpgrade 0; WsData 0 (buildFrame 1 (ascii_bytes (hello_text "B")) true [1; 2; 3; 4]);
        WsData 0 (buildFrame 2 [1; 2; 3] true [5; 6; 7; 8]); WsClosed 0] →
     ∀ pre p b post, emitted w' = pre ++ EvFrame p b :: post → announced p pre).
Proof.
  apply (ws_events_are_ordered
           [WsUpgrade 0; WsData 0 (buildFrame 1 (ascii_bytes (hello_text "B")) true [1; 2; 3; 4]);
            WsData 0 (buildFrame 2 [1; 2; 3] true [5; 6; 7; 8]); WsClosed 0]
           (ws_server "A")); reflexivity.
Defined.

(** The run of the witness emits [connection], [frame] and [disconnection]. *)
Example ws_run_example :
  emitted (ws_run (ws_server "A")
    [WsUpgrade 0; WsData 0 (buildFrame 1 (ascii_bytes (hello_text "B")) true [1; 2; 3; 4]);
     WsData 0 (buildFrame 2 [1; 2; 3] true [5; 6; 7; 8]); WsClosed 0])
  = [EvConnection "B" false None; EvFrame "B" [1; 2; 3];
     EvDisconnection "B" (Some false)].
Proof. vm_compute. reflexivity. Qed.

End ws_event_order_witness.
(** ** A dial attempt fails *)

Section dial_fails.
Import Buffer Tcp.
Context `{Host}.

(** Among attempts on distinct sockets, the listeners of one socket belong
    to one attempt. *)
Lemma dial_reject_one (pre post : list Dial) (d : Dial) (err : string) (w : World) :
  NoDup (d_socket <$> dials w) →
  dials w = pre ++ d :: post → d_done d = false →
  dial_reject (d_socket d) err w
  = set_dials (λ _, pre ++ settle (Rejected err) d :: post) w.
Proof.
  intros Hnd Hds Hdone. unfold dial_reject, set_dials. f_equal.
  rewrite Hds in *. rewrite fmap_app, fmap_cons in Hnd.
  apply NoDup_app in Hnd as (_ & Hdisj & Hnd).
  apply NoDup_cons in Hnd as [Hnot _].
  rewrite fmap_app, fmap_cons, Hdone.
  rewrite bool_decide_eq_true_2 by done. simpl. f_equal; [|f_equal].
  - rewrite <- (list_fmap_id pre) at 2. apply list_fmap_ext.
    intros i d' Hd'. rewrite bool_decide_eq_false_2; [done|].
    intros Heq. apply (Hdisj (d_socket d')).
    + eapply list_elem_of_fmap_2, list_elem_of_lookup_2, Hd'.
    + rewrite Heq. apply elem_of_cons. by left.
  - rewrite <- (list_fmap_id post) at 2. apply list_fmap_ext.
    intros i d' Hd'. rewrite bool_decide_eq_false_2; [done|].
    intros Heq. apply Hnot. rewrite <- Heq.
    eapply list_elem_of_fmap_2, list_elem_of_lookup_2, Hd'.
Qed.

(** The microtask checkpoint after the attempt [d] has been rejected: its
    [finally] callback runs, the [send] calls that waited are rejected. *)
Lemma microtasks_rejected (pre post : list Dial) (d : Dial) (err : string)
    (w : World) :
  (∀ d', d' ∈ pre ++ post → d_promise d' = Pending ∨ d_finally d' = true) →
  d_finally d = false →
  dials w = pre ++ settle (Rejected err) d :: post →
  microtasks w
  = set_dials (λ _, pre ++ finalize (settle (Rejected err) d) :: post)
      (set_tr (set_dialing (delete (d_key d))) w).
Proof.
  intros Hinert Hfin Hds. unfold microtasks. rewrite Hds.
  rewrite (run_reactions_one pre post _ w Hinert).
  unfold react. cbn [d_promise settle d_finally]. rewrite Hfin. done.
Qed.

(** X24: When the socket of a pending dial attempt fails or closes before its hello
    has been read, the callback and its microtask checkpoint reject the
    attempt (with the socket's error, or with [connect closed]) and take
    its key out of the ledger; nothing is called on the socket, so none of
    the payloads of the [send] calls that waited is written, and the
    registry stays as it is. An [error] event is emitted for the socket's
    error only if the socket had connected. *)
Theorem tcp_dial_fails (pre post : list Dial) (d : Dial) (err : string) (w : World) :
  dial_invariant w →
  dials w = pre ++ d :: post →
  d_done d = false → d_promise d = Pending →
  (∀ h, handlers w !! d_socket d = Some h → remotePeerId h = None) →
  let failed (msg : string) (w' : World) :=
    sockets w' = sockets w
    ∧ _dialing (tr w') = delete (d_key d) (_dialing (tr w))
    ∧ _peers (tr w') = _peers (tr w)
    ∧ dials w' = pre ++ finalize (settle (Rejected msg) d) :: post in
  failed err (step w (Error (d_socket d) err))
  ∧ emitted (step w (Error (d_socket d) err))
    = emitted w ++ match handlers w !! d_socket d with
                   | Some _ => [EvError err]
                   | None => []
                   end
  ∧ failed "TcpTransport connect closed" (step w (Close (d_socket d)))
  ∧ emitted (step w (Close (d_socket d))) = emitted w.
Proof.
  intros (Hnd & _ & _ & Hpend) Hds Hdone Hp Hid failed.
  assert (Hinert : ∀ d', d' ∈ pre ++ post →
            d_promise d' = Pending ∨ d_finally d' = true).
  { intros d' Hd'.
    assert (Hin : d' ∈ dials w).
    { rewrite Hds. apply elem_of_app in Hd' as [?|?];
        rewrite elem_of_app, elem_of_cons; tauto. }
    specialize (Hpend d' Hin). unfold in_flight in Hpend.
    destruct (d_finally d'); [by right|left]. by apply Hpend. }
  assert (Hfin : d_finally d = false).
  { apply Hpend; [|done]. rewrite Hds, elem_of_app, elem_of_cons. tauto. }
  assert (Herr : step w (Error (d_socket d) err)
    = set_dials (λ _, pre ++ finalize (settle (Rejected err) d) :: post)
        (set_tr (set_dialing (delete (d_key d)))
           (set_emitted
              (λ l, l ++ match handlers w !! d_socket d with
                         | Some _ => [EvError err]
                         | None => []
                         end)
              w))).
  { unfold step, handle, onError. cbv zeta.
    rewrite (dial_reject_one pre post d err w Hnd Hds Hdone).
    cbn [handlers set_dials].
    destruct (handlers w !! d_socket d) as [h|].
    - rewrite tcp_emit_error.
      by rewrite (microtasks_rejected pre post d err _ Hinert Hfin).
    - rewrite (microtasks_rejected pre post d err _ Hinert Hfin) by done.
      destruct w. unfold set_dials, set_tr, set_emitted. simpl.
      by rewrite app_nil_r. }
  assert (Hclose : ∃ hs, step w (Close (d_socket d))
    = set_dials
        (λ _, pre ++ finalize (settle (Rejected "TcpTransport connect closed") d)
                :: post)
        (set_tr (set_dialing (delete (d_key d))) (set_handlers (λ _, hs) w))).
  { unfold step, handle, onClose.
    rewrite (dial_reject_one pre post d _ w Hnd Hds Hdone).
    unfold cleanup. cbn [handlers set_dials].
    destruct (handlers w !! d_socket d) as [h|].
    - destruct (closed h).
      + exists (handlers w).
        rewrite (microtasks_rejected pre post d "TcpTransport connect closed"
                   _ Hinert Hfin) by done.
        by destruct w.
      + cbv zeta. rewrite (Hid h eq_refl).
        exists (<[d_socket d := set_closed true h]> (handlers w)).
        by rewrite (microtasks_rejected pre post d "TcpTransport connect closed"
                      _ Hinert Hfin).
    - exists (handlers w).
      rewrite (microtasks_rejected pre post d "TcpTransport connect closed"
                 _ Hinert Hfin) by done.
      by destruct w. }
  destruct Hclose as (hs & Hclose). rewrite Herr, Hclose. unfold failed.
  by split_and!.
Qed.

End dial_fails.

Section dial_fails_witness.
Import Buffer Tcp.
#[local] Existing Instance example_host.

Lemma tcp_dial_fails_witness :
  let w := run (tcp_node "A" None)
    [Start; Send "relay:9000" [1] None; Send "tcp://relay:9000" [2] None;
     Connected 0] in
  let d := MkDial 0 "tcp://relay:9000" None false Pending false [[1]; [2]] in
  let failed (msg : string) (w' : World) :=
    sockets w' = sockets w
    ∧ _dialing (tr w') = delete "tcp://relay:9000" (_dialing (tr w))
    ∧ _peers (tr w') = _peers (tr w)
    ∧ dials w' = [] ++ finalize (settle (Rejected msg) d) :: [] in
  failed "ECONNRESET" (step w (Error 0 "ECONNRESET"))
  ∧ emitted (step w (Error 0 "ECONNRESET"))
    = emitted w ++ match handlers w !! 0%nat with
                   | Some _ => [EvError "ECONNRESET"]
                   | None => []
                   end
  ∧ failed "TcpTransport connect closed" (step w (Close 0))
  ∧ emitted (step w (Close 0)) = emitted w.
Proof.
  intros w d.
  apply (tcp_dial_fails [] [] d "ECONNRESET" w); try reflexivity.
  - apply two_sends_invariant.
  - intros h Hh. vm_compute in Hh. by injection Hh as <-.
Defined.

End dial_fails_witness.
(** ** What a socket can make the transport hold *)

Section tcp_buffer_bound.
Import Buffer Tcp.
Context `{Host}.

Lemma socket_call_is_Some (s s' : nat) (k : sock_call) (w : World) :
  is_Some (sockets w !! s) → is_Some (sockets (socket_call s' k w) !! s).
Proof.
  intros Hs. unfold socket_call. simpl. destruct (decide (s' = s)) as [->|Hne].
  - rewrite lookup_alter_eq. by apply fmap_is_Some.
  - by rewrite lookup_alter_ne.
Qed.

Lemma onConn_is_Some (s : nat) (p : string) (d : Dial) (w : World) :
  is_Some (sockets w !! s) → is_Some (sockets (onConn p d w).1 !! s).
Proof.
  intros Hs. unfold onConn. destruct (d_done d); [done|].
  destruct (negb _); [done|]. destruct (_ && _); [|done].
  by apply socket_call_is_Some.
Qed.

Lemma run_onConn_is_Some (s : nat) (p : string) (ds : list Dial) (w : World) :
  is_Some (sockets w !! s) → is_Some (sockets (run_onConn p ds w).1 !! s).
Proof.
  revert w. induction ds as [|d ds IH]; intros w Hs; simpl; [done|].
  pose proof (onConn_is_Some s p d w Hs) as H1.
  destruct (onConn p d w) as [w1 d1]. simpl in H1.
  specialize (IH w1 H1). by destruct (run_onConn p ds w1).
Qed.

Lemma emit_is_Some (s : nat) (e : event) (w : World) :
  is_Some (sockets w !! s) → is_Some (sockets (emit e w) !! s).
Proof.
  intros Hs. unfold emit. cbv zeta. destruct e as [p o u| | |]; try done.
  pose proof (run_onConn_is_Some s p
    (dials (set_emitted (λ l, l ++ [EvConnection p o u]) w))
    (set_emitted (λ l, l ++ [EvConnection p o u]) w) Hs) as H1.
  by destruct (run_onConn _ _ _).
Qed.

Lemma destroy_destroyed (s : nat) (w : World) :
  is_Some (sockets w !! s) → destroyed s (socket_call s SockDestroy w) = true.
Proof.
  intros [calls Hs]. unfold destroyed, socket_call. simpl.
  rewrite lookup_alter_eq, Hs. simpl. rewrite existsb_app. simpl.
  by rewrite orb_true_r.
Qed.

(** What the loop leaves in the buffer of a socket it has not destroyed:
    less than a unit, and less than the ceiling allows a unit to be. *)
Lemma tcp_onData_loop_bound (fuel s : nat) :
  ∀ (h : Handler) (w : World),
  handlers w !! s = Some h → Forall is_byte (buf h) →
  (length (buf h) ≤ fuel)%nat →
  0 ≤ _maxFrameBytes (tr w) → is_Some (sockets w !! s) →
  ∃ h', handlers (onData_loop fuel s w) !! s = Some h'
    ∧ (destroyed s (onData_loop fuel s w) = false →
       len (buf h') < 4 + _maxFrameBytes (tr w)
       ∧ (len (buf h') < 4 ∨ len (buf h') < 4 + readUInt32BE (buf h') 0)).
Proof.
  induction fuel as [|fuel IH]; intros h w Hh Hb Hfuel Hmax Hs.
  - destruct (buf h) as [|] eqn:Hbuf; [|simpl in Hfuel; lia].
    simpl. rewrite Hh, Hbuf. simpl. exists h. split; [done|].
    intros _. rewrite Hbuf. unfold len. simpl. lia.
  - cbn [onData_loop]. rewrite Hh.
    destruct (len (buf h) <? 4) eqn:H4.
    { apply Z.ltb_lt in H4. exists h. split; [done|]. intros _. lia. }
    pose proof (readUInt32BE_nonneg (buf h) 0 Hb) as Hlen.
    set (L := readUInt32BE (buf h) 0) in *.
    destruct (L >? _maxFrameBytes (tr w)) eqn:Hover.
    { exists h. split; [by rewrite tcp_emit_error|].
      rewrite destroy_destroyed; [done|by rewrite tcp_emit_error]. }
    rewrite Z.gtb_ltb in Hover. apply Z.ltb_ge in Hover.
    destruct (len (buf h) <? 4 + L) eqn:Hlt.
    { apply Z.ltb_lt in Hlt. exists h. split; [done|]. intros _. fold L. lia. }
    apply Z.ltb_ge in Hlt. unfold len in Hlt.
    set (rest := subarray_from (buf h) (4 + L)).
    assert (Hrest : (length rest ≤ fuel)%nat ∧ Forall is_byte rest).
    { unfold rest, subarray_from. split; [|by apply Forall_drop].
      rewrite length_drop. lia. }
    destruct Hrest as [Hrl Hrb].
    cbn [remotePeerId set_buf].
    set (w1 := set_handlers _ w).
    assert (Hh1 : handlers w1 !! s
      = Some (MkHandler (outbound h) rest (remotePeerId h) (closed h))).
    { unfold w1. simpl. apply lookup_insert_eq. }
    destruct (negb (truthy_str (remotePeerId h))).
    + destruct (JSON_parse _) as [obj|].
      2:{ eexists. split; [by rewrite tcp_emit_error|].
          rewrite destroy_destroyed; [done|by rewrite tcp_emit_error]. }
      destruct (invalid_hello_fields obj).
      { eexists. split; [by rewrite tcp_emit_error|].
        rewrite destroy_destroyed; [done|by rewrite tcp_emit_error]. }
      cbv zeta.
      match goal with |- context [emit (EvConnection ?p ?o ?u) ?w0] =>
        pose proof (emit_connection_frame p o u w0) as He; cbv zeta in He;
        destruct He as (Ht & Hhd & _);
        pose proof (emit_is_Some s (EvConnection p o u) w0 Hs) as Hs';
        set (w3 := emit (EvConnection p o u) w0) in *
      end.
      assert (Hh3 : handlers w3 !! s
        = Some (MkHandler (outbound h) rest (Some (hello_peerId obj)) (closed h))).
      { rewrite Hhd. cbn [handlers set_tr set_handlers]. apply lookup_insert_eq. }
      destruct (IH _ w3 Hh3) as (h' & Hh' & Hbound); try done.
      { by rewrite Ht. }
      exists h'. split; [done|]. rewrite Ht in Hbound. exact Hbound.
    + rewrite tcp_emit_frame.
      match goal with |- context [onData_loop fuel s ?w0] => set (w3 := w0) end.
      destruct (IH _ w3 Hh1) as (h' & Hh' & Hbound); try done.
      exists h'. split; [done|]. exact Hbound.
Qed.

(** X25: After the data listener of a socket has run, either it has destroyed the
    socket, or the socket's buffer holds less than a whole unit and fewer
    than 4 + [maxFrameBytes] bytes: this is all a peer can make the
    transport keep for one socket. *)
Theorem tcp_buffer_is_bounded (s : nat) (h : Handler) (chunk : list Z) (w : World) :
  handlers w !! s = Some h →
  Forall is_byte (buf h) → Forall is_byte chunk →
  0 ≤ _maxFrameBytes (tr w) → is_Some (sockets w !! s) →
  ∃ h', handlers (onData s chunk w) !! s = Some h'
    ∧ (destroyed s (onData s chunk w) = false →
       len (buf h') < 4 + _maxFrameBytes (tr w)
       ∧ (len (buf h') < 4 ∨ len (buf h') < 4 + readUInt32BE (buf h') 0)).
Proof.
  intros Hh Hb Hchunk Hmax Hs. unfold onData. rewrite Hh. cbv zeta.
  destruct (tcp_onData_loop_bound (length (buf h ++ chunk)) s
              (set_buf (buf h ++ chunk) h)
              (set_handlers (<[s := set_buf (buf h ++ chunk) h]>) w))
    as (h' & Hh' & Hbound); try done.
  - simpl. apply lookup_insert_eq.
  - simpl. by apply Forall_app.
  - exists h'. split; [done|exact Hbound].
Qed.

End tcp_buffer_bound.

Section tcp_buffer_bound_witness.
Import Buffer Tcp.
#[local] Existing Instance example_host.

Lemma tcp_buffer_is_bounded_witness :
  ∃ h', handlers (onData 0 (encodeFrame [1; 2; 3] ++ [0; 0]) tcp_identified) !! 0%nat
        = Some h'
    ∧ (destroyed 0 (onData 0 (encodeFrame [1; 2; 3] ++ [0; 0]) tcp_identified) = false →
       len (buf h') < 4 + _maxFrameBytes (tr tcp_identified)
       ∧ (len (buf h') < 4 ∨ len (buf h') < 4 + readUInt32BE (buf h') 0)).
Proof.
  apply (tcp_buffer_is_bounded 0 (MkHandler false [] (Some "B") false)
           (encodeFrame [1; 2; 3] ++ [0; 0]) tcp_identified).
  - reflexivity.
  - simpl. constructor.
  - vm_compute. repeat constructor; discriminate.
  - vm_compute. discriminate.
  - vm_compute. eexists. reflexivity.
Defined.

End tcp_buffer_bound_witness.
(** ** What a connection can make the transport hold *)

Section ws_buffer_bound.
Import Buffer WsCodec Ws.
Context `{Host}.

(** The tests of [tryParseFrame] behind the length field, one after the
    other. *)
Ltac need_more Hp :=
  repeat match type of Hp with
  | (if ?l >? ?m then _ else _) = _ => destruct (Z.gtb_spec l m); [done|]
  | (if negb ?x && _ then _ else _) = _ => destruct (negb x); cbn [andb] in Hp
  | (if ?a <? ?b then _ else _) = _ => destruct (Z.ltb_spec a b); [lia|]
  end; try done.

(** A buffer in which [tryParseFrame] finds no frame yet is shorter than the
    longest header and the largest payload the ceiling admits. *)
Lemma tryParseFrame_NeedMore_len (b : list Z) (e : bool) (m : Z) :
  tryParseFrame b e m = NeedMore → 0 ≤ m → len b < 14 + m.
Proof.
  intros Hp Hm. unfold tryParseFrame in Hp.
  destruct (Z.ltb_spec (len b) 2); [lia|]. cbv zeta in Hp.
  destruct (negb (negb _)); [done|].
  destruct (e && _); [done|]. destruct (negb e && _); [done|].
  pose proof (land_127_range (get b 1)) as H7.
  set (l7 := Z.land (get b 1) 127) in *.
  destruct (l7 =? 126).
  { destruct (Z.ltb_spec (len b) (2 + 2)); [lia|]. need_more Hp. }
  destruct (l7 =? 127).
  { destruct (Z.ltb_spec (len b) (2 + 8)); [lia|].
    destruct (negb (_ =? 0)); [done|]. need_more Hp. }
  need_more Hp.
Qed.

(** What the loop leaves in the buffer when it returns: less than a frame,
    unless a close frame ended it. *)
Lemma ws_onData_loop_bound (fuel c : nat) :
  ∀ (conn : WsConnection) (w : World),
  conns w !! c = Some conn → Forall is_byte (_buf conn) →
  (length (_buf conn) ≤ fuel)%nat → 0 ≤ c_maxPayloadBytes conn →
  ∃ conn', conns (onData_loop fuel c w).1 !! c = Some conn'
    ∧ ((onData_loop fuel c w).2 = Returned →
       (tryParseFrame (_buf conn') (_expectMasked conn) (c_maxPayloadBytes conn)
        = NeedMore
        ∧ len (_buf conn') < 14 + c_maxPayloadBytes conn)
       ∨ ∃ calls, _socket conn'
           = calls ++ [SockEnd (OutFrame 8 [] (_maskOutgoing conn))]).
Proof.
  induction fuel as [|fuel IH]; intros conn w Hc Hb Hfuel Hmax;
    cbn [onData_loop]; rewrite Hc;
    (destruct (tryParseFrame _ _ _) as [|msg|op p r] eqn:Hparse;
      [exists conn; split; [done|]; intros _; left; split; [done|];
         by apply (tryParseFrame_NeedMore_len _ _ _ Hparse)
      |by exists conn|]);
    cbv zeta;
    destruct (tryParseFrame_rest _ _ _ _ _ _ Hb Hparse) as [Hrl Hrb];
    (destruct (op =? 8);
      [unfold close, socket_call, mask_of; simpl;
       rewrite !lookup_insert_eq; simpl; rewrite lookup_alter_eq, lookup_insert_eq;
       simpl; eexists; split; [done|]; intros _; right; by eexists|]).
  - lia.
  - set (w1 := set_conns _ w).
    assert (Hc1 : conns w1 !! c = Some (set_buf r conn)).
    { unfold w1. simpl. apply lookup_insert_eq. }
    assert (Hgo : ∀ w2, (∃ conn2, conns w2 !! c = Some conn2
                           ∧ same_codec (set_buf r conn) conn2) →
      ∃ conn', conns (onData_loop fuel c w2).1 !! c = Some conn'
        ∧ ((onData_loop fuel c w2).2 = Returned →
           (tryParseFrame (_buf conn') (_expectMasked conn) (c_maxPayloadBytes conn)
            = NeedMore
            ∧ len (_buf conn') < 14 + c_maxPayloadBytes conn)
           ∨ ∃ calls, _socket conn'
               = calls ++ [SockEnd (OutFrame 8 [] (_maskOutgoing conn))])).
    { intros w2 (conn2 & Hc2 & Hb2 & He2 & Hm2 & Ho2). simpl in *.
      destruct (IH conn2 w2 Hc2) as (conn' & Hc' & Hbound).
      - by rewrite Hb2.
      - rewrite Hb2. lia.
      - by rewrite Hm2.
      - exists conn'. split; [done|]. by rewrite He2, Hm2, Ho2 in Hbound. }
    clearbody w1.
    destruct (op =? 9); [by apply Hgo, socket_call_codec|].
    destruct (op =? 10); [apply Hgo; by exists (set_buf r conn)|].
    destruct (op =? 1); [by apply Hgo, onMessage_codec|].
    destruct (op =? 2); [by apply Hgo, onMessage_codec|].
    by exists (set_buf r conn).
Qed.

(** X26: When [_onData] returns, either a close frame has ended it (the
    connection's last call on its socket is the [end] with the close frame),
    or the buffer holds no whole frame and fewer than 14 + [maxPayloadBytes]
    bytes: this is all a peer can make the transport keep for one
    connection. *)
Theorem ws_buffer_is_bounded (c : nat) (conn : WsConnection) (chunk : list Z)
    (w : World) :
  conns w !! c = Some conn →
  Forall is_byte (_buf conn) → Forall is_byte chunk →
  0 ≤ c_maxPayloadBytes conn →
  ∃ conn', conns (_onData c chunk w).1 !! c = Some conn'
    ∧ ((_onData c chunk w).2 = Returned →
       (tryParseFrame (_buf conn') (_expectMasked conn) (c_maxPayloadBytes conn)
        = NeedMore
        ∧ len (_buf conn') < 14 + c_maxPayloadBytes conn)
       ∨ ∃ calls, _socket conn'
           = calls ++ [SockEnd (OutFrame 8 [] (_maskOutgoing conn))]).
Proof.
  intros Hc Hb Hchunk Hmax. unfold _onData. rewrite Hc. cbv zeta.
  destruct (ws_onData_loop_bound (length (_buf conn ++ chunk)) c
              (set_buf (_buf conn ++ chunk) conn)
              (set_conns (<[c := set_buf (_buf conn ++ chunk) conn]>) w))
    as (conn' & Hc' & Hbound); try done.
  - simpl. apply lookup_insert_eq.
  - simpl. by apply Forall_app.
  - exists conn'. split; [done|exact Hbound].
Qed.

End ws_buffer_bound.

Section ws_buffer_bound_witness.
Import Buffer WsCodec Ws.
#[local] Existing Instance example_host.

Lemma ws_buffer_is_bounded_witness :
  ∃ conn', conns (_onData 0 (buildFrame 2 [1; 2; 3] true [5; 6; 7; 8] ++ [130])
                    ws_identified).1 !! 0%nat = Some conn'
    ∧ ((_onData 0 (buildFrame 2 [1; 2; 3] true [5; 6; 7; 8] ++ [130])
          ws_identified).2 = Returned →
       (tryParseFrame (_buf conn') true (1024 * 1024) = NeedMore
        ∧ len (_buf conn') < 14 + 1024 * 1024)
       ∨ ∃ calls, _socket conn' = calls ++ [SockEnd (OutFrame 8 [] false)]).
Proof.
  apply (ws_buffer_is_bounded 0 (Conn false true (1024 * 1024) [] [])
           (buildFrame 2 [1; 2; 3] true [5; 6; 7; 8] ++ [130]) ws_identified).
  - reflexivity.
  - simpl. constructor.
  - vm_compute. repeat constructor; discriminate.
  - vm_compute. discriminate.
Defined.

End ws_buffer_bound_witness.
